(** * Split Bill Buddy: the bill-splitting core of [split_bill_bot.py]

    A shallow embedding of the session store, the command handlers, the
    reconciliation step and the cent allocator of the bot, with Python's
    [float] modelled by binary64 primitive floats, so that every
    definition evaluates to what the interpreter computes. *)

From Stdlib Require Import Rbase Rfunctions Lra.
From stdpp Require Import gmap strings list.
From Stdlib Require Import ZArith Floats.

Set Warnings "-inexact-float".

Open Scope Z_scope.

(** ** Python numbers *)

Module Py.

(** The integer value of a finite mantissa/exponent pair, rounded down. *)
Definition floor_finite (s : bool) (m : positive) (e : Z) : Z :=
  let n := if s then Z.neg m else Z.pos m in
  if 0 <=? e then n * 2 ^ e else n / 2 ^ (- e).

(** Round half to even of a finite mantissa/exponent pair. *)
Definition round_finite (s : bool) (m : positive) (e : Z) : Z :=
  let n := if s then Z.neg m else Z.pos m in
  if 0 <=? e then n * 2 ^ e
  else
    let d := 2 ^ (- e) in
    let q := n / d in
    let r := n mod d in
    if 2 * r <? d then q
    else if d <? 2 * r then q + 1
    else if Z.even q then q else q + 1.

(** [math.floor(x)]: an [int]; raises on infinities and NaN ([None]). *)
Definition floor (x : float) : option Z :=
  match Prim2SF x with
  | S754_zero _ => Some 0
  | S754_finite s m e => Some (floor_finite s m e)
  | S754_infinity _ | S754_nan => None
  end.

(** [round(x)] with one argument: an [int], ties to even; raises on
    infinities and NaN ([None]). *)
Definition round (x : float) : option Z :=
  match Prim2SF x with
  | S754_zero _ => Some 0
  | S754_finite s m e => Some (round_finite s m e)
  | S754_infinity _ | S754_nan => None
  end.

(** Conversion of an [int] operand to [float], correctly rounded;
    [OverflowError] ([None]) when the integer rounds beyond the largest
    double, that is from [2^1024 - 2^970] on. *)
Definition float_of_int (n : Z) : option float :=
  if bool_decide (Z.abs n < 2 ^ 1024 - 2 ^ 970)
  then Some (SF2Prim (binary_normalize prec emax n 0 false))
  else None.

(** [n / y] for an [int] [n] and a non-zero [float] literal [y]. *)
Definition int_truediv (n : Z) (y : float) : option float :=
  f ← float_of_int n; Some (f / y)%float.

(** [x / n] for a [float] [x] and an [int] [n]: the divisor is
    converted first ([OverflowError] for a huge [n]), and a divisor that
    converts to a zero raises [ZeroDivisionError]; [None] for both. *)
Definition truediv_int (x : float) (n : Z) : option float :=
  f ← float_of_int n;
  match binary_normalize prec emax n 0 false with
  | S754_zero _ => None
  | _ => Some (x / f)%float
  end.

(** [x / y] on floats: [ZeroDivisionError] ([None]) when [y == 0]. *)
Definition truediv (x y : float) : option float :=
  if (y =? 0)%float then None else Some (x / y)%float.

(** [math.isfinite(x)] *)
Definition isfinite (x : float) : bool :=
  match Prim2SF x with
  | S754_zero _ | S754_finite _ _ _ => true
  | S754_infinity _ | S754_nan => false
  end.

(** [sum] of a list of [int]. *)
Definition sum_int (l : list Z) : Z := foldl Z.add 0 l.

(** [sum] of floats: the accumulator starts at the integer [0] and the
    items are added from left to right.  (From CPython 3.12 on, [sum] also
    carries a compensation term.  The results stated below do not depend
    on the order or the rounding of the additions, except for the bound
    on the sum after [SCALE_FIX], which is proved for this left-to-right
    addition through [sum_float_error] alone; the sums that are evaluated
    have at most two items, where both agree.) *)
Definition sum_float (l : list float) : float :=
  foldl PrimFloat.add 0%float l.

End Py.

(** ** Helpers of the bot *)

(** [close_enough(a, b, tol=0.01)] *)
Definition close_enough (a b : float) : bool :=
  (PrimFloat.abs (a - b) <=? 0.01)%float.

(** The [while] loop of [allocate_cents]: one cent to [cents[idx]] as long
    as [diff > 0 and idx < len(cents)].  [idx] grows at every turn, so
    [length cents] turns are enough. *)
Fixpoint add_remainder (fuel : nat) (cents : list Z) (diff : Z) (idx : nat)
  : list Z :=
  match fuel with
  | O => cents
  | S fuel' =>
      if bool_decide (0 < diff) && bool_decide (idx < length cents)%nat
      then add_remainder fuel' (alter (λ c, c + 1) idx cents) (diff - 1) (S idx)
      else cents
  end.

(** The integer part of [allocate_cents]: the floored cents, the
    remainder [diff], and the list of cents after the loop. *)
Definition floored_cents (shares : list float) : option (list Z) :=
  mapM (λ x, Py.floor (x * 100)%float) shares.

Definition allocate_cents_int (shares : list float) (grand_total : float)
  : option (list Z) :=
  cents ← floored_cents shares;
  target ← Py.round (grand_total * 100)%float;
  let diff := target - Py.sum_int cents in
  Some (add_remainder (length cents) cents diff 0).

(** [allocate_cents(shares, grand_total)] *)
Definition allocate_cents (shares : list float) (grand_total : float)
  : option (list float) :=
  cents ← allocate_cents_int shares grand_total;
  mapM (λ c, Py.int_truediv c 100%float) cents.

(** An amount read back in integer cents. *)
Definition to_cents (x : float) : option Z := Py.round (x * 100)%float.


(** ** The session store *)

(** One bill session, the dict built by [get_session].  [people] is an
    insertion-ordered dict: an association list with distinct keys. *)
Record Session := mkSession {
  currency : string;
  total : float;
  gst : float;
  service : float;
  num_people : Z;
  people : list (string * float);
  messages : list Z;
  finalized_msg_id : option Z
}.

(** [SESSIONS]: chat id to session. *)
Abbreviation Sessions := (gmap Z Session).

Definition fresh_session : Session :=
  mkSession "SGD" 0 0 0 0 [] [] None.

Definition with_currency (c : string) (s : Session) : Session :=
  mkSession c (total s) (gst s) (service s) (num_people s) (people s)
            (messages s) (finalized_msg_id s).

Definition with_total (v : float) (s : Session) : Session :=
  mkSession (currency s) v (gst s) (service s) (num_people s) (people s)
            (messages s) (finalized_msg_id s).

Definition with_gst (v : float) (s : Session) : Session :=
  mkSession (currency s) (total s) v (service s) (num_people s) (people s)
            (messages s) (finalized_msg_id s).

Definition with_service (v : float) (s : Session) : Session :=
  mkSession (currency s) (total s) (gst s) v (num_people s) (people s)
            (messages s) (finalized_msg_id s).

Definition with_num_people (n : Z) (s : Session) : Session :=
  mkSession (currency s) (total s) (gst s) (service s) n (people s)
            (messages s) (finalized_msg_id s).

Definition with_people (d : list (string * float)) (s : Session) : Session :=
  mkSession (currency s) (total s) (gst s) (service s) (num_people s) d
            (messages s) (finalized_msg_id s).

Definition with_messages (l : list Z) (s : Session) : Session :=
  mkSession (currency s) (total s) (gst s) (service s) (num_people s)
            (people s) l (finalized_msg_id s).

Definition with_finalized (f : option Z) (s : Session) : Session :=
  mkSession (currency s) (total s) (gst s) (service s) (num_people s)
            (people s) (messages s) f.

(** *** The [people] dict *)

(** [d.get(name)] *)
Fixpoint dict_get (name : string) (d : list (string * float)) : option float :=
  match d with
  | [] => None
  | (k, v) :: rest => if String.eqb k name then Some v else dict_get name rest
  end.

(** [d[name] = v]: an existing key keeps its place, a new one goes last. *)
Fixpoint dict_set (name : string) (v : float) (d : list (string * float))
  : list (string * float) :=
  match d with
  | [] => [(name, v)]
  | (k, w) :: rest =>
      if String.eqb k name then (k, v) :: rest
      else (k, w) :: dict_set name v rest
  end.

(** [d.pop(name)] for a key that is present. *)
Fixpoint dict_pop (name : string) (d : list (string * float))
  : list (string * float) :=
  match d with
  | [] => []
  | (k, w) :: rest =>
      if String.eqb k name then rest else (k, w) :: dict_pop name rest
  end.

(** [name in d] *)
Definition dict_mem (name : string) (d : list (string * float)) : bool :=
  match dict_get name d with Some _ => true | None => false end.

(** *** Fetch-or-create and message tracking *)

(** [get_session(chat_id)]: the store after the call and the session. *)
Definition get_session (S : Sessions) (chat_id : Z) : Sessions * Session :=
  match S !! chat_id with
  | Some s => (S, s)
  | None => (<[chat_id := fresh_session]> S, fresh_session)
  end.

(** The bookkeeping of [send_and_track]: the id of the message just sent
    is appended to the session's [messages]. *)
Definition send_and_track (S : Sessions) (chat_id : Z) (mid : Z) : Sessions :=
  let '(S1, s) := get_session S chat_id in
  <[chat_id := with_messages (messages s ++ [mid]) s]> S1.

(** [delete_setup_messages]: only the ids in [keep_ids] stay tracked (the
    deletions themselves happen in the chat, not in the store). *)
Definition delete_setup_messages (S : Sessions) (chat_id : Z) (keep_ids : list Z)
  : Sessions :=
  let '(S1, s) := get_session S chat_id in
  <[chat_id :=
      with_messages (filter (λ m, m ∈ keep_ids) (messages s)) s]> S1.

(** ** Conversation states and replies *)

Inductive ConvState :=
  MENU | CURRENCY | TOTAL | GST | SERVICE | NUM_PEOPLE | END.

(** The buttons handled by [mismatch_fix_cb]. *)
Inductive FixChoice := SCALE_FIX | EDIT_FIX | TOTAL_TO_SUM.

(** What a handler sends back; the amounts are the values that the
    message renders. *)
Inductive Reply :=
| NoActiveBill
| Usage
| InvalidTotal
| AskGst
| InvalidGst
| AskService
| InvalidService
| AskNumPeople
| InvalidNumPeople
| SetupComplete
| AskTotal
| InvalidAmount
| Added (name : string) (amount new_subtotal : float)
| NotInList (name : string)
| Updated (name : string) (amount : float)
| Removed (name : string)
| NotFound (name : string)
| TotalUpdated (amount : float)
| NoPeopleYet
| EqualBreakdown (subtotal gst_amt svc_amt grand per : float) (n : Z)
| Mismatch (entered sum_custom diff : float) (more : bool)
| CustomBreakdown (subtotal gst_amt svc_amt grand : float)
                  (shares : list (string * float))
| CannotScale
| Scaled
| EditHint
| TotalSetToSum (new_total : float)
| Uncaught.

(** ** Handlers *)

(** [/start]: the session of the chat is dropped and created anew, the
    menu message is tracked, and the conversation enters [MENU]. *)
Definition start (S : Sessions) (chat_id : Z) (mid : Z) : Sessions * ConvState :=
  (send_and_track (delete chat_id S) chat_id mid, MENU).

(** [/stop]: the tracked messages of an existing session are forgotten
    (and deleted in the chat), then the session is dropped. *)
Definition stop_cmd (S : Sessions) (chat_id : Z) : Sessions :=
  let S1 := match S !! chat_id with
            | Some _ => delete_setup_messages S chat_id []
            | None => S
            end in
  delete chat_id S1.

(** [/reset]: the same cleanup, then [start], whose result it returns.
    [main] registers the handler as a plain command, outside the
    conversation handler that holds the menu and the prompts. *)
Definition reset (S : Sessions) (chat_id : Z) (mid : Z) : Sessions * ConvState :=
  let S1 := match S !! chat_id with
            | Some _ => delete_setup_messages S chat_id []
            | None => S
            end in
  start (delete chat_id S1) chat_id mid.

(** [main_menu_cb]: the two buttons of the menu; the answers are not
    tracked and the store is not touched.  [None]: the handler falls off
    its end without a state. *)
Definition main_menu_cb (S : Sessions) (chat_id : Z) (data : string)
  : Sessions * option ConvState :=
  if String.eqb data "START_FLOW" then (S, Some CURRENCY)
  else if String.eqb data "HELP_FLOW" then (S, Some MENU)
  else (S, None).

(** [/delete]: only the id of the last breakdown stays tracked.  A
    message id of 0 counts as absent, as [None] does. *)
Definition delete_cmd (S : Sessions) (chat_id : Z) : Sessions :=
  match S !! chat_id with
  | None => S
  | Some s =>
      let keep := match finalized_msg_id s with
                  | Some fid => if bool_decide (fid = 0) then [] else [fid]
                  | None => []
                  end in
      delete_setup_messages S chat_id keep
  end.

(** What [/list] shows. *)
Inductive Listing :=
| ListNoActiveBill
| ListNoEntries
| ListEntries (code : string) (items : list (string * float)) (target : float).

(** [/list] *)
Definition list_people (S : Sessions) (chat_id : Z) (mid : Z)
  : Sessions * Listing :=
  match S !! chat_id with
  | None => (S, ListNoActiveBill)
  | Some s =>
      match people s with
      | [] => (send_and_track S chat_id mid, ListNoEntries)
      | _ :: _ =>
          (send_and_track S chat_id mid,
           ListEntries (currency s) (people s) (total s))
      end
  end.

Section Handlers.

(** Python's [float(str)] and [int(str)]: [None] stands for the
    [ValueError] that the handlers catch. *)
Variable py_float : string → option float.
Variable py_int : string → option Z.

(** [choose_currency_cb] *)
Definition choose_currency_cb (S : Sessions) (chat_id : Z) (data : string)
    (mid : Z) : Sessions * Reply * ConvState :=
  let '(S1, s) := get_session S chat_id in
  let s1 := with_currency data s in
  (<[chat_id := with_messages (messages s1 ++ [mid]) s1]> S1, AskTotal, TOTAL).

(** [set_total]: the parsed value is stored first and tested afterwards. *)
Definition set_total (S : Sessions) (chat_id : Z) (text : string) (mid : Z)
  : Sessions * Reply * ConvState :=
  let '(S1, s) := get_session S chat_id in
  match py_float text with
  | Some v =>
      let S2 := <[chat_id := with_total v s]> S1 in
      if (v <? 0)%float
      then (send_and_track S2 chat_id mid, InvalidTotal, TOTAL)
      else (send_and_track S2 chat_id mid, AskGst, GST)
  | None => (send_and_track S1 chat_id mid, InvalidTotal, TOTAL)
  end.

(** [set_gst] *)
Definition set_gst (S : Sessions) (chat_id : Z) (text : string) (mid : Z)
  : Sessions * Reply * ConvState :=
  let '(S1, s) := get_session S chat_id in
  match py_float text with
  | Some v =>
      let S2 := <[chat_id := with_gst v s]> S1 in
      if (v <? 0)%float
      then (send_and_track S2 chat_id mid, InvalidGst, GST)
      else (send_and_track S2 chat_id mid, AskService, SERVICE)
  | None => (send_and_track S1 chat_id mid, InvalidGst, GST)
  end.

(** [set_service] *)
Definition set_service (S : Sessions) (chat_id : Z) (text : string) (mid : Z)
  : Sessions * Reply * ConvState :=
  let '(S1, s) := get_session S chat_id in
  match py_float text with
  | Some v =>
      let S2 := <[chat_id := with_service v s]> S1 in
      if (v <? 0)%float
      then (send_and_track S2 chat_id mid, InvalidService, SERVICE)
      else (send_and_track S2 chat_id mid, AskNumPeople, NUM_PEOPLE)
  | None => (send_and_track S1 chat_id mid, InvalidService, SERVICE)
  end.

(** [set_num_people]: here the value is tested before it is stored. *)
Definition set_num_people (S : Sessions) (chat_id : Z) (text : string) (mid : Z)
  : Sessions * Reply * ConvState :=
  let '(S1, s) := get_session S chat_id in
  match py_int text with
  | Some n =>
      if bool_decide (n ≤ 0)
      then (send_and_track S1 chat_id mid, InvalidNumPeople, NUM_PEOPLE)
      else (send_and_track (<[chat_id := with_num_people n s]> S1) chat_id mid,
            SetupComplete, END)
  | None => (send_and_track S1 chat_id mid, InvalidNumPeople, NUM_PEOPLE)
  end.

(** [/addamount <name> <amount>] *)
Definition addamount (S : Sessions) (chat_id : Z) (args : list string) (mid : Z)
  : Sessions * Reply :=
  match S !! chat_id with
  | None => (S, NoActiveBill)
  | Some s =>
      match args with
      | name :: amount_text :: _ =>
          match py_float amount_text with
          | Some amount =>
              if (amount <? 0)%float
              then (send_and_track S chat_id mid, InvalidAmount)
              else
                let prev := default 0%float (dict_get name (people s)) in
                let d := dict_set name (prev + amount)%float (people s) in
                (send_and_track (<[chat_id := with_people d s]> S) chat_id mid,
                 Added name amount (prev + amount)%float)
          | None => (send_and_track S chat_id mid, InvalidAmount)
          end
      | _ => (send_and_track S chat_id mid, Usage)
      end
  end.

(** [/editamount <name> <amount>] *)
Definition editamount (S : Sessions) (chat_id : Z) (args : list string) (mid : Z)
  : Sessions * Reply :=
  match S !! chat_id with
  | None => (S, NoActiveBill)
  | Some s =>
      match args with
      | name :: amount_text :: _ =>
          match py_float amount_text with
          | Some amount =>
              if (amount <? 0)%float
              then (send_and_track S chat_id mid, InvalidAmount)
              else if negb (dict_mem name (people s))
              then (send_and_track S chat_id mid, NotInList name)
              else
                let d := dict_set name amount (people s) in
                (send_and_track (<[chat_id := with_people d s]> S) chat_id mid,
                 Updated name amount)
          | None => (send_and_track S chat_id mid, InvalidAmount)
          end
      | _ => (send_and_track S chat_id mid, Usage)
      end
  end.

(** [/remove <name>] *)
Definition remove_person (S : Sessions) (chat_id : Z) (args : list string)
    (mid : Z) : Sessions * Reply :=
  match S !! chat_id with
  | None => (S, NoActiveBill)
  | Some s =>
      match args with
      | name :: _ =>
          if dict_mem name (people s)
          then (send_and_track
                  (<[chat_id := with_people (dict_pop name (people s)) s]> S)
                  chat_id mid, Removed name)
          else (send_and_track S chat_id mid, NotFound name)
      | [] => (send_and_track S chat_id mid, Usage)
      end
  end.

(** [/settotal <amount>] *)
Definition settotal (S : Sessions) (chat_id : Z) (args : list string) (mid : Z)
  : Sessions * Reply :=
  match S !! chat_id with
  | None => (S, NoActiveBill)
  | Some s =>
      match args with
      | amount_text :: _ =>
          match py_float amount_text with
          | Some amt =>
              if (amt <? 0)%float
              then (send_and_track S chat_id mid, InvalidAmount)
              else (send_and_track (<[chat_id := with_total amt s]> S) chat_id mid,
                    TotalUpdated amt)
          | None => (send_and_track S chat_id mid, InvalidAmount)
          end
      | [] => (send_and_track S chat_id mid, Usage)
      end
  end.

End Handlers.

(** ** Finalization *)

(** [gst_amt], [svc_amt] and [grand] of [calculate]. *)
Definition gst_amount (s : Session) : float := (total s * (gst s / 100))%float.
Definition svc_amount (s : Session) : float := (total s * (service s / 100))%float.
Definition grand_total (s : Session) : float :=
  (total s + gst_amount s + svc_amount s)%float.

(** One turn of the loop building [raw]: the subtotal plus its part of
    the tax and service amounts. *)
Definition raw_share (s : Session) (sub : float) : option float :=
  tax_part ← (if (0 <? total s)%float
              then q ← Py.truediv sub (total s);
                   Some (q * (gst_amount s + svc_amount s))%float
              else Some 0%float);
  Some (sub + tax_part)%float.

Definition raw_shares (s : Session) : option (list float) :=
  mapM (raw_share s) (people s).*2.

(** The equal-split branch of [calculate], for a session without entries. *)
Definition calculate_equal (S : Sessions) (chat_id : Z) (s : Session) (mid : Z)
  : Sessions * Reply :=
  if bool_decide (num_people s ≤ 0)
  then (send_and_track S chat_id mid, NoPeopleYet)
  else
    match Py.truediv_int (grand_total s) (num_people s) with
    | None => (S, Uncaught)
    | Some per =>
        let S1 := <[chat_id := with_finalized (Some mid) s]> S in
        (delete_setup_messages S1 chat_id [mid],
         EqualBreakdown (total s) (gst_amount s) (svc_amount s)
                        (grand_total s) per (num_people s))
    end.

(** The branch of [calculate] for a session with custom amounts. *)
Definition calculate_custom (S : Sessions) (chat_id : Z) (s : Session) (mid : Z)
  : Sessions * Reply :=
  let people_items := people s in
  let sum_custom := Py.sum_float people_items.*2 in
  if negb (close_enough sum_custom (total s))
  then
    let diff := (total s - sum_custom)%float in
    (send_and_track S chat_id mid,
     Mismatch (total s) sum_custom diff (0 <? diff)%float)
  else
    match raw ← raw_shares s; allocate_cents raw (grand_total s) with
    | None => (S, Uncaught)
    | Some final_shares =>
        let S1 := <[chat_id := with_finalized (Some mid) s]> S in
        (delete_setup_messages S1 chat_id [mid],
         CustomBreakdown (total s) (gst_amount s) (svc_amount s) (grand_total s)
                         (zip people_items.*1 final_shares))
    end.

(** [/calculate] *)
Definition calculate (S : Sessions) (chat_id : Z) (mid : Z) : Sessions * Reply :=
  match S !! chat_id with
  | None => (S, NoActiveBill)
  | Some s =>
      match people s with
      | [] => calculate_equal S chat_id s mid
      | _ :: _ => calculate_custom S chat_id s mid
      end
  end.

(** ** Mismatch resolution *)

(** The loop of the [SCALE_FIX] branch. *)
Definition scale_people (factor : float) (d : list (string * float))
  : list (string * float) :=
  foldl (λ acc '(n, a), dict_set n (a * factor)%float acc) d d.

(** [mismatch_fix_cb], by the button pressed. *)
Definition mismatch_fix_cb (S : Sessions) (chat_id : Z) (data : FixChoice)
  : Sessions * Reply :=
  let '(S1, s) := get_session S chat_id in
  let people_items := people s in
  let sum_custom := Py.sum_float people_items.*2 in
  let total_before := total s in
  match data with
  | SCALE_FIX =>
      if (sum_custom <=? 0)%float then (S1, CannotScale)
      else
        match Py.truediv total_before sum_custom with
        | None => (S1, Uncaught)
        | Some factor =>
            (<[chat_id := with_people (scale_people factor people_items) s]> S1,
             Scaled)
        end
  | EDIT_FIX => (S1, EditHint)
  | TOTAL_TO_SUM =>
      (<[chat_id := with_total sum_custom s]> S1, TotalSetToSum sum_custom)
  end.

(** [checkBalance] of the reconciliation step, as [calculate] performs it. *)
Inductive Balance := Balanced | Mismatched (difference : float).

Definition check_balance (entries : list (string * float)) (declared : float)
  : Balance :=
  let sum_custom := Py.sum_float entries.*2 in
  if close_enough sum_custom declared then Balanced
  else Mismatched (declared - sum_custom)%float.

(** A concrete reading of a few literals, standing for [float] and [int]
    on the texts used in the examples. *)
Definition float_lit (t : string) : option float :=
  if String.eqb t "10" then Some 10%float
  else if String.eqb t "5" then Some 5%float
  else if String.eqb t "-5" then Some (-5)%float
  else if String.eqb t "100" then Some 100%float
  else None.

Definition int_lit (t : string) : option Z :=
  if String.eqb t "4" then Some 4
  else if String.eqb t "0" then Some 0
  else if String.eqb t "-2" then Some (-2)
  else None.

(** ** Notions used in the statements *)

(** What the tests [amount < 0] of the handlers let through. *)
Definition not_negative (x : float) : Prop := (x <? 0)%float = false.

(** The bill of a session: everything but the message bookkeeping. *)
Definition bill_data (s : Session)
  : string * float * float * float * Z * list (string * float) :=
  (currency s, total s, gst s, service s, num_people s, people s).

(** Entries as a dict of amounts that passed the tests: distinct names,
    no negative subtotal. *)
Definition entries_ok (d : list (string * float)) : Prop :=
  NoDup d.*1 ∧ Forall not_negative d.*2.

(** A session whose bill passed the tests of the commands. *)
Definition session_ok (s : Session) : Prop :=
  entries_ok (people s) ∧ not_negative (total s) ∧ 0 ≤ num_people s.

(** [c / 100.0] read back with [round(x * 100)], for a [c] that fits a
    machine integer. *)
Definition reads_back (c : Z) : bool :=
  match to_cents (of_uint63 (Uint63.of_Z c) / 100)%float with
  | Some c' => Z.eqb c' c
  | None => false
  end.

(** The sign test on the representation of a double. *)
Definition SF_not_negative (f : spec_float) : bool :=
  match f with
  | S754_infinity true | S754_finite true _ _ => false
  | _ => true
  end.

(** [reads_back] on the [n] integers from [c] on. *)
Fixpoint reads_back_from (n : nat) (c : Z) : bool :=
  match n with
  | O => true
  | S k => reads_back c && reads_back_from k (c + 1)
  end.


(** ** Doubles as real numbers *)

(** Powers of two. *)
Definition bpow (e : Z) : R := powerRZ 2 e.

(** The real number a representation stands for (0 for the infinities and
    NaN). *)
Definition SF2R (f : spec_float) : R :=
  match f with
  | S754_finite s m e => ((if s then -1 else 1) * IZR (Z.pos m) * bpow e)%R
  | _ => 0%R
  end.

Definition SF_finite (f : spec_float) : bool :=
  match f with
  | S754_zero _ | S754_finite _ _ _ => true
  | _ => false
  end.

(** Finite and not negative: a zero of either sign or a positive finite
    double. *)
Definition SF_finite_nonneg (f : spec_float) : bool :=
  match f with
  | S754_zero _ | S754_finite false _ _ => true
  | _ => false
  end.

(** The real number a double stands for. *)
Definition value (x : float) : R := SF2R (Prim2SF x).

(** A finite double that is not negative. *)
Definition plain (x : float) : Prop := SF_finite_nonneg (Prim2SF x) = true.

(** The exact sum of the values of a list of doubles. *)
Definition Rsum (l : list float) : R := foldr (λ x r, (value x + r)%R) 0%R l.

(** An amount between 0 and 1e9, as the comparisons of the code see it. *)
Definition amount_in_range (a : float) : Prop :=
  (0 <=? a)%float = true ∧ (a <=? 1e9)%float = true.

(** The bills for which [SCALE_FIX] is shown to meet the tolerance: at
    most 1000 entries, every subtotal and the total between 0 and 1e9,
    and entries that add up to 0.01 or more. *)
Definition within_scale_bounds (s : Session) : Prop :=
  (length (people s) ≤ 1000)%nat ∧
  Forall amount_in_range (people s).*2 ∧
  (0.01 <=? Py.sum_float (people s).*2)%float = true ∧
  amount_in_range (total s).


(** * Properties *)

(** ** Integer sums and the remainder loop *)

Lemma sum_int_from (l : list Z) (a : Z) : foldl Z.add a l = a + Py.sum_int l.
Proof.
  unfold Py.sum_int. revert a.
  induction l as [|x l IH]; intros a; simpl; [lia|].
  rewrite (IH (a + x)), (IH (0 + x)). lia.
Qed.

Lemma sum_int_cons (x : Z) (l : list Z) : Py.sum_int (x :: l) = x + Py.sum_int l.
Proof. unfold Py.sum_int at 1. simpl. apply sum_int_from. Qed.

Lemma sum_int_alter (l : list Z) (i : nat) :
  (i < length l)%nat →
  Py.sum_int (alter (λ c, c + 1) i l) = Py.sum_int l + 1.
Proof.
  revert i. induction l as [|x l IH]; intros [|i] Hi; simpl in Hi; try lia.
  - change (alter (λ c, c + 1) 0%nat (x :: l)) with ((x + 1) :: l).
    rewrite !sum_int_cons. lia.
  - change (alter (λ c, c + 1) (S i) (x :: l))
      with (x :: alter (λ c, c + 1) i l).
    rewrite !sum_int_cons, IH by lia. lia.
Qed.

Lemma add_remainder_length (fuel : nat) (cents : list Z) (diff : Z) (idx : nat) :
  length (add_remainder fuel cents diff idx) = length cents.
Proof.
  revert cents diff idx.
  induction fuel as [|fuel IH]; intros cents diff idx; simpl; [done|].
  destruct (_ && _); [|done]. by rewrite IH, length_alter.
Qed.

(** More turns than [len(cents) - idx] change nothing: the loop has
    stopped by then. *)
Lemma add_remainder_lookup (fuel : nat) (cents : list Z) (diff : Z) (idx i : nat) :
  (length cents - idx ≤ fuel)%nat →
  add_remainder fuel cents diff idx !! i =
    (λ c, if bool_decide (idx ≤ i)%nat && bool_decide (Z.of_nat i < Z.of_nat idx + diff)
          then c + 1 else c) <$> cents !! i.
Proof.
  revert cents diff idx.
  induction fuel as [|fuel IH]; intros cents diff idx Hfuel; simpl.
  - destruct (cents !! i) as [c|] eqn:Hc; simpl; [|done].
    apply lookup_lt_Some in Hc.
    rewrite (bool_decide_eq_false_2 (idx ≤ i)%nat) by lia. done.
  - destruct (bool_decide (0 < diff)) eqn:Hd; simpl.
    + destruct (bool_decide (idx < length cents)%nat) eqn:Hl; simpl.
      * apply bool_decide_eq_true_1 in Hd, Hl.
        rewrite IH by (rewrite length_alter; lia).
        destruct (decide (i = idx)) as [->|Hne].
        -- rewrite list_lookup_alter_eq.
           destruct (cents !! idx) as [c|]; simpl; [|done].
           rewrite (bool_decide_eq_false_2 (S idx ≤ idx)%nat) by lia.
           rewrite (bool_decide_eq_true_2 (idx ≤ idx)%nat) by lia.
           rewrite (bool_decide_eq_true_2 (Z.of_nat idx < Z.of_nat idx + diff)) by lia.
           done.
        -- rewrite list_lookup_alter_ne by done.
           destruct (cents !! i) as [c|]; simpl; [|done].
           f_equal. repeat case_bool_decide; simpl; lia.
      * apply bool_decide_eq_false_1 in Hl.
        destruct (cents !! i) as [c|] eqn:Hc; simpl; [|done].
        apply lookup_lt_Some in Hc.
        rewrite (bool_decide_eq_false_2 (idx ≤ i)%nat) by lia. done.
    + apply bool_decide_eq_false_1 in Hd.
      destruct (cents !! i) as [c|] eqn:Hc; simpl; [|done].
      destruct (bool_decide (idx ≤ i)%nat) eqn:Hi; simpl; [|done].
      apply bool_decide_eq_true_1 in Hi.
      rewrite bool_decide_eq_false_2 by lia. done.
Qed.

Lemma add_remainder_sum (fuel : nat) (cents : list Z) (diff : Z) (idx : nat) :
  (length cents - idx ≤ fuel)%nat →
  Py.sum_int (add_remainder fuel cents diff idx) =
    Py.sum_int cents + Z.min (Z.max diff 0) (Z.of_nat (length cents - idx)).
Proof.
  revert cents diff idx.
  induction fuel as [|fuel IH]; intros cents diff idx Hfuel; simpl.
  - replace (length cents - idx)%nat with 0%nat by lia. lia.
  - destruct (bool_decide (0 < diff)) eqn:Hd; simpl.
    + destruct (bool_decide (idx < length cents)%nat) eqn:Hl; simpl.
      * apply bool_decide_eq_true_1 in Hd, Hl.
        rewrite IH by (rewrite length_alter; lia).
        rewrite sum_int_alter, length_alter by done. lia.
      * apply bool_decide_eq_false_1 in Hl.
        replace (length cents - idx)%nat with 0%nat by lia. lia.
    + apply bool_decide_eq_false_1 in Hd. lia.
Qed.

(** ** Bounds on finite doubles *)

Lemma digits2_pos_bound (m : positive) : Z.pos m < 2 ^ Z.pos (digits2_pos m).
Proof.
  induction m as [m IH|m IH|]; simpl digits2_pos.
  - rewrite Pos2Z.inj_succ, Z.pow_succ_r by lia. lia.
  - rewrite Pos2Z.inj_succ, Z.pow_succ_r by lia. lia.
  - reflexivity.
Qed.

Lemma valid_finite_bound (s : bool) (m : positive) (e : Z) :
  SpecFloat.valid_binary prec emax (S754_finite s m e) = true →
  Z.pos m < 2 ^ 53 ∧ e ≤ 971.
Proof.
  unfold SpecFloat.valid_binary, bounded, canonical_mantissa, fexp, emin, prec, emax.
  intros [Hc He]%andb_true_iff.
  apply Z.eqb_eq in Hc. apply Z.leb_le in He.
  split; [|lia].
  pose proof (digits2_pos_bound m) as Hm.
  assert (Z.pos (digits2_pos m) ≤ 53) as Hd by lia.
  pose proof (Z.pow_le_mono_r 2 _ 53 ltac:(lia) Hd). lia.
Qed.

Lemma floor_finite_bound (s : bool) (m : positive) (e : Z) :
  Z.pos m < 2 ^ 53 → e ≤ 971 →
  Z.abs (Py.floor_finite s m e) ≤ 2 ^ 1024 - 2 ^ 971.
Proof.
  intros Hm He. unfold Py.floor_finite.
  assert (2 ^ 1024 - 2 ^ 971 = (2 ^ 53 - 1) * 2 ^ 971) as -> by reflexivity.
  assert (0 < 2 ^ 971) as H971 by reflexivity.
  destruct (Z.leb_spec 0 e) as [Hpos|Hneg].
  - pose proof (Z.pow_le_mono_r 2 e 971 ltac:(lia) He) as Hp.
    assert (0 < 2 ^ e) by (apply Z.pow_pos_nonneg; lia).
    destruct s; nia.
  - assert (0 < 2 ^ (- e)) as Hd by (apply Z.pow_pos_nonneg; lia).
    set (d := 2 ^ (- e)) in *.
    assert (∀ n, Z.abs n < 2 ^ 53 → Z.abs (n / d) ≤ 2 ^ 53) as Hdiv.
    { intros n Hn.
      pose proof (Z.div_mod n d ltac:(lia)).
      pose proof (Z.mod_pos_bound n d Hd). nia. }
    assert (2 ^ 53 ≤ (2 ^ 53 - 1) * 2 ^ 971) by (apply Z.leb_le; reflexivity).
    destruct s; (etrans; [apply Hdiv|]); lia.
Qed.

Lemma floor_bound (x : float) (c : Z) :
  Py.floor x = Some c → Z.abs c ≤ 2 ^ 1024 - 2 ^ 971.
Proof.
  unfold Py.floor. pose proof (Prim2SF_valid x) as Hv.
  destruct (Prim2SF x) as [s|s| |s m e]; intros [= <-]; [done|].
  apply valid_finite_bound in Hv as [Hm He].
  by apply floor_finite_bound.
Qed.

Lemma float_of_int_Some (n : Z) :
  Z.abs n ≤ 2 ^ 1024 - 2 ^ 971 + 1 →
  Py.float_of_int n = Some (SF2Prim (binary_normalize prec emax n 0 false)).
Proof.
  intros Hn. unfold Py.float_of_int.
  rewrite bool_decide_eq_true_2; [done|].
  assert (2 ^ 1024 - 2 ^ 971 + 1 < 2 ^ 1024 - 2 ^ 970) by reflexivity. lia.
Qed.

(** ** The cent allocator *)

Lemma floored_cents_length (shares : list float) (floors : list Z) :
  floored_cents shares = Some floors → length floors = length shares.
Proof. intros H. symmetry. by eapply length_mapM. Qed.

Lemma floored_cents_bound (shares : list float) (floors : list Z) (i : nat) (c : Z) :
  floored_cents shares = Some floors → floors !! i = Some c →
  Z.abs c ≤ 2 ^ 1024 - 2 ^ 971.
Proof.
  intros Hf Hc. apply mapM_Some in Hf.
  destruct (Forall2_lookup_r _ _ _ _ _ Hf Hc) as (x & _ & Hx).
  by eapply floor_bound.
Qed.

(** The cents after the loop: every floored share, plus one cent for the
    entries whose index is below the remainder. *)
Lemma allocate_cents_int_lookup (shares : list float) (grand : float)
    (floors : list Z) (target : Z) :
  floored_cents shares = Some floors →
  Py.round (grand * 100)%float = Some target →
  ∃ cents, allocate_cents_int shares grand = Some cents ∧
    length cents = length shares ∧
    ∀ i, cents !! i =
         (λ c, c + (if bool_decide (Z.of_nat i < target - Py.sum_int floors)
                    then 1 else 0)) <$> floors !! i.
Proof.
  intros Hf Hr. unfold allocate_cents_int. rewrite Hf, Hr. simpl.
  eexists; split; [done|]. split.
  - rewrite add_remainder_length. by apply floored_cents_length.
  - intros i. rewrite add_remainder_lookup by lia.
    destruct (floors !! i) as [c|]; simpl; [|done].
    f_equal. repeat case_bool_decide; lia.
Qed.

(** When the remainder is between zero and the number of entries, the
    cents add up to the rounded grand total. *)
Lemma allocate_cents_int_exact (shares : list float) (grand : float)
    (floors cents : list Z) (target : Z) :
  floored_cents shares = Some floors →
  Py.round (grand * 100)%float = Some target →
  0 ≤ target - Py.sum_int floors ≤ Z.of_nat (length shares) →
  allocate_cents_int shares grand = Some cents →
  Py.sum_int cents = target.
Proof.
  intros Hf Hr Hd. unfold allocate_cents_int. rewrite Hf, Hr. simpl.
  intros [= <-]. rewrite add_remainder_sum by lia.
  rewrite (floored_cents_length _ _ Hf). lia.
Qed.

(** C1.  Allocation exactness does not hold on the code.  A bill of 100
    with 9% GST and 10% service and the entries Alice 50 and Bob 50.009
    passes the balance test; [calculate] hands the raw shares
    [59.5; 59.51071] and the grand total 119 to [allocate_cents], the
    floored cents are already 5950 + 5951 = 11901, the remainder is -1,
    the loop does nothing, and the amounts returned add up to 11901 cents
    although [round(grand_total * 100)] is 11900. *)
Theorem allocate_cents_sum_not_exact :
  let s := mkSession "SGD" 100 9 10 2
             [("Alice", 50%float); ("Bob", 50.009%float)] [] None in
  check_balance (people s) (total s) = Balanced ∧
  raw_shares s = Some [59.5; 59.51071]%float ∧
  grand_total s = 119%float ∧
  ∃ out cents target,
    allocate_cents [59.5; 59.51071]%float 119%float = Some out ∧
    mapM to_cents out = Some cents ∧
    Py.round (119 * 100)%float = Some target ∧
    Py.sum_int cents = 11901 ∧ target = 11900.
Proof.
  repeat split; try (vm_compute; reflexivity).
  exists [59.5; 59.51]%float, [5950; 5951], 11900.
  repeat split; vm_compute; reflexivity.
Qed.

(** The same defect in the other direction: a remainder larger than the
    number of entries is only partly handed out. *)
Lemma allocate_cents_sum_short :
  allocate_cents [0.5]%float 1%float = Some [0.51]%float ∧
  mapM to_cents [0.51]%float = Some [51] ∧
  Py.round (1 * 100)%float = Some 100.
Proof. repeat split; vm_compute; reflexivity. Qed.

(** For finite shares and a finite grand total the allocator returns:
    no floored share is too large for the conversion back to [float]. *)
Lemma allocate_cents_defined (shares : list float) (grand : float)
    (floors : list Z) (target : Z) :
  floored_cents shares = Some floors →
  Py.round (grand * 100)%float = Some target →
  ∃ cents out,
    allocate_cents_int shares grand = Some cents ∧
    (∀ i, cents !! i =
          (λ c, c + (if bool_decide (Z.of_nat i < target - Py.sum_int floors)
                     then 1 else 0)) <$> floors !! i) ∧
    Forall2 (λ c y, Py.int_truediv c 100%float = Some y) cents out ∧
    allocate_cents shares grand = Some out ∧
    length out = length shares.
Proof.
  intros Hf Hr.
  destruct (allocate_cents_int_lookup _ _ _ _ Hf Hr) as (cents & Hc & Hlen & Hlk).
  assert (Forall (is_Some ∘ (λ c, Py.int_truediv c 100%float)) cents) as Hall.
  { apply Forall_lookup. intros i c' Hi. rewrite Hlk in Hi.
    destruct (floors !! i) as [c|] eqn:Hfi; simpl in Hi; [|done].
    injection Hi as <-.
    pose proof (floored_cents_bound _ _ _ _ Hf Hfi) as Hb.
    simpl. unfold Py.int_truediv.
    rewrite float_of_int_Some by (case_bool_decide; lia). by eexists. }
  apply mapM_is_Some in Hall as [out Hout].
  pose proof (mapM_Some_1 _ _ _ Hout) as HF2.
  exists cents, out. repeat split; try done.
  - unfold allocate_cents. by rewrite Hc.
  - rewrite <- Hlen. symmetry. by eapply Forall2_length.
Qed.

(** C2.  Whenever the shares and the grand total are finite numbers (the
    floors and the rounding exist), [allocate_cents] returns a list of
    the length of its input; the entry at index [i] is the floored cents
    of share [i], plus one cent exactly when [i] is below the remainder
    [round(grand_total*100) - sum(floored cents)], divided by 100; and
    the same inputs give the same output. *)
Theorem allocate_cents_floor_plus_remainder (shares : list float) (grand : float)
    (floors : list Z) (target : Z) :
  floored_cents shares = Some floors →
  Py.round (grand * 100)%float = Some target →
  ∃ out, allocate_cents shares grand = Some out ∧
    length out = length shares ∧
    (∀ i x, shares !! i = Some x →
       ∃ c extra, Py.floor (x * 100)%float = Some c ∧
         extra = (if bool_decide (Z.of_nat i < target - Py.sum_int floors)
                  then 1 else 0) ∧
         Py.int_truediv (c + extra) 100%float = out !! i ∧
         is_Some (out !! i)) ∧
    (∀ shares' grand', shares' = shares → grand' = grand →
       allocate_cents shares' grand' = Some out).
Proof.
  intros Hf Hr.
  destruct (allocate_cents_defined _ _ _ _ Hf Hr)
    as (cents & out & Hc & Hlk & HF2 & Hout & Hlo).
  exists out. split; [done|]. split; [done|]. split.
  - intros i x Hx.
    pose proof (mapM_Some_1 _ _ _ Hf) as HFf.
    destruct (Forall2_lookup_l _ _ _ _ _ HFf Hx) as (c & Hfi & Hfl).
    exists c, (if bool_decide (Z.of_nat i < target - Py.sum_int floors)
               then 1 else 0).
    split; [done|]. split; [done|].
    assert (cents !! i = Some (c + (if bool_decide (Z.of_nat i < target - Py.sum_int floors)
                                    then 1 else 0))) as Hci
      by (rewrite Hlk, Hfi; done).
    destruct (Forall2_lookup_l _ _ _ _ _ HF2 Hci) as (y & Hy & Hdiv).
    rewrite Hy, Hdiv. split; [done|by eexists].
  - by intros ? ? -> ->.
Qed.

Lemma allocate_cents_floor_plus_remainder_witness :
  ∃ out, allocate_cents [0.335; 0.335; 0.335]%float 1.01%float = Some out ∧
    length out = length [0.335; 0.335; 0.335]%float ∧
    (∀ i x, [0.335; 0.335; 0.335]%float !! i = Some x →
       ∃ c extra, Py.floor (x * 100)%float = Some c ∧
         extra = (if bool_decide (Z.of_nat i < 101 - Py.sum_int [33; 33; 33])
                  then 1 else 0) ∧
         Py.int_truediv (c + extra) 100%float = out !! i ∧
         is_Some (out !! i)) ∧
    (∀ shares' grand', shares' = [0.335; 0.335; 0.335]%float →
       grand' = 1.01%float → allocate_cents shares' grand' = Some out).
Proof.
  apply (allocate_cents_floor_plus_remainder
           [0.335; 0.335; 0.335]%float 1.01%float [33; 33; 33] 101);
    vm_compute; reflexivity.
Defined.

(** An allocator that raises: a share that is not a finite number has no
    floor, and nothing is returned. *)
Lemma allocate_cents_raises (shares : list float) (grand : float) :
  floored_cents shares = None → allocate_cents shares grand = None.
Proof.
  intros H. unfold allocate_cents, allocate_cents_int. by rewrite H.
Qed.

(** ** Facts on binary64 arithmetic *)

Lemma Prim2SF_zero : Prim2SF 0%float = S754_zero false.
Proof. reflexivity. Qed.

Lemma float_pos_nonzero (y : float) :
  (0 <? y)%float = true → (y =? 0)%float = false.
Proof.
  rewrite ltb_spec, eqb_spec, Prim2SF_zero.
  by destruct (Prim2SF y) as [[]|[]| |[] ? ?].
Qed.

Lemma float_not_le_zero_nonzero (y : float) :
  (y <=? 0)%float = false → (y =? 0)%float = false.
Proof.
  rewrite leb_spec, eqb_spec, Prim2SF_zero.
  by destruct (Prim2SF y) as [[]|[]| |[] ? ?].
Qed.

Lemma truediv_pos (x y : float) :
  (0 <? y)%float = true → Py.truediv x y = Some (x / y)%float.
Proof. intros H. unfold Py.truediv. by rewrite float_pos_nonzero. Qed.

Lemma truediv_not_le_zero (x y : float) :
  (y <=? 0)%float = false → Py.truediv x y = Some (x / y)%float.
Proof. intros H. unfold Py.truediv. by rewrite float_not_le_zero_nonzero. Qed.

(** The sign given to [binary_round] only ends up in the sign of the
    result. *)
Lemma SFabs_binary_round (s : bool) (m : positive) (e : Z) :
  SFabs (binary_round prec emax s m e) = SFabs (binary_round prec emax false m e).
Proof.
  unfold binary_round, binary_round_aux.
  destruct (shl_align _ _ _) as [mz ez].
  destruct (shr_fexp _ _ _ _ _) as [mrs e'].
  destruct (shr_fexp _ _ _ _ _) as [mrs' e''].
  destruct (shr_m mrs'); simpl; try done.
  by destruct (_ <=? _)%Z.
Qed.

Lemma SFabs_binary_normalize_opp (z e : Z) :
  SFabs (binary_normalize prec emax (- z) e false) =
  SFabs (binary_normalize prec emax z e false).
Proof.
  destruct z; simpl; [done| |]; by rewrite (SFabs_binary_round true).
Qed.

Lemma SFabs_sub_comm (a b : spec_float) :
  SFabs (SF64sub a b) = SFabs (SF64sub b a).
Proof.
  unfold SF64sub.
  destruct a as [sa|sa| |sa ma ea], b as [sb|sb| |sb mb eb];
    try done; try (by destruct sa); try (by destruct sb);
    try (by destruct sa, sb).
  unfold SFsub. rewrite (Z.min_comm eb ea).
  etrans; [|apply SFabs_binary_normalize_opp].
  f_equal. f_equal. lia.
Qed.

(** [abs(a - b)] and [abs(b - a)] are the same double. *)
Lemma abs_sub_comm (a b : float) :
  PrimFloat.abs (a - b) = PrimFloat.abs (b - a).
Proof.
  apply Prim2SF_inj. rewrite !abs_spec, !sub_spec. apply SFabs_sub_comm.
Qed.

Lemma close_enough_comm (a b : float) : close_enough a b = close_enough b a.
Proof. unfold close_enough. by rewrite abs_sub_comm. Qed.

(** A finite double is within the tolerance of itself. *)
Lemma close_enough_refl (x : float) :
  Py.isfinite x = true → close_enough x x = true.
Proof.
  unfold Py.isfinite, close_enough. intros Hx.
  rewrite leb_spec, abs_spec, sub_spec. unfold SF64sub.
  destruct (Prim2SF x) as [[]| | |s m e]; try done.
  unfold SFsub. rewrite Z.sub_diag. reflexivity.
Qed.

(** Adding the literal [0.0] returns the other operand, the negative zero
    apart (it becomes the positive zero). *)
Lemma float_add_zero_r (x : float) :
  Prim2SF x ≠ S754_zero true → (x + 0)%float = x.
Proof.
  intros Hx. apply Prim2SF_inj. rewrite add_spec, Prim2SF_zero.
  unfold SF64add. by destruct (Prim2SF x) as [[]|[]| |[] ? ?].
Qed.

Lemma float_add_zero_l (x : float) :
  Prim2SF x ≠ S754_zero true → (0 + x)%float = x.
Proof.
  intros Hx. apply Prim2SF_inj. rewrite add_spec, Prim2SF_zero.
  unfold SF64add. by destruct (Prim2SF x) as [[]|[]| |[] ? ?].
Qed.

(** ** Conversion of a non-zero integer

    Rounding a non-zero integer to a double never gives a zero: at
    exponents from [emin] on, the shifts of [binary_round_aux] keep at
    least the leading bit of the mantissa. *)

Lemma shr_1_m (mrs : shr_record) :
  0 ≤ shr_m mrs → shr_m (shr_1 mrs) = shr_m mrs / 2.
Proof.
  destruct mrs as [m r s]. simpl. intros Hm.
  destruct m as [|[p|p|]|p]; simpl; try done; try lia.
  - rewrite Pos2Z.inj_xI. apply (Z.div_unique _ _ _ 1); lia.
  - rewrite Pos2Z.inj_xO. apply (Z.div_unique _ _ _ 0); lia.
Qed.

Lemma shr_1_nonneg (mrs : shr_record) : 0 ≤ shr_m mrs → 0 ≤ shr_m (shr_1 mrs).
Proof.
  intros H. rewrite shr_1_m by done. by apply Z.div_pos.
Qed.

Lemma iter_pos_shr_m (n : positive) (mrs : shr_record) :
  0 ≤ shr_m mrs →
  shr_m (iter_pos shr_1 n mrs) = shr_m mrs / 2 ^ Z.pos n.
Proof.
  revert mrs. induction n as [n IH|n IH|]; intros mrs Hm; simpl iter_pos.
  - pose proof (shr_1_nonneg _ Hm) as H1.
    assert (0 < 2 ^ Z.pos n) as Hp by (by apply Z.pow_pos_nonneg).
    assert (0 ≤ shr_m (iter_pos shr_1 n (shr_1 mrs))) as H2
      by (rewrite IH by done; by apply Z.div_pos).
    rewrite IH, IH, shr_1_m by done.
    rewrite !Z.div_div by lia.
    f_equal.
    assert (Z.pos n~1 = 1 + Z.pos n + Z.pos n) as -> by lia.
    rewrite !Z.pow_add_r by lia. rewrite Z.pow_1_r. lia.
  - assert (0 < 2 ^ Z.pos n) as Hp by (by apply Z.pow_pos_nonneg).
    assert (0 ≤ shr_m (iter_pos shr_1 n mrs)) as H2
      by (rewrite IH by done; by apply Z.div_pos).
    rewrite IH, IH by done.
    rewrite Z.div_div by lia.
    f_equal.
    assert (Z.pos n~0 = Z.pos n + Z.pos n) as -> by lia.
    rewrite Z.pow_add_r by lia. done.
  - rewrite shr_1_m by done. done.
Qed.

Lemma digits2_pos_lower (p : positive) :
  2 ^ (Z.pos (digits2_pos p) - 1) ≤ Z.pos p.
Proof.
  induction p as [p IH|p IH|]; simpl digits2_pos.
  - rewrite Pos2Z.inj_succ.
    replace (Z.succ (Z.pos (digits2_pos p)) - 1)
      with (Z.succ (Z.pos (digits2_pos p) - 1)) by lia.
    rewrite Z.pow_succ_r by lia. lia.
  - rewrite Pos2Z.inj_succ.
    replace (Z.succ (Z.pos (digits2_pos p)) - 1)
      with (Z.succ (Z.pos (digits2_pos p) - 1)) by lia.
    rewrite Z.pow_succ_r by lia. lia.
  - done.
Qed.

Lemma shr_record_of_loc_m (m : Z) (l : location) : shr_m (shr_record_of_loc m l) = m.
Proof. by destruct l as [|[]]. Qed.

Lemma shr_fexp_pos (m e : Z) (l : location) :
  0 < m → -1074 ≤ e →
  0 < shr_m (shr_fexp prec emax m e l).1 ∧ -1074 ≤ (shr_fexp prec emax m e l).2.
Proof.
  intros Hm He. unfold shr_fexp, shr, fexp, emin, prec, emax.
  destruct m as [|p|p]; try lia. simpl Zdigits2.
  destruct (Z.max (Z.pos (digits2_pos p) + e - 53) (3 - 1024 - 53) - e) as [|q|q] eqn:Hn;
    simpl; rewrite ?shr_record_of_loc_m; try (split; lia).
  rewrite iter_pos_shr_m by (rewrite shr_record_of_loc_m; lia).
  rewrite shr_record_of_loc_m. split; [|lia].
  assert (Z.pos q = Z.pos (digits2_pos p) - 53) as Hq by lia.
  pose proof (digits2_pos_lower p) as Hlow.
  apply Z.div_str_pos. split; [by apply Z.pow_pos_nonneg|].
  etrans; [|exact Hlow]. apply Z.pow_le_mono_r; lia.
Qed.

Lemma round_nearest_even_pos (m : Z) (l : location) :
  0 < m → 0 < round_nearest_even m l.
Proof.
  intros Hm. destruct l as [|[]]; simpl; try lia. destruct (Z.even m); lia.
Qed.

Lemma binary_round_aux_nonzero (s s' : bool) (m e : Z) (l : location) :
  0 < m → -1074 ≤ e →
  binary_round_aux prec emax s m e l ≠ S754_zero s'.
Proof.
  intros Hm He. unfold binary_round_aux.
  pose proof (shr_fexp_pos m e l Hm He) as [H1 H1'].
  destruct (shr_fexp prec emax m e l) as [mrs' e']. simpl in H1, H1'.
  pose proof (shr_fexp_pos _ e' loc_Exact
                (round_nearest_even_pos _ (loc_of_shr_record mrs') H1) H1') as [H2 _].
  destruct (shr_fexp prec emax _ e' loc_Exact) as [mrs'' e'']. simpl in H2.
  destruct (shr_m mrs''); try lia. by destruct (_ <=? _).
Qed.

Lemma binary_normalize_nonzero (n : Z) (s : bool) :
  n ≠ 0 → binary_normalize prec emax n 0 false ≠ S754_zero s.
Proof.
  intros Hn. destruct n as [|p|p]; [done| |]; simpl; unfold binary_round.
  all: destruct (shl_align p 0 _) as [mz ez] eqn:Hsh.
  all: apply binary_round_aux_nonzero; [lia|].
  all: unfold shl_align, fexp, emin, prec, emax in Hsh.
  all: destruct (Z.max _ _ - 0) eqn:Hd; injection Hsh as <- <-; lia.
Qed.

Lemma truediv_int_pos (x nf : float) (n : Z) :
  0 < n → Py.float_of_int n = Some nf →
  Py.truediv_int x n = Some (x / nf)%float.
Proof.
  intros Hn Hnf. unfold Py.truediv_int. rewrite Hnf. simpl.
  pose proof (binary_normalize_nonzero n) as Hnz.
  destruct (binary_normalize prec emax n 0 false); try done.
  exfalso. eapply Hnz; [lia|done].
Qed.

Lemma truediv_int_None (x : float) (n : Z) :
  0 < n → Py.truediv_int x n = None → Py.float_of_int n = None.
Proof.
  intros Hn. destruct (Py.float_of_int n) as [nf|] eqn:Hnf; [|done].
  by rewrite (truediv_int_pos x nf n).
Qed.

(** ** The store and the [people] dict *)

Lemma get_session_active (S : Sessions) (chat_id : Z) (s : Session) :
  S !! chat_id = Some s → get_session S chat_id = (S, s).
Proof. intros H. unfold get_session. by rewrite H. Qed.

Lemma send_and_track_active (S : Sessions) (chat_id mid : Z) (s : Session) :
  S !! chat_id = Some s →
  send_and_track S chat_id mid =
    <[chat_id := with_messages (messages s ++ [mid]) s]> S.
Proof. intros H. unfold send_and_track. by rewrite (get_session_active _ _ s). Qed.

Lemma send_and_track_lookup (S : Sessions) (chat_id mid : Z) (s : Session) :
  S !! chat_id = Some s →
  send_and_track S chat_id mid !! chat_id =
    Some (with_messages (messages s ++ [mid]) s).
Proof.
  intros H. rewrite (send_and_track_active _ _ _ s) by done.
  apply lookup_insert_eq.
Qed.

Lemma send_and_track_other (S : Sessions) (chat_id mid other : Z) :
  other ≠ chat_id → send_and_track S chat_id mid !! other = S !! other.
Proof.
  intros Hne. unfold send_and_track, get_session.
  destruct (S !! chat_id); rewrite !lookup_insert_ne; done.
Qed.

Lemma delete_setup_messages_active (S : Sessions) (chat_id : Z) (keep : list Z)
    (s : Session) :
  S !! chat_id = Some s →
  delete_setup_messages S chat_id keep =
    <[chat_id := with_messages (filter (λ m, m ∈ keep) (messages s)) s]> S.
Proof.
  intros H. unfold delete_setup_messages. by rewrite (get_session_active _ _ s).
Qed.

Lemma dict_get_set_eq (name : string) (v : float) (d : list (string * float)) :
  dict_get name (dict_set name v d) = Some v.
Proof.
  induction d as [|[k w] d IH]; simpl.
  - by rewrite String.eqb_refl.
  - destruct (String.eqb k name) eqn:Hk; simpl; by rewrite Hk.
Qed.

Lemma dict_get_set_ne (name other : string) (v : float) (d : list (string * float)) :
  other ≠ name → dict_get other (dict_set name v d) = dict_get other d.
Proof.
  intros Hne. induction d as [|[k w] d IH]; simpl.
  - destruct (String.eqb name other) eqn:Hk; [|done].
    apply String.eqb_eq in Hk. congruence.
  - destruct (String.eqb k name) eqn:Hk; simpl.
    + apply String.eqb_eq in Hk as ->.
      destruct (String.eqb name other) eqn:Hk'; [|done].
      apply String.eqb_eq in Hk'. congruence.
    + by rewrite IH.
Qed.

Lemma dict_get_None (name : string) (d : list (string * float)) :
  dict_get name d = None ↔ name ∉ d.*1.
Proof.
  induction d as [|[k w] d IH]; simpl.
  - split; [intros _; apply not_elem_of_nil|done].
  - rewrite not_elem_of_cons. destruct (String.eqb k name) eqn:Hk.
    + apply String.eqb_eq in Hk as ->. split; [done|]. by intros [? _].
    + apply String.eqb_neq in Hk. rewrite IH. split; [|by intros [_ ?]].
      intros ?; split; [congruence|done].
Qed.

(** A key that is absent is appended: the insertion order is kept. *)
Lemma dict_set_absent (name : string) (v : float) (d : list (string * float)) :
  name ∉ d.*1 → dict_set name v d = d ++ [(name, v)].
Proof.
  induction d as [|[k w] d IH]; simpl; [done|].
  rewrite not_elem_of_cons. intros [Hne Hd].
  destruct (String.eqb k name) eqn:Hk.
  - apply String.eqb_eq in Hk. congruence.
  - by rewrite IH.
Qed.

(** A key that is present keeps its position. *)
Lemma dict_set_present (name : string) (v w : float) (pre rest : list (string * float)) :
  name ∉ pre.*1 →
  dict_set name v (pre ++ (name, w) :: rest) = pre ++ (name, v) :: rest.
Proof.
  induction pre as [|[k u] pre IH]; simpl.
  - by rewrite String.eqb_refl.
  - rewrite not_elem_of_cons. intros [Hne Hd].
    destruct (String.eqb k name) eqn:Hk.
    + apply String.eqb_eq in Hk. congruence.
    + by rewrite IH.
Qed.

Lemma dict_set_keys (name : string) (v : float) (d : list (string * float)) :
  (dict_set name v d).*1 = if dict_mem name d then d.*1 else d.*1 ++ [name].
Proof.
  unfold dict_mem. induction d as [|[k w] d IH]; [done|].
  cbn [dict_set dict_get].
  destruct (String.eqb k name) eqn:Hk; [done|].
  rewrite !fmap_cons, IH. by destruct (dict_get name d).
Qed.

(** The keys of the dict stay distinct under assignment and removal. *)
Lemma dict_set_NoDup (name : string) (v : float) (d : list (string * float)) :
  NoDup d.*1 → NoDup (dict_set name v d).*1.
Proof.
  intros Hd. rewrite dict_set_keys. unfold dict_mem.
  destruct (dict_get name d) eqn:Hg; [done|].
  apply dict_get_None in Hg.
  apply NoDup_app. split; [done|]. split.
  - intros x Hx ->%list_elem_of_singleton. done.
  - apply NoDup_singleton.
Qed.

Lemma dict_pop_keys_subset (name k : string) (d : list (string * float)) :
  k ∈ (dict_pop name d).*1 → k ∈ d.*1.
Proof.
  induction d as [|[k' w] d IH]; simpl; [done|].
  destruct (String.eqb k' name); simpl.
  - apply list_elem_of_further.
  - rewrite !elem_of_cons. intros [->|?]; [by left|right; auto].
Qed.

Lemma dict_pop_NoDup (name : string) (d : list (string * float)) :
  NoDup d.*1 → NoDup (dict_pop name d).*1.
Proof.
  induction d as [|[k w] d IH]; simpl; [done|].
  rewrite NoDup_cons. intros [Hk Hd].
  destruct (String.eqb k name); simpl; [done|].
  apply NoDup_cons. split; [|auto].
  intros Hin. apply Hk. by eapply dict_pop_keys_subset.
Qed.

(** The loop of [SCALE_FIX] multiplies every subtotal in place. *)
Lemma scale_people_from (factor : float) (l pre : list (string * float)) :
  NoDup l.*1 → (∀ k, k ∈ l.*1 → k ∉ pre.*1) →
  foldl (λ acc '(n, a), dict_set n (a * factor)%float acc) (pre ++ l) l =
    pre ++ map (λ '(n, a), (n, (a * factor)%float)) l.
Proof.
  revert pre. induction l as [|[n a] l IH]; intros pre Hnd Hpre; simpl.
  - done.
  - simpl in Hnd. apply NoDup_cons in Hnd as [Hn Hnd].
    rewrite dict_set_present by (apply Hpre; simpl; apply list_elem_of_here).
    rewrite (cons_middle _ pre l), (assoc_L (++)).
    rewrite IH; [by rewrite <- (assoc_L (++))|done|].
    intros k Hk. rewrite fmap_app, elem_of_app.
    intros [Hin|Hin].
    + revert Hin. apply Hpre. by apply list_elem_of_further.
    + apply list_elem_of_singleton in Hin. simpl in Hin. by subst k.
Qed.

Lemma scale_people_map (factor : float) (d : list (string * float)) :
  NoDup d.*1 →
  scale_people factor d = map (λ '(n, a), (n, (a * factor)%float)) d.
Proof.
  intros Hd. unfold scale_people.
  apply (scale_people_from factor d [] Hd). intros k _. apply not_elem_of_nil.
Qed.

(** ** Failing operations *)

Section Failures.

Variable py_float : string → option float.
Variable py_int : string → option Z.

(** No setup handler leaves its state unless the input is valid. *)
Lemma set_total_advances (S : Sessions) (chat_id : Z) (text : string) (mid : Z) :
  (set_total py_float S chat_id text mid).2 = TOTAL ∨
  ((set_total py_float S chat_id text mid).2 = GST ∧
   ∃ v, py_float text = Some v ∧ (v <? 0)%float = false).
Proof.
  unfold set_total. destruct (get_session S chat_id) as [S1 s].
  destruct (py_float text) as [v|]; [|by left].
  destruct (v <? 0)%float eqn:Hv; [by left|right; eauto].
Qed.

Lemma set_gst_advances (S : Sessions) (chat_id : Z) (text : string) (mid : Z) :
  (set_gst py_float S chat_id text mid).2 = GST ∨
  ((set_gst py_float S chat_id text mid).2 = SERVICE ∧
   ∃ v, py_float text = Some v ∧ (v <? 0)%float = false).
Proof.
  unfold set_gst. destruct (get_session S chat_id) as [S1 s].
  destruct (py_float text) as [v|]; [|by left].
  destruct (v <? 0)%float eqn:Hv; [by left|right; eauto].
Qed.

Lemma set_service_advances (S : Sessions) (chat_id : Z) (text : string) (mid : Z) :
  (set_service py_float S chat_id text mid).2 = SERVICE ∨
  ((set_service py_float S chat_id text mid).2 = NUM_PEOPLE ∧
   ∃ v, py_float text = Some v ∧ (v <? 0)%float = false).
Proof.
  unfold set_service. destruct (get_session S chat_id) as [S1 s].
  destruct (py_float text) as [v|]; [|by left].
  destruct (v <? 0)%float eqn:Hv; [by left|right; eauto].
Qed.

Lemma set_num_people_advances (S : Sessions) (chat_id : Z) (text : string) (mid : Z) :
  (set_num_people py_int S chat_id text mid).2 = NUM_PEOPLE ∨
  ((set_num_people py_int S chat_id text mid).2 = END ∧
   ∃ n, py_int text = Some n ∧ 0 < n).
Proof.
  unfold set_num_people. destruct (get_session S chat_id) as [S1 s].
  destruct (py_int text) as [n|]; [|by left].
  case_bool_decide; [by left|right]. split; [done|]. exists n. split; [done|lia].
Qed.

(** A text that is not a number changes nothing but the tracked ids. *)
Lemma set_total_not_numeric (S : Sessions) (chat_id : Z) (s : Session)
    (text : string) (mid : Z) :
  S !! chat_id = Some s → py_float text = None →
  set_total py_float S chat_id text mid =
    (send_and_track S chat_id mid, InvalidTotal, TOTAL).
Proof.
  intros Hs Hp. unfold set_total. by rewrite (get_session_active _ _ s), Hp.
Qed.

(** [set_num_people] tests before it stores: a rejected count changes
    nothing but the tracked ids. *)
Lemma set_num_people_rejected (S : Sessions) (chat_id : Z) (s : Session)
    (text : string) (mid : Z) :
  S !! chat_id = Some s →
  (set_num_people py_int S chat_id text mid).2 = NUM_PEOPLE →
  (set_num_people py_int S chat_id text mid).1.1 = send_and_track S chat_id mid.
Proof.
  intros Hs. unfold set_num_people. rewrite (get_session_active _ _ s) by done.
  destruct (py_int text) as [n|]; [|done]. by case_bool_decide.
Qed.

(** So does [/settotal]. *)
Lemma settotal_rejected (S : Sessions) (chat_id : Z) (args : list string) (mid : Z) :
  (settotal py_float S chat_id args mid).2 = InvalidAmount →
  (settotal py_float S chat_id args mid).1 = send_and_track S chat_id mid.
Proof.
  unfold settotal. destruct (S !! chat_id) as [s|]; [|done].
  destruct args as [|t args]; [done|].
  destruct (py_float t) as [amt|]; [|done]. by destruct (amt <? 0)%float.
Qed.

Lemma addamount_rejected (S : Sessions) (chat_id : Z) (args : list string) (mid : Z) :
  (addamount py_float S chat_id args mid).2 = InvalidAmount →
  (addamount py_float S chat_id args mid).1 = send_and_track S chat_id mid.
Proof.
  unfold addamount. destruct (S !! chat_id) as [s|]; [|done].
  destruct args as [|name [|t args]]; [done..|].
  destruct (py_float t) as [amt|]; [|done]. by destruct (amt <? 0)%float.
Qed.

Lemma editamount_rejected (S : Sessions) (chat_id : Z) (args : list string) (mid : Z) :
  (editamount py_float S chat_id args mid).2 = InvalidAmount →
  (editamount py_float S chat_id args mid).1 = send_and_track S chat_id mid.
Proof.
  unfold editamount. destruct (S !! chat_id) as [s|]; [|done].
  destruct args as [|name [|t args]]; [done..|].
  destruct (py_float t) as [amt|]; [|done].
  destruct (amt <? 0)%float; [done|]. by destruct (negb _).
Qed.

Lemma editamount_unknown (S : Sessions) (chat_id : Z) (args : list string)
    (mid : Z) (name : string) :
  (editamount py_float S chat_id args mid).2 = NotInList name →
  (editamount py_float S chat_id args mid).1 = send_and_track S chat_id mid.
Proof.
  unfold editamount. destruct (S !! chat_id) as [s|]; [|done].
  destruct args as [|n [|t args]]; [done..|].
  destruct (py_float t) as [amt|]; [|done].
  destruct (amt <? 0)%float; [done|]. by destruct (negb _).
Qed.

Lemma remove_person_rejected (S : Sessions) (chat_id : Z) (args : list string)
    (mid : Z) (name : string) :
  (remove_person S chat_id args mid).2 = NotFound name →
  (remove_person S chat_id args mid).1 = send_and_track S chat_id mid.
Proof.
  unfold remove_person. destruct (S !! chat_id) as [s|]; [|done].
  destruct args as [|n args]; [done|]. by destruct (dict_mem _ _).
Qed.

(** Without a session the commands answer and touch nothing. *)
Lemma no_active_session (S : Sessions) (chat_id : Z) (args : list string) (mid : Z) :
  S !! chat_id = None →
  addamount py_float S chat_id args mid = (S, NoActiveBill) ∧
  editamount py_float S chat_id args mid = (S, NoActiveBill) ∧
  remove_person S chat_id args mid = (S, NoActiveBill) ∧
  settotal py_float S chat_id args mid = (S, NoActiveBill) ∧
  calculate S chat_id mid = (S, NoActiveBill).
Proof.
  intros H. unfold addamount, editamount, remove_person, settotal, calculate.
  by rewrite H.
Qed.

(** The three percentage and amount prompts store the parsed number
    before testing its sign: a negative number is rejected, and kept. *)
Lemma set_total_negative (S : Sessions) (chat_id : Z) (s : Session)
    (text : string) (v : float) (mid : Z) :
  S !! chat_id = Some s → py_float text = Some v → (v <? 0)%float = true →
  set_total py_float S chat_id text mid =
    (<[chat_id := with_messages (messages s ++ [mid]) (with_total v s)]> S,
     InvalidTotal, TOTAL).
Proof.
  intros Hs Hp Hv. unfold set_total.
  rewrite (get_session_active _ _ s), Hp, Hv by done.
  rewrite (send_and_track_active _ _ _ (with_total v s)) by apply lookup_insert_eq.
  by rewrite insert_insert_eq.
Qed.

Lemma set_gst_negative (S : Sessions) (chat_id : Z) (s : Session)
    (text : string) (v : float) (mid : Z) :
  S !! chat_id = Some s → py_float text = Some v → (v <? 0)%float = true →
  set_gst py_float S chat_id text mid =
    (<[chat_id := with_messages (messages s ++ [mid]) (with_gst v s)]> S,
     InvalidGst, GST).
Proof.
  intros Hs Hp Hv. unfold set_gst.
  rewrite (get_session_active _ _ s), Hp, Hv by done.
  rewrite (send_and_track_active _ _ _ (with_gst v s)) by apply lookup_insert_eq.
  by rewrite insert_insert_eq.
Qed.

Lemma set_service_negative (S : Sessions) (chat_id : Z) (s : Session)
    (text : string) (v : float) (mid : Z) :
  S !! chat_id = Some s → py_float text = Some v → (v <? 0)%float = true →
  set_service py_float S chat_id text mid =
    (<[chat_id := with_messages (messages s ++ [mid]) (with_service v s)]> S,
     InvalidService, SERVICE).
Proof.
  intros Hs Hp Hv. unfold set_service.
  rewrite (get_session_active _ _ s), Hp, Hv by done.
  rewrite (send_and_track_active _ _ _ (with_service v s)) by apply lookup_insert_eq.
  by rewrite insert_insert_eq.
Qed.

End Failures.

(** C3.  A failing operation does not always leave the session as it was.
    In the state [TOTAL], with a session whose total is 100, the reply
    "-5" is rejected ([InvalidTotal], the state stays [TOTAL]) but the
    session's total is -5 afterwards: [set_total] assigns the parsed value
    before it tests the sign.  [set_gst] does the same with the GST
    percentage, whereas [set_num_people] and [/settotal] test first. *)
Theorem set_total_keeps_rejected_value :
  let s := mkSession "SGD" 100 9 10 2
             [("Alice", 60%float); ("Bob", 40%float)] [] None in
  let S : Sessions := {[ 7 := s ]} in
  (set_total float_lit S 7 "-5" 11).1.2 = InvalidTotal ∧
  (set_total float_lit S 7 "-5" 11).2 = TOTAL ∧
  total <$> S !! 7 = Some 100%float ∧
  total <$> (set_total float_lit S 7 "-5" 11).1.1 !! 7 = Some (-5)%float ∧
  (set_gst float_lit S 7 "-5" 11).2 = GST ∧
  gst <$> (set_gst float_lit S 7 "-5" 11).1.1 !! 7 = Some (-5)%float ∧
  total <$> (settotal float_lit S 7 ["-5"] 11).1 !! 7 = Some 100%float ∧
  num_people <$> (set_num_people int_lit S 7 "-2" 11).1.1 !! 7 = Some 2.
Proof. repeat split; vm_compute; reflexivity. Qed.

(** ** The balance test *)


Lemma check_balance_close_enough (entries : list (string * float)) (declared : float) :
  check_balance entries declared = Balanced ↔
  close_enough (Py.sum_float entries.*2) declared = true.
Proof. unfold check_balance. by destruct (close_enough _ _). Qed.

Lemma calculate_with_entries (S : Sessions) (chat_id mid : Z) (s : Session)
    (p : string * float) (ps : list (string * float)) :
  S !! chat_id = Some s → people s = p :: ps →
  calculate S chat_id mid = calculate_custom S chat_id s mid.
Proof. intros Hs Hp. unfold calculate. by rewrite Hs, Hp. Qed.




(** ** Finalization with custom amounts *)

Lemma raw_share_eq (s : Session) (sub : float) :
  raw_share s sub =
    Some (if (0 <? total s)%float
          then sub + sub / total s * (gst_amount s + svc_amount s)
          else sub + 0)%float.
Proof.
  unfold raw_share. destruct (0 <? total s)%float eqn:Ht; [|done].
  by rewrite truediv_pos.
Qed.

Lemma raw_shares_eq (s : Session) :
  raw_shares s =
    Some (map (λ sub, if (0 <? total s)%float
                      then sub + sub / total s * (gst_amount s + svc_amount s)
                      else sub + 0)%float (people s).*2).
Proof.
  unfold raw_shares. apply mapM_Some_2, Forall2_fmap_r, Forall_Forall2_diag.
  apply Forall_forall. intros sub _. apply raw_share_eq.
Qed.

Lemma finalize_store (S : Sessions) (chat_id mid : Z) (s : Session) :
  delete_setup_messages (<[chat_id := with_finalized (Some mid) s]> S) chat_id [mid]
    !! chat_id =
  Some (with_messages (filter (λ m, m ∈ [mid]) (messages s))
                      (with_finalized (Some mid) s)).
Proof.
  rewrite (delete_setup_messages_active _ _ _ (with_finalized (Some mid) s))
    by apply lookup_insert_eq.
  apply lookup_insert_eq.
Qed.

(** C5.  In a balanced session with entries, [calculate] builds for each
    subtotal [sub], in insertion order, the raw share
    [sub + (sub/total)*(gst_amt+svc_amt)] when [total > 0] and [sub + 0.0]
    otherwise (which is [sub], the negative zero apart), gives the raw
    shares and [grand = total + gst_amt + svc_amt] to [allocate_cents],
    and, the raw shares and the grand total being finite, answers with the
    allocator's amounts paired with the names in insertion order; the
    entries of the session stay as they were. *)
Theorem calculate_itemized (S : Sessions) (chat_id mid : Z) (s : Session)
    (p : string * float) (ps : list (string * float))
    (floors : list Z) (target : Z) :
  S !! chat_id = Some s → people s = p :: ps →
  check_balance (people s) (total s) = Balanced →
  let gst_amt := (total s * (gst s / 100))%float in
  let svc_amt := (total s * (service s / 100))%float in
  let grand := (total s + gst_amt + svc_amt)%float in
  let raw := map (λ sub, if (0 <? total s)%float
                         then sub + sub / total s * (gst_amt + svc_amt)
                         else sub + 0)%float (people s).*2 in
  floored_cents raw = Some floors →
  Py.round (grand * 100)%float = Some target →
  raw_shares s = Some raw ∧
  (∀ sub, Prim2SF sub ≠ S754_zero true → (sub + 0)%float = sub) ∧
  ∃ final S',
    allocate_cents raw grand = Some final ∧
    length final = length (people s) ∧
    calculate S chat_id mid =
      (S', CustomBreakdown (total s) gst_amt svc_amt grand
             (zip (people s).*1 final)) ∧
    (zip (people s).*1 final).*1 = (people s).*1 ∧
    (zip (people s).*1 final).*2 = final ∧
    people <$> S' !! chat_id = Some (people s) ∧
    finalized_msg_id <$> S' !! chat_id = Some (Some mid).
Proof.
  intros Hs Hp Hbal gst_amt svc_amt grand raw Hf Hr.
  split; [apply raw_shares_eq|]. split; [apply float_add_zero_r|].
  destruct (allocate_cents_defined _ _ _ _ Hf Hr)
    as (cents & final & _ & _ & _ & Hal & Hlen).
  assert (length final = length (people s)) as Hlen'.
  { rewrite Hlen. unfold raw. by rewrite length_map, length_fmap. }
  eexists final, _. split; [done|]. split; [done|]. split; [|split; [|split]].
  - assert ((raw ← raw_shares s; allocate_cents raw (grand_total s)) = Some final)
      as Hal' by (rewrite raw_shares_eq; exact Hal).
    rewrite (calculate_with_entries _ _ _ s p ps) by done.
    unfold calculate_custom.
    apply check_balance_close_enough in Hbal. rewrite Hbal, Hal'. reflexivity.
  - apply fst_zip. rewrite length_fmap. lia.
  - apply snd_zip. rewrite length_fmap. lia.
  - rewrite finalize_store. done.
Qed.

Lemma calculate_itemized_witness :
  let s := mkSession "SGD" 100 9 10 2
             [("Alice", 60%float); ("Bob", 40%float)] [3; 4] None in
  let S : Sessions := {[ 7 := s ]} in
  ∃ final S',
    allocate_cents [71.4; 47.6]%float 119%float = Some final ∧
    (calculate S 7 99).2 =
      CustomBreakdown 100 9 10 119 (zip ["Alice"; "Bob"] final) ∧
    calculate S 7 99 = (S', (calculate S 7 99).2) ∧
    people <$> S' !! 7 = Some (people s).
Proof.
  intros s S.
  destruct (calculate_itemized S 7 99 s ("Alice", 60%float) [("Bob", 40%float)]
              [7140; 4760] 11900 eq_refl eq_refl eq_refl eq_refl eq_refl)
    as (_ & _ & final & S' & H1 & _ & H2 & _ & _ & H3 & _).
  exists final, S'. split; [exact H1|].
  split; [rewrite H2; reflexivity|].
  split; [rewrite H2; reflexivity|exact H3].
Defined.

(** ** Rounding errors

    How far the result of an operation on doubles is from the exact
    result, read off the definitions of [SpecFloat]: a sum, a difference,
    a product or a quotient that stays below [2^1023] is finite and at
    most one unit in the last place away from the exact value. *)

(** *** Signs of rounded results *)

Lemma binary_round_aux_not_negative (m e : Z) (l : location) :
  SF_not_negative (binary_round_aux prec emax false m e l) = true.
Proof.
  unfold binary_round_aux.
  destruct (shr_fexp _ _ _ _ _) as [mrs e'].
  destruct (shr_fexp _ _ _ _ _) as [mrs' e''].
  destruct (shr_m mrs'); try done. by destruct (_ <=? _)%Z.
Qed.

Lemma binary_round_not_negative (m : positive) (e : Z) :
  SF_not_negative (binary_round prec emax false m e) = true.
Proof.
  unfold binary_round. destruct (shl_align _ _ _) as [mz ez].
  apply binary_round_aux_not_negative.
Qed.

Lemma SFadd_not_negative (a b : spec_float) :
  SF_not_negative a = true → SF_not_negative b = true →
  SF_not_negative (SF64add a b) = true.
Proof.
  unfold SF64add.
  destruct a as [[]|[]| |[] ma ea], b as [[]|[]| |[] mb eb]; try done.
  intros _ _. unfold SFadd. simpl cond_Zopp.
  destruct (shl_align ma ea _) as [ma' ea'], (shl_align mb eb _) as [mb' eb'].
  simpl. apply binary_round_not_negative.
Qed.

(** *** Digits and shifts *)

Lemma Zdigits2_upper (m : Z) : 0 ≤ m → m < 2 ^ Zdigits2 m.
Proof.
  destruct m as [|p|p]; intros Hm; [done| |lia].
  apply digits2_pos_bound.
Qed.

Lemma Zdigits2_lower (m : Z) : 0 < m → 2 ^ (Zdigits2 m - 1) ≤ m.
Proof.
  destruct m as [|p|p]; intros Hm; [lia| |lia].
  apply digits2_pos_lower.
Qed.

Lemma Zdigits2_nonneg (m : Z) : 0 ≤ Zdigits2 m.
Proof. destruct m; simpl; lia. Qed.

Lemma Zdigits2_le (m : Z) (n : Z) : 0 ≤ m → 0 ≤ n → m < 2 ^ n → Zdigits2 m ≤ n.
Proof.
  intros Hm Hn Hlt. destruct (Z.eq_dec m 0) as [->|Hne]; [done|].
  pose proof (Zdigits2_lower m ltac:(lia)) as Hlow.
  destruct (Z.le_gt_cases (Zdigits2 m) n) as [|Hgt]; [done|].
  pose proof (Z.pow_le_mono_r 2 n (Zdigits2 m - 1) ltac:(lia) ltac:(lia)). lia.
Qed.

Lemma Zdigits2_ge (m : Z) (n : Z) : 0 ≤ n → 2 ^ n ≤ m → n + 1 ≤ Zdigits2 m.
Proof.
  intros Hn Hle.
  assert (0 < 2 ^ n) by (apply Z.pow_pos_nonneg; lia).
  pose proof (Zdigits2_upper m ltac:(lia)) as Hup.
  pose proof (Zdigits2_nonneg m).
  destruct (Z.le_gt_cases (n + 1) (Zdigits2 m)) as [|Hgt]; [done|].
  pose proof (Z.pow_le_mono_r 2 (Zdigits2 m) n ltac:(lia) ltac:(lia)). lia.
Qed.

(** The first component of [shr_fexp]: the mantissa divided by the power
    of two that brings the exponent to [fexp]. *)
Lemma shr_fexp_m (m e : Z) (l : location) :
  0 ≤ m →
  let k := fexp prec emax (Zdigits2 m + e) - e in
  shr_m (shr_fexp prec emax m e l).1 = (if bool_decide (0 < k) then m / 2 ^ k else m) ∧
  (shr_fexp prec emax m e l).2 = (if bool_decide (0 < k) then e + k else e).
Proof.
  intros Hm k. unfold shr_fexp, shr. fold k.
  destruct (bool_decide_reflect (0 < k)) as [Hk|Hk].
  - destruct k as [|p|p]; try lia. simpl.
    rewrite iter_pos_shr_m by (by rewrite shr_record_of_loc_m).
    by rewrite shr_record_of_loc_m.
  - destruct k as [|p|p]; try lia; simpl; by rewrite shr_record_of_loc_m.
Qed.

Lemma shr_fexp_id (m e : Z) (l : location) :
  fexp prec emax (Zdigits2 m + e) - e ≤ 0 →
  shr_fexp prec emax m e l = (shr_record_of_loc m l, e).
Proof.
  intros Hk. unfold shr_fexp, shr.
  by destruct (fexp prec emax (Zdigits2 m + e) - e) as [|p|p]; try lia.
Qed.

Lemma round_nearest_even_cases (m : Z) (l : location) :
  round_nearest_even m l = m ∨ round_nearest_even m l = m + 1.
Proof. destruct l as [|[]]; simpl; auto. destruct (Z.even m); auto. Qed.

(** The shape of a rounded result.  For a mantissa [m] with at least the
    digits its exponent asks for, the result has the exponent
    [e' = fexp (digits m + e)] and the mantissa [m / 2^(e'-e)] or the next
    integer, as long as [e'] is below the largest exponent. *)
Lemma binary_round_aux_shape (s : bool) (m e : Z) (l : location) :
  0 ≤ m →
  let e' := fexp prec emax (Zdigits2 m + e) in
  let m' := m / 2 ^ (e' - e) in
  e ≤ e' → e' ≤ 970 →
  ∃ m1, (m1 = m' ∨ m1 = m' + 1) ∧
    (l = loc_Exact → e' = e → m1 = m) ∧
    ((m1 = 0 ∧ binary_round_aux prec emax s m e l = S754_zero s) ∨
     (∃ p e'', binary_round_aux prec emax s m e l = S754_finite s p e'' ∧
               Z.pos p * 2 ^ (e'' - e') = m1 ∧ e' ≤ e'' ≤ e' + 1)).
Proof.
  intros Hm e' m' Hee' He'. unfold binary_round_aux.
  pose proof (shr_fexp_m m e l Hm) as [H1 H2]. fold e' in H1, H2.
  pose proof (shr_fexp_id m e l) as Hid. fold e' in Hid.
  destruct (shr_fexp prec emax m e l) as [mrs1 e1]. simpl in H1, H2.
  assert (shr_m mrs1 = m' ∧ e1 = e') as [Hm1 ->].
  { case_bool_decide.
    - split; [done|lia].
    - assert (e' = e) as Heq by lia. unfold m'. rewrite Heq, Z.sub_diag.
      rewrite H1, H2. split; [by rewrite Z.div_1_r|done]. }
  rewrite Hm1. clear H1 H2.
  set (m1 := round_nearest_even m' (loc_of_shr_record mrs1)).
  assert (0 < 2 ^ (e' - e)) as Hpow by (apply Z.pow_pos_nonneg; lia).
  assert (0 ≤ m') as Hm'0 by (by apply Z.div_pos).
  assert (m' < 2 ^ 53) as Hm'53.
  { unfold m'. apply Z.div_lt_upper_bound; [done|].
    pose proof (Zdigits2_upper m Hm) as Hup.
    pose proof (Zdigits2_nonneg m) as Hd0.
    eapply Z.lt_le_trans; [exact Hup|].
    rewrite <- Z.pow_add_r by lia. apply Z.pow_le_mono_r; [lia|].
    unfold e', fexp, emin, prec, emax. lia. }
  assert (-1074 ≤ e') as Hemin by (unfold e', fexp, emin, prec, emax; lia).
  assert (m1 = m' ∨ m1 = m' + 1) as Hcases by apply round_nearest_even_cases.
  exists m1. split; [done|].
  split.
  { intros -> Heq. injection (Hid ltac:(lia)) as -> _.
    unfold m1, m'. simpl. by rewrite Heq, Z.sub_diag, Z.div_1_r. }
  clear Hid.
  assert (0 ≤ m1) as Hm10 by lia.
  pose proof (shr_fexp_m m1 e' loc_Exact Hm10) as [H1 H2].
  destruct (shr_fexp prec emax m1 e' loc_Exact) as [mrs2 e2]. simpl in H1, H2.
  destruct (Z.eq_dec m1 (2 ^ 53)) as [Heq|Hne].
  - rewrite Heq in H1, H2.
    assert (fexp prec emax (Zdigits2 (2 ^ 53) + e') - e' = 1) as Hk.
    { change (Zdigits2 (2 ^ 53)) with 54. unfold fexp, emin, prec, emax. lia. }
    rewrite Hk in H1, H2. simpl in H1, H2.
    right. rewrite H1. change (2 ^ 53 / 2 ^ 1) with (Z.pos (2 ^ 52)%positive).
    rewrite H2. rewrite (proj2 (Z.leb_le _ _)) by (unfold emax, prec; lia).
    eexists _, _. split; [done|].
    split; [|lia]. replace (e' + 1 - e') with 1 by lia. rewrite Heq. reflexivity.
  - assert (m1 < 2 ^ 53) as Hlt by lia.
    pose proof (Zdigits2_le m1 53 Hm10 ltac:(lia) Hlt) as Hd.
    rewrite bool_decide_eq_false_2 in H1, H2
      by (unfold fexp, emin, prec, emax; lia).
    rewrite H1, H2.
    destruct m1 as [|p|p]; [by left| |lia].
    right. rewrite (proj2 (Z.leb_le _ _)) by (unfold emax, prec; lia).
    eexists _, _. split; [done|].
    rewrite Z.sub_diag. split; lia.
Qed.

(** *** Powers of two *)

Lemma bpow_pos (e : Z) : (0 < bpow e)%R.
Proof. apply powerRZ_lt. lra. Qed.

Lemma bpow_add (a b : Z) : bpow (a + b) = (bpow a * bpow b)%R.
Proof. apply powerRZ_add. lra. Qed.

Lemma bpow_IZR (k : Z) : 0 ≤ k → bpow k = IZR (2 ^ k).
Proof.
  intros Hk. unfold bpow. rewrite <- (Z2Nat.id k Hk) at 1 2.
  by rewrite <- pow_powerRZ, pow_IZR.
Qed.

Lemma bpow_ge_1 (k : Z) : 0 ≤ k → (1 <= bpow k)%R.
Proof.
  intros Hk. rewrite bpow_IZR by done. apply IZR_le.
  assert (0 < 2 ^ k) by (apply Z.pow_pos_nonneg; lia). lia.
Qed.

Lemma bpow_le (a b : Z) : a ≤ b → (bpow a <= bpow b)%R.
Proof.
  intros Hab. replace b with (a + (b - a)) by lia. rewrite bpow_add.
  pose proof (bpow_pos a). pose proof (bpow_ge_1 (b - a) ltac:(lia)).
  rewrite <- (Rmult_1_r (bpow a)) at 1. apply Rmult_le_compat_l; lra.
Qed.

Lemma bpow_opp (a : Z) : (bpow a * bpow (- a) = 1)%R.
Proof. rewrite <- bpow_add, Z.add_opp_diag_r. reflexivity. Qed.

(** The value of a rounded result, when the exact value [v] lies between
    [m * 2^e] and [(m+1) * 2^e] and is below [2^1023]: a finite double of
    the sign that was asked for, and at most one unit in the last place
    away from [v]. *)
Lemma binary_round_aux_error (s : bool) (m e : Z) (l : location) (v : R) :
  0 ≤ m → e ≤ fexp prec emax (Zdigits2 m + e) →
  (IZR m * bpow e <= v)%R → (v < IZR (m + 1) * bpow e)%R →
  (v < bpow 1023)%R →
  let r := binary_round_aux prec emax s m e l in
  SF_finite r = true ∧
  ∃ a, SF2R r = (if s then - a else a)%R ∧ (0 <= a)%R ∧
       (Rabs (a - v) <= v * bpow (-52) + bpow (-1074))%R ∧
       (l = loc_Exact → -1074 ≤ e → v = (IZR m * bpow e)%R →
        (Rabs (a - v) <= v * bpow (-52))%R).
Proof.
  intros Hm Hcan Hlo Hhi Hmax r.
  set (d := Zdigits2 m) in *.
  set (e' := fexp prec emax (d + e)) in *.
  pose proof (Zdigits2_nonneg m) as Hd0. fold d in Hd0.
  pose proof (bpow_pos e) as Hbe.
  assert (e' = d + e - 53 ∧ -1074 ≤ d + e - 53 ∨ e' = -1074 ∧ d + e - 53 ≤ -1074)
    as Hcase by (unfold e', fexp, emin, prec, emax; lia).
  assert (0 < 2 ^ (e' - e)) as Hpow by (apply Z.pow_pos_nonneg; lia).
  set (m' := m / 2 ^ (e' - e)).
  assert (m' * 2 ^ (e' - e) ≤ m ∧ m + 1 ≤ (m' + 1) * 2 ^ (e' - e)) as [Hq1 Hq2].
  { pose proof (Z.div_mod m (2 ^ (e' - e)) ltac:(lia)) as Hdm.
    pose proof (Z.mod_pos_bound m (2 ^ (e' - e)) Hpow) as Hmod.
    fold m' in Hdm. nia. }
  assert (0 ≤ m') as Hm'0 by (by apply Z.div_pos).
  assert (bpow e' = (IZR (2 ^ (e' - e)) * bpow e)%R) as Hbe'.
  { rewrite <- bpow_IZR by lia. rewrite <- bpow_add. f_equal. lia. }
  pose proof (bpow_pos e') as Hbe'0.
  assert (IZR m' * bpow e' <= v)%R as Hlo'.
  { etrans; [|exact Hlo]. rewrite Hbe', <- Rmult_assoc, <- mult_IZR.
    apply Rmult_le_compat_r; [lra|]. by apply IZR_le. }
  assert (v < IZR (m' + 1) * bpow e')%R as Hhi'.
  { eapply Rlt_le_trans; [exact Hhi|]. rewrite Hbe', <- Rmult_assoc, <- mult_IZR.
    apply Rmult_le_compat_r; [lra|]. by apply IZR_le. }
  assert (0 <= v)%R as Hv0.
  { etrans; [|exact Hlo']. apply Rmult_le_pos; [|lra]. by apply IZR_le. }
  (* the unit in the last place against [v] *)
  assert (e' ≠ -1074 → (bpow e' <= v * bpow (-52))%R) as Hulp1.
  { intros Hne. destruct Hcase as [[He' Hn]|[He' _]]; [|done].
    destruct (Z.eq_dec m 0) as [Hz|Hnz].
    { subst m. simpl in d. lia. }
    assert (2 ^ 52 ≤ m') as Hm'52.
    { pose proof (Zdigits2_lower m ltac:(lia)) as Hlow. fold d in Hlow.
      unfold m'. apply Z.div_le_lower_bound; [done|].
      etrans; [|exact Hlow]. rewrite <- Z.pow_add_r by lia.
      apply Z.pow_le_mono_r; lia. }
    assert (bpow 52 * bpow e' <= v)%R as H52.
    { etrans; [|exact Hlo']. apply Rmult_le_compat_r; [lra|].
      rewrite bpow_IZR by lia. by apply IZR_le. }
    pose proof (bpow_pos (-52)).
    assert (bpow e' = bpow 52 * bpow e' * bpow (-52))%R as ->.
    { assert (bpow 52 * bpow (-52) = 1)%R as Ho
        by (rewrite <- bpow_add; reflexivity).
      replace (bpow 52 * bpow e' * bpow (-52))%R
        with (bpow e' * (bpow 52 * bpow (-52)))%R by ring.
      rewrite Ho. ring. }
    apply Rmult_le_compat_r; lra. }
  assert (bpow e' <= v * bpow (-52) + bpow (-1074))%R as Hulp.
  { pose proof (bpow_pos (-52)). pose proof (bpow_pos (-1074)).
    destruct (Z.eq_dec e' (-1074)) as [He'|He'].
    - rewrite He'. assert (0 <= v * bpow (-52))%R by (apply Rmult_le_pos; lra).
      lra.
    - specialize (Hulp1 He'). lra. }
  (* no overflow *)
  assert (e' ≤ 970) as He'max.
  { destruct Hcase as [[He' Hn]|[He' _]]; [|lia].
    destruct (Z.le_gt_cases e' 970) as [|Hgt]; [done|]. exfalso.
    destruct (Z.eq_dec m 0) as [Hz|Hnz].
    { subst m. simpl in d. lia. }
    pose proof (Zdigits2_lower m ltac:(lia)) as Hlow. fold d in Hlow.
    assert (bpow (d - 1) <= IZR m)%R as H1
      by (rewrite bpow_IZR by lia; by apply IZR_le).
    assert (bpow 1023 <= bpow (d - 1 + e))%R as H2 by (apply bpow_le; lia).
    rewrite bpow_add in H2.
    assert (bpow (d - 1) * bpow e <= IZR m * bpow e)%R
      by (apply Rmult_le_compat_r; lra).
    lra. }
  destruct (binary_round_aux_shape s m e l Hm Hcan He'max)
    as (m1 & Hm1 & Hex & Hshape).
  fold d e' m' in Hm1, Hex, Hshape. fold r in Hshape.
  assert (Rabs (IZR m1 * bpow e' - v) <= bpow e')%R as Herr0.
  { rewrite plus_IZR in Hhi'.
    apply Rabs_le. destruct Hm1 as [->| ->]; [|rewrite plus_IZR]; lra. }
  assert (0 <= IZR m1 * bpow e')%R as Ha0.
  { apply Rmult_le_pos; [|lra]. apply IZR_le. lia. }
  assert (SF2R r = (if s then - (IZR m1 * bpow e') else IZR m1 * bpow e')%R
          ∧ SF_finite r = true) as [HV Hfin].
  { destruct Hshape as [[Hz Hr]|(p & e'' & Hr & Hp & He'')]; rewrite Hr.
    - split; [|done]. rewrite Hz. simpl. destruct s; lra.
    - split; [|done]. simpl.
      assert (IZR (Z.pos p) * bpow e'' = IZR m1 * bpow e')%R as <-.
      { rewrite <- Hp, mult_IZR, <- bpow_IZR by lia.
        rewrite Rmult_assoc, <- bpow_add. do 2 f_equal. lia. }
      destruct s; lra. }
  split; [done|]. exists (IZR m1 * bpow e')%R.
  split; [done|]. split; [done|]. split; [lra|].
  intros Hl He Hv.
  destruct (Z.eq_dec e' (-1074)) as [He'|He'].
  - assert (e' = e) as Heq by lia.
    rewrite (Hex Hl Heq), Heq, <- Hv.
    replace (v - v)%R with 0%R by ring. rewrite Rabs_R0.
    pose proof (bpow_pos (-52)). apply Rmult_le_pos; lra.
  - specialize (Hulp1 He'). lra.
Qed.

(** *** Addition and subtraction *)

Lemma SF_finite_nonneg_intro (f : spec_float) :
  SF_finite f = true → SF_not_negative f = true → SF_finite_nonneg f = true.
Proof. by destruct f as [[]|[]| |[] ? ?]. Qed.

Lemma SF_finite_nonneg_finite (f : spec_float) :
  SF_finite_nonneg f = true → SF_finite f = true.
Proof. by destruct f as [[]|[]| |[] ? ?]. Qed.

Lemma SF2R_nonneg (f : spec_float) :
  SF_finite_nonneg f = true → (0 <= SF2R f)%R.
Proof.
  destruct f as [[]|[]| |[] m e]; simpl; try done; try lra.
  intros _. pose proof (bpow_pos e).
  assert (0 < IZR (Z.pos m))%R by (by apply IZR_lt).
  rewrite Rmult_1_l. apply Rmult_le_pos; lra.
Qed.

Lemma valid_finite_canonical (s : bool) (m : positive) (e : Z) :
  SpecFloat.valid_binary prec emax (S754_finite s m e) = true →
  -1074 ≤ e ≤ 971 ∧ Z.pos (digits2_pos m) ≤ 53 ∧
  (e = -1074 ∨ Z.pos (digits2_pos m) = 53).
Proof.
  unfold SpecFloat.valid_binary, SpecFloat.bounded, canonical_mantissa,
    fexp, emin, prec, emax.
  intros [Hc He]%andb_true_iff.
  apply Z.eqb_eq in Hc. apply Z.leb_le in He. lia.
Qed.

Lemma fexp_eq (x : Z) : fexp prec emax x = Z.max (x - 53) (-1074).
Proof. reflexivity. Qed.

Lemma Pos_iter_xO (m d : positive) :
  Z.pos (Pos.iter xO m d) = Z.pos m * 2 ^ Z.pos d.
Proof.
  induction d as [|d IH] using Pos.peano_ind.
  - simpl. lia.
  - rewrite Pos.iter_succ, Pos2Z.inj_xO, IH, Pos2Z.inj_succ.
    rewrite Z.pow_succ_r by lia. lia.
Qed.

Lemma shl_align_value (m : positive) (e e' : Z) :
  (shl_align m e e').2 = Z.min e e' ∧
  Z.pos (shl_align m e e').1 = Z.pos m * 2 ^ (e - Z.min e e').
Proof.
  unfold shl_align. destruct (e' - e) as [|d|d] eqn:Hd; simpl.
  - rewrite Z.min_l by lia. rewrite Z.sub_diag. lia.
  - rewrite Z.min_l by lia. rewrite Z.sub_diag. lia.
  - rewrite Z.min_r by lia. split; [done|].
    rewrite Pos_iter_xO. f_equal. f_equal. lia.
Qed.

(** Rounding a positive mantissa at an exponent from [emin] on: finite
    below [2^1023], and within one unit in the last place. *)
Lemma binary_round_error (s : bool) (m : positive) (e : Z) :
  -1074 ≤ e → (IZR (Z.pos m) * bpow e < bpow 1023)%R →
  let v := (IZR (Z.pos m) * bpow e)%R in
  let r := binary_round prec emax s m e in
  SF_finite r = true ∧
  ∃ a, SF2R r = (if s then - a else a)%R ∧ (0 <= a)%R ∧
       (Rabs (a - v) <= v * bpow (-52))%R.
Proof.
  intros He Hmax v r. unfold r, binary_round.
  set (f := fexp prec emax (Z.pos (digits2_pos m) + e)).
  pose proof (shl_align_value m e f) as [H2 H1].
  destruct (shl_align m e f) as [mz ez]. simpl in H1, H2. rewrite <- H2 in H1.
  assert (-1074 ≤ f) as Hf by (unfold f, fexp, emin, prec, emax; lia).
  assert (0 < 2 ^ (e - ez)) as Hpow by (apply Z.pow_pos_nonneg; lia).
  assert (v = IZR (Z.pos mz) * bpow ez)%R as Hv.
  { unfold v. rewrite H1, mult_IZR, <- bpow_IZR by lia.
    rewrite Rmult_assoc, <- bpow_add. do 2 f_equal. lia. }
  assert (ez ≤ fexp prec emax (Zdigits2 (Z.pos mz) + ez)) as Hcan.
  { pose proof (digits2_pos_lower m) as Hlow.
    assert (Z.pos (digits2_pos m) + (e - ez) ≤ Zdigits2 (Z.pos mz)) as Hd.
    { replace (Z.pos (digits2_pos m) + (e - ez))
        with ((Z.pos (digits2_pos m) - 1 + (e - ez)) + 1) by lia.
      apply Zdigits2_ge; [lia|]. rewrite H1, Z.pow_add_r by lia.
      apply Z.mul_le_mono_nonneg_r; lia. }
    revert Hd H2. unfold f. rewrite !fexp_eq.
    lia. }
  destruct (binary_round_aux_error s (Z.pos mz) ez loc_Exact v)
    as (Hfin & a & Ha & Ha0 & _ & Hex); try done.
  - rewrite Hv. lra.
  - rewrite Hv, plus_IZR. pose proof (bpow_pos ez). lra.
  - split; [done|]. exists a. split; [done|]. split; [done|].
    apply Hex; [done|lia|done].
Qed.

Lemma binary_normalize_error (M e : Z) :
  -1074 ≤ e → (Rabs (IZR M * bpow e) < bpow 1023)%R →
  let v := (IZR M * bpow e)%R in
  let r := binary_normalize prec emax M e false in
  SF_finite r = true ∧ (Rabs (SF2R r - v) <= Rabs v * bpow (-52))%R.
Proof.
  intros He Hmax v r. unfold r. pose proof (bpow_pos e) as Hbe.
  pose proof (bpow_pos (-52)) as H52.
  destruct M as [|p|p]; simpl binary_normalize.
  - split; [done|]. unfold v. simpl SF2R. rewrite Rmult_0_l, Rminus_diag.
    rewrite Rabs_R0. lra.
  - assert (0 < IZR (Z.pos p))%R by (by apply IZR_lt).
    assert (0 < v)%R by (by apply Rmult_lt_0_compat).
    fold v in Hmax. rewrite Rabs_pos_eq in Hmax by lra.
    destruct (binary_round_error false p e He Hmax) as (Hfin & a & -> & _ & Ha).
    split; [done|]. fold v in Ha. by rewrite (Rabs_pos_eq v) by lra.
  - assert (IZR (Z.neg p) = - IZR (Z.pos p))%R as Hneg
      by (rewrite <- opp_IZR; done).
    assert (0 < IZR (Z.pos p))%R by (by apply IZR_lt).
    set (w := (IZR (Z.pos p) * bpow e)%R).
    assert (0 < w)%R by (by apply Rmult_lt_0_compat).
    assert (v = - w)%R as Hv by (unfold v, w; rewrite Hneg; ring).
    fold v in Hmax. rewrite Hv, Rabs_Ropp, Rabs_pos_eq in Hmax by lra.
    destruct (binary_round_error true p e He Hmax) as (Hfin & a & -> & _ & Ha).
    split; [done|]. fold w in Ha.
    rewrite Hv, Rabs_Ropp, (Rabs_pos_eq w) by lra.
    replace (- a - - w)%R with (- (a - w))%R by ring. by rewrite Rabs_Ropp.
Qed.

Lemma SF2R_cond_Zopp (s : bool) (m : positive) (e ez : Z) :
  ez ≤ e →
  (IZR (cond_Zopp s (Z.pos m * 2 ^ (e - ez))) * bpow ez)%R =
  SF2R (S754_finite s m e).
Proof.
  intros Hle. simpl SF2R.
  assert (IZR (Z.pos m * 2 ^ (e - ez)) * bpow ez = IZR (Z.pos m) * bpow e)%R
    as Hv.
  { rewrite mult_IZR, <- bpow_IZR by lia.
    rewrite Rmult_assoc, <- bpow_add. do 2 f_equal. lia. }
  destruct s; simpl cond_Zopp.
  - rewrite opp_IZR.
    replace (-1 * IZR (Z.pos m) * bpow e)%R
      with (- (IZR (Z.pos m) * bpow e))%R by ring.
    rewrite <- Hv. ring.
  - rewrite Hv. ring.
Qed.

(** Addition and subtraction of finite doubles: a finite result below
    [2^1023], within one unit in the last place of the exact one. *)
Lemma SFadd_error (x y : spec_float) :
  SpecFloat.valid_binary prec emax x = true →
  SpecFloat.valid_binary prec emax y = true →
  SF_finite x = true → SF_finite y = true →
  (Rabs (SF2R x + SF2R y) < bpow 1023)%R →
  SF_finite (SF64add x y) = true ∧
  (Rabs (SF2R (SF64add x y) - (SF2R x + SF2R y))
   <= Rabs (SF2R x + SF2R y) * bpow (-52))%R.
Proof.
  intros Hvx Hvy Hx Hy Hmax. pose proof (bpow_pos (-52)) as H52.
  assert (∀ z : spec_float, SF_finite z = true →
            SF_finite z = true ∧
            (Rabs (SF2R z - SF2R z) <= Rabs (SF2R z) * bpow (-52))%R)
    as Hsame.
  { intros z Hz. split; [done|]. rewrite Rminus_diag, Rabs_R0.
    apply Rmult_le_pos; [apply Rabs_pos|lra]. }
  unfold SF64add.
  destruct x as [sx|sx| |sx mx ex], y as [sy|sy| |sy my ey]; try done.
  - destruct sx, sy; simpl; (split; [done|]);
      replace (0 - (0 + 0))%R with 0%R by ring;
      replace (0 + 0)%R with 0%R by ring; rewrite Rabs_R0; lra.
  - simpl SFadd. simpl (SF2R (S754_zero _)). rewrite Rplus_0_l. by apply Hsame.
  - simpl SFadd. simpl (SF2R (S754_zero _)). rewrite Rplus_0_r. by apply Hsame.
  - apply valid_finite_canonical in Hvx as (Hex & _).
    apply valid_finite_canonical in Hvy as (Hey & _).
    unfold SFadd. set (ez := Z.min ex ey).
    pose proof (shl_align_value mx ex ez) as [_ H1].
    pose proof (shl_align_value my ey ez) as [_ H2].
    rewrite H1, H2.
    rewrite (Z.min_r ex ez), (Z.min_r ey ez) by lia.
    assert (IZR (cond_Zopp sx (Z.pos mx * 2 ^ (ex - ez)) +
                 cond_Zopp sy (Z.pos my * 2 ^ (ey - ez))) * bpow ez =
            SF2R (S754_finite sx mx ex) + SF2R (S754_finite sy my ey))%R
      as Hv.
    { rewrite plus_IZR, Rmult_plus_distr_r.
      rewrite !SF2R_cond_Zopp by lia. done. }
    rewrite <- Hv in Hmax |- *.
    apply binary_normalize_error; [lia|done].
Qed.

Lemma SF2R_opp (x : spec_float) : SF2R (SFopp x) = (- SF2R x)%R.
Proof. destruct x as [s|s| |[] m e]; simpl; lra. Qed.

Lemma SFsub_error (x y : spec_float) :
  SpecFloat.valid_binary prec emax x = true →
  SpecFloat.valid_binary prec emax y = true →
  SF_finite x = true → SF_finite y = true →
  (Rabs (SF2R x - SF2R y) < bpow 1023)%R →
  SF_finite (SF64sub x y) = true ∧
  (Rabs (SF2R (SF64sub x y) - (SF2R x - SF2R y))
   <= Rabs (SF2R x - SF2R y) * bpow (-52))%R.
Proof.
  intros Hvx Hvy Hx Hy Hmax.
  assert (SF64sub x y = SF64add x (SFopp y)) as ->.
  { unfold SF64sub, SF64add.
    destruct x as [[]|[]| |sx mx ex], y as [[]|[]| |sy my ey]; try done.
    unfold SFsub, SFadd. simpl SFopp. f_equal. f_equal.
    destruct sy; simpl; lia. }
  assert (SF2R x - SF2R y = SF2R x + SF2R (SFopp y))%R as ->
    by (rewrite SF2R_opp; ring).
  apply SFadd_error; try done.
  - by destruct y.
  - by destruct y.
  - rewrite SF2R_opp. by replace (SF2R x + - SF2R y)%R with (SF2R x - SF2R y)%R by ring.
Qed.

(** *** Multiplication and division *)

Lemma Rdiv_ge (a n d : R) : (0 < d)%R → (a * d <= n)%R → (a <= n / d)%R.
Proof.
  intros Hd H. pose proof (Rinv_0_lt_compat d Hd) as Hi.
  replace a with (a * d * / d)%R by (field; lra).
  unfold Rdiv. apply Rmult_le_compat_r; lra.
Qed.

Lemma Rdiv_lt (a n d : R) : (0 < d)%R → (n < a * d)%R → (n / d < a)%R.
Proof.
  intros Hd H. pose proof (Rinv_0_lt_compat d Hd) as Hi.
  replace a with (a * d * / d)%R by (field; lra).
  unfold Rdiv. apply Rmult_lt_compat_r; lra.
Qed.

Lemma SF2R_finite_pos (m : positive) (e : Z) :
  SF2R (S754_finite false m e) = (IZR (Z.pos m) * bpow e)%R ∧
  (0 < IZR (Z.pos m) * bpow e)%R.
Proof.
  simpl. split; [ring|]. apply Rmult_lt_0_compat; [by apply IZR_lt|apply bpow_pos].
Qed.

(** Multiplication of non-negative finite doubles. *)
Lemma SFmul_error (x y : spec_float) :
  SpecFloat.valid_binary prec emax x = true →
  SpecFloat.valid_binary prec emax y = true →
  SF_finite_nonneg x = true → SF_finite_nonneg y = true →
  (SF2R x * SF2R y < bpow 1023)%R →
  SF_finite_nonneg (SF64mul x y) = true ∧
  (Rabs (SF2R (SF64mul x y) - SF2R x * SF2R y)
   <= SF2R x * SF2R y * bpow (-52) + bpow (-1074))%R.
Proof.
  intros Hvx Hvy Hx Hy Hmax.
  pose proof (bpow_pos (-52)) as H52. pose proof (bpow_pos (-1074)) as H1074.
  unfold SF64mul.
  destruct x as [sx|sx| |[] mx ex], y as [sy|sy| |[] my ey]; try done.
  1-3: simpl; split; [done|];
    rewrite ?Rmult_0_l, ?Rmult_0_r, Rminus_diag, Rabs_R0; lra.
  apply valid_finite_canonical in Hvx as (Hex & Hdx & Hcx).
  apply valid_finite_canonical in Hvy as (Hey & Hdy & Hcy).
  unfold SFmul. simpl xorb.
  destruct (SF2R_finite_pos mx ex) as [Hxv Hpx].
  destruct (SF2R_finite_pos my ey) as [Hyv Hpy].
  rewrite Hxv, Hyv in Hmax |- *.
  set (v := (IZR (Z.pos mx) * bpow ex * (IZR (Z.pos my) * bpow ey))%R) in *.
  assert (v = IZR (Z.pos (mx * my)) * bpow (ex + ey))%R as Hv.
  { unfold v. rewrite Pos2Z.inj_mul, mult_IZR, bpow_add. ring. }
  assert (ex + ey ≤ fexp prec emax (Zdigits2 (Z.pos (mx * my)) + (ex + ey)))
    as Hcan.
  { assert (Z.pos (digits2_pos mx) + Z.pos (digits2_pos my) - 1
            ≤ Zdigits2 (Z.pos (mx * my))) as Hd.
    { replace (Z.pos (digits2_pos mx) + Z.pos (digits2_pos my) - 1)
        with ((Z.pos (digits2_pos mx) - 1 + (Z.pos (digits2_pos my) - 1)) + 1)
        by lia.
      apply Zdigits2_ge; [lia|]. rewrite Z.pow_add_r, Pos2Z.inj_mul by lia.
      pose proof (digits2_pos_lower mx). pose proof (digits2_pos_lower my).
      assert (0 < 2 ^ (Z.pos (digits2_pos mx) - 1))
        by (apply Z.pow_pos_nonneg; lia).
      assert (0 < 2 ^ (Z.pos (digits2_pos my) - 1))
        by (apply Z.pow_pos_nonneg; lia).
      nia. }
    rewrite fexp_eq. revert Hd.
    generalize (Zdigits2 (Z.pos (mx * my))). lia. }
  assert (IZR (Z.pos (mx * my)) * bpow (ex + ey) <= v)%R as Hlo
    by (rewrite Hv; lra).
  assert (v < IZR (Z.pos (mx * my) + 1) * bpow (ex + ey))%R as Hhi
    by (rewrite Hv, plus_IZR; pose proof (bpow_pos (ex + ey)); lra).
  destruct (binary_round_aux_error false (Z.pos (mx * my)) (ex + ey)
              loc_Exact v ltac:(lia) Hcan Hlo Hhi Hmax)
    as (Hfin & a & Ha & Ha0 & Herr & _).
  split.
  - apply SF_finite_nonneg_intro; [done|apply binary_round_aux_not_negative].
  - by rewrite Ha.
Qed.

(** The quotient and exponent that [SFdiv] hands to the rounding. *)
Lemma SFdiv_core_binary_spec (mx my : positive) (ex ey : Z) :
  ∃ q e' l,
    SFdiv_core_binary prec emax (Z.pos mx) ex (Z.pos my) ey = (q, e', l) ∧
    0 ≤ q ∧ e' ≤ ex - ey ∧
    q * Z.pos my ≤ Z.pos mx * 2 ^ (ex - ey - e') < (q + 1) * Z.pos my ∧
    e' ≤ fexp prec emax (Zdigits2 q + e').
Proof.
  unfold SFdiv_core_binary. simpl Zdigits2.
  set (d1 := Z.pos (digits2_pos mx)). set (d2 := Z.pos (digits2_pos my)).
  set (e' := Z.min (fexp prec emax (d1 + ex - (d2 + ey))) (ex - ey)).
  set (s := ex - ey - e').
  assert (0 ≤ s) as Hs by (unfold s, e'; lia).
  set (m' := match s with
             | 0 => Z.pos mx
             | Z.pos _ => Z.shiftl (Z.pos mx) s
             | Z.neg _ => 0
             end).
  assert (m' = Z.pos mx * 2 ^ s) as Hm'.
  { unfold m'. destruct s as [|p|p] eqn:Hsp; [lia| |lia].
    by rewrite Z.shiftl_mul_pow2. }
  pose proof (Z_div_mod m' (Z.pos my) ltac:(lia)) as Hdm.
  destruct (Z.div_eucl m' (Z.pos my)) as [q r]. destruct Hdm as [Hq Hr].
  assert (0 < 2 ^ s) as Hpow by (by apply Z.pow_pos_nonneg).
  assert (0 ≤ q) as Hq0 by nia.
  exists q, e', (new_location (Z.pos my) r). split; [done|].
  split; [done|]. split; [unfold e'; lia|].
  fold s. rewrite <- Hm'. split; [nia|].
  (* enough digits *)
  pose proof (digits2_pos_lower mx) as Hlx. fold d1 in Hlx.
  pose proof (digits2_pos_bound my) as Huy. fold d2 in Huy.
  assert (e' ≤ fexp prec emax (d1 + ex - (d2 + ey))) as He' by (unfold e'; lia).
  rewrite fexp_eq in He' |- *.
  destruct (Z.le_gt_cases 0 (d1 - 1 + s - d2)) as [Hge|Hlt].
  - assert (2 ^ (d1 - 1 + s - d2) ≤ q) as Hqlow.
    { assert (2 ^ (d1 - 1 + s) < (q + 1) * 2 ^ d2) as H1.
      { rewrite Z.pow_add_r by lia. 
        assert (0 < 2 ^ (d1 - 1)) by (apply Z.pow_pos_nonneg; lia). nia. }
      replace (d1 - 1 + s) with (d1 - 1 + s - d2 + d2) in H1 by lia.
      rewrite Z.pow_add_r in H1 by lia.
      assert (0 < 2 ^ d2) by (apply Z.pow_pos_nonneg; lia).
      assert (0 < 2 ^ (d1 - 1 + s - d2)) by (apply Z.pow_pos_nonneg; lia).
      nia. }
    pose proof (Zdigits2_ge q _ Hge Hqlow) as Hd.
    revert Hd He'. unfold s. generalize (Zdigits2 q). lia.
  - pose proof (Zdigits2_nonneg q). revert He' Hlt. unfold s.
    generalize (Zdigits2 q). lia.
Qed.

(** Division of a non-negative finite double by a positive finite one. *)
Lemma SFdiv_error (x : spec_float) (my : positive) (ey : Z) :
  SF_finite_nonneg x = true →
  let y := S754_finite false my ey in
  (SF2R x / SF2R y < bpow 1023)%R →
  SF_finite_nonneg (SF64div x y) = true ∧
  (Rabs (SF2R (SF64div x y) - SF2R x / SF2R y)
   <= SF2R x / SF2R y * bpow (-52) + bpow (-1074))%R.
Proof.
  intros Hx y Hmax.
  pose proof (bpow_pos (-52)) as H52. pose proof (bpow_pos (-1074)) as H1074.
  unfold SF64div. unfold y in *.
  destruct (SF2R_finite_pos my ey) as [Hy Hpy]. rewrite Hy in Hmax |- *.
  destruct x as [sx|sx| |[] mx ex]; try done.
  - simpl. split; [done|]. unfold Rdiv. rewrite !Rmult_0_l, Rminus_diag, Rabs_R0. lra.
  - destruct (SF2R_finite_pos mx ex) as [Hxv Hpx]. rewrite Hxv in Hmax |- *.
    unfold SFdiv. simpl xorb.
    destruct (SFdiv_core_binary_spec mx my ex ey)
      as (q & e' & l & -> & Hq0 & He' & [Hlo Hhi] & Hcan).
    set (v := (IZR (Z.pos mx) * bpow ex / (IZR (Z.pos my) * bpow ey))%R) in *.
    assert (0 < 2 ^ (ex - ey - e')) as Hpow by (apply Z.pow_pos_nonneg; lia).
    assert (IZR (Z.pos mx) * bpow ex =
            IZR (Z.pos mx * 2 ^ (ex - ey - e')) * (bpow e' * bpow ey))%R as Hnum.
    { rewrite mult_IZR, <- bpow_IZR by lia. rewrite Rmult_assoc.
      rewrite <- !bpow_add. do 2 f_equal. lia. }
    pose proof (bpow_pos e') as Hbe'. pose proof (bpow_pos ey) as Hbey.
    assert (0 < bpow e' * bpow ey)%R as Hbb by (by apply Rmult_lt_0_compat).
    assert (IZR q * bpow e' <= v)%R as Hlo'.
    { apply Rdiv_ge; [done|]. rewrite Hnum.
      replace (IZR q * bpow e' * (IZR (Z.pos my) * bpow ey))%R
        with (IZR (q * Z.pos my) * (bpow e' * bpow ey))%R
        by (rewrite mult_IZR; ring).
      apply Rmult_le_compat_r; [lra|]. by apply IZR_le. }
    assert (v < IZR (q + 1) * bpow e')%R as Hhi'.
    { apply Rdiv_lt; [done|]. rewrite Hnum.
      replace (IZR (q + 1) * bpow e' * (IZR (Z.pos my) * bpow ey))%R
        with (IZR ((q + 1) * Z.pos my) * (bpow e' * bpow ey))%R
        by (rewrite mult_IZR; ring).
      apply Rmult_lt_compat_r; [lra|]. by apply IZR_lt. }
    destruct (binary_round_aux_error false q e' l v Hq0 Hcan Hlo' Hhi' Hmax)
      as (Hfin & a & Ha & Ha0 & Herr & _).
    split.
    + apply SF_finite_nonneg_intro; [done|apply binary_round_aux_not_negative].
    + by rewrite Ha.
Qed.

(** *** Comparison *)

(** Doubles of different exponents compare as their exponents do. *)
Lemma SF2R_exponent_lt (ma mb : positive) (ea eb : Z) :
  SpecFloat.valid_binary prec emax (S754_finite false ma ea) = true →
  SpecFloat.valid_binary prec emax (S754_finite false mb eb) = true →
  ea < eb →
  (IZR (Z.pos ma) * bpow ea < IZR (Z.pos mb) * bpow eb)%R.
Proof.
  intros (Hea & Hda & _)%valid_finite_canonical
         (Heb & _ & Hcb)%valid_finite_canonical Hlt.
  pose proof (digits2_pos_bound ma) as Hua.
  pose proof (digits2_pos_lower mb) as Hlb.
  assert (Z.pos (digits2_pos mb) = 53) as Hdb by lia. rewrite Hdb in Hlb.
  assert (Z.pos ma < 2 ^ 53) as Hma.
  { eapply Z.lt_le_trans; [exact Hua|]. apply Z.pow_le_mono_r; lia. }
  pose proof (bpow_pos ea) as Hpa. pose proof (bpow_pos eb) as Hpb.
  assert (IZR (Z.pos ma) * bpow ea < bpow 53 * bpow ea)%R as H1.
  { apply Rmult_lt_compat_r; [done|].
    rewrite bpow_IZR by lia. by apply IZR_lt. }
  assert (bpow 52 * bpow eb <= IZR (Z.pos mb) * bpow eb)%R as H2.
  { apply Rmult_le_compat_r; [lra|].
    rewrite bpow_IZR by lia. by apply IZR_le. }
  assert (bpow 53 * bpow ea <= bpow 52 * bpow eb)%R as H3.
  { rewrite <- !bpow_add. apply bpow_le. lia. }
  lra.
Qed.

Lemma SFcompare_finite (ma mb : positive) (ea eb : Z) :
  SpecFloat.valid_binary prec emax (S754_finite false ma ea) = true →
  SpecFloat.valid_binary prec emax (S754_finite false mb eb) = true →
  let va := (IZR (Z.pos ma) * bpow ea)%R in
  let vb := (IZR (Z.pos mb) * bpow eb)%R in
  match SFcompare (S754_finite false ma ea) (S754_finite false mb eb) with
  | Some Lt => (va < vb)%R
  | Some Eq => va = vb
  | Some Gt => (vb < va)%R
  | None => False
  end.
Proof.
  intros Hva Hvb va vb. simpl SFcompare.
  destruct (Z.compare_spec ea eb) as [Heq|Hlt|Hgt].
  - subst eb. rewrite Pos.compare_cont_spec. simpl Pos.switch_Eq.
    pose proof (bpow_pos ea) as Hp. unfold va, vb.
    destruct (Pos.compare_spec ma mb) as [Hm|Hm|Hm].
    + by subst mb.
    + apply Rmult_lt_compat_r; [done|]. by apply IZR_lt.
    + apply Rmult_lt_compat_r; [done|]. by apply IZR_lt.
  - by apply SF2R_exponent_lt.
  - apply SF2R_exponent_lt; [done|done|lia].
Qed.

Lemma SFleb_spec (a b : spec_float) :
  SpecFloat.valid_binary prec emax a = true →
  SpecFloat.valid_binary prec emax b = true →
  SF_finite_nonneg a = true → SF_finite_nonneg b = true →
  SFleb a b = true ↔ (SF2R a <= SF2R b)%R.
Proof.
  intros Hva Hvb Ha Hb. unfold SFleb.
  destruct a as [sa|sa| |[] ma ea], b as [sb|sb| |[] mb eb]; try done.
  - destruct (SF2R_finite_pos mb eb) as [-> Hp]. simpl. split; [lra|done].
  - destruct (SF2R_finite_pos ma ea) as [-> Hp]. simpl. split; [done|lra].
  - destruct (SF2R_finite_pos ma ea) as [-> _].
    destruct (SF2R_finite_pos mb eb) as [-> _].
    pose proof (SFcompare_finite ma mb ea eb Hva Hvb) as Hc. cbv zeta in Hc.
    destruct (SFcompare _ _) as [[]|]; [| | |done].
    + split; [intros _; lra|done].
    + split; [intros _; lra|done].
    + split; [done|intros; exfalso; lra].
Qed.

(** *** The operations on doubles *)

Lemma value_nonneg (x : float) : plain x → (0 <= value x)%R.
Proof. apply SF2R_nonneg. Qed.

Lemma leb_value (x y : float) :
  plain x → plain y → (x <=? y)%float = true ↔ (value x <= value y)%R.
Proof.
  intros Hx Hy. rewrite leb_spec.
  apply SFleb_spec; try done; apply Prim2SF_valid.
Qed.

(** What the tests [0 <= x] and [x <= c] say of [x], for a finite [c]. *)
Lemma in_range_plain (x c : float) :
  plain c → (0 <=? x)%float = true → (x <=? c)%float = true →
  plain x ∧ (value x <= value c)%R.
Proof.
  intros Hc H0 Hxc.
  assert (plain x) as Hx.
  { revert H0 Hxc Hc. unfold plain. rewrite !leb_spec, Prim2SF_zero.
    destruct (Prim2SF x) as [[]|[]| |[] ? ?]; try done.
    by destruct (Prim2SF c) as [[]|[]| |[] ? ?]. }
  split; [done|]. by apply leb_value.
Qed.

Lemma add_error (x y : float) :
  plain x → plain y → (value x + value y < bpow 1023)%R →
  plain (x + y) ∧
  (Rabs (value (x + y) - (value x + value y))
   <= (value x + value y) * bpow (-52))%R.
Proof.
  intros Hx Hy Hmax. unfold plain, value in *. rewrite add_spec.
  pose proof (SF2R_nonneg _ Hx). pose proof (SF2R_nonneg _ Hy).
  destruct (SFadd_error (Prim2SF x) (Prim2SF y)) as [Hfin Herr];
    try apply Prim2SF_valid; try (by apply SF_finite_nonneg_finite).
  { rewrite Rabs_pos_eq by lra. done. }
  rewrite (Rabs_pos_eq (SF2R (Prim2SF x) + SF2R (Prim2SF y))) in Herr by lra.
  split; [|done].
  apply SF_finite_nonneg_intro; [done|].
  apply SFadd_not_negative.
  - by destruct (Prim2SF x) as [[]|[]| |[] ? ?].
  - by destruct (Prim2SF y) as [[]|[]| |[] ? ?].
Qed.

Lemma mul_error (x y : float) :
  plain x → plain y → (value x * value y < bpow 1023)%R →
  plain (x * y) ∧
  (Rabs (value (x * y) - value x * value y)
   <= value x * value y * bpow (-52) + bpow (-1074))%R.
Proof.
  intros Hx Hy Hmax. unfold plain, value in *. rewrite mul_spec.
  apply SFmul_error; try done; apply Prim2SF_valid.
Qed.

Lemma div_error (x y : float) :
  plain x → plain y → (0 < value y)%R →
  (value x / value y < bpow 1023)%R →
  plain (x / y) ∧
  (Rabs (value (x / y) - value x / value y)
   <= value x / value y * bpow (-52) + bpow (-1074))%R.
Proof.
  intros Hx Hy Hpos Hmax. unfold plain, value in *. rewrite div_spec.
  destruct (Prim2SF y) as [[]|[]| |[] my ey]; try done;
    try (simpl in Hpos; lra).
  by apply SFdiv_error.
Qed.

(** *** Sums *)

Lemma bpow_neg (k : Z) : 0 ≤ k → bpow (- k) = (/ IZR (2 ^ k))%R.
Proof.
  intros Hk. rewrite <- bpow_IZR by done.
  pose proof (bpow_pos k) as Hp. pose proof (bpow_opp k) as Ho.
  apply (Rmult_eq_reg_l (bpow k)); [|lra].
  rewrite Ho. field. lra.
Qed.

Lemma bpow_neg_pos (p : positive) : bpow (Z.neg p) = (/ IZR (2 ^ Z.pos p))%R.
Proof. apply (bpow_neg (Z.pos p)). lia. Qed.

Lemma Rabs_le_between (x y : R) : (Rabs x <= y)%R → (- y <= x <= y)%R.
Proof. unfold Rabs. destruct (Rcase_abs x); lra. Qed.

Lemma eps_small : (0 < bpow (-52) <= 1)%R.
Proof.
  split; [apply bpow_pos|]. change 1%R with (bpow 0). by apply bpow_le.
Qed.

Lemma bpow_double (k : Z) : bpow (k + 1) = (2 * bpow k)%R.
Proof. rewrite bpow_add. change (bpow 1) with (2 * 1)%R. ring. Qed.

Lemma Rsum_nonneg (l : list float) : Forall plain l → (0 <= Rsum l)%R.
Proof.
  induction 1 as [|x l Hx _ IH]; simpl; [lra|].
  pose proof (value_nonneg x Hx). lra.
Qed.

Lemma Rsum_le (l : list float) (c : R) :
  Forall (λ x, value x <= c)%R l → (Rsum l <= INR (length l) * c)%R.
Proof.
  induction 1 as [|x l Hx _ IH]; [simpl; lra|].
  cbn [Rsum foldr length]. fold (Rsum l). rewrite S_INR. lra.
Qed.

(** Left-to-right addition of non-negative doubles: every addition loses
    at most one unit in the last place. *)
Lemma sum_float_from_error (l : list float) :
  ∀ (acc : float) (A lo hi : R),
    plain acc → Forall plain l →
    (0 <= A)%R → (lo <= 1)%R → (1 <= hi)%R →
    (hi + 2 * INR (length l) * bpow (-52) <= 2)%R →
    (lo * A <= value acc <= hi * A)%R →
    (A + Rsum l < bpow 1022)%R →
    plain (foldl PrimFloat.add acc l) ∧
    ((lo - INR (length l) * bpow (-52)) * (A + Rsum l)
     <= value (foldl PrimFloat.add acc l)
     <= (hi + 2 * INR (length l) * bpow (-52)) * (A + Rsum l))%R.
Proof.
  pose proof eps_small as [He0 He1]. set (eps := bpow (-52)) in *.
  induction l as [|x l IH]; intros acc A lo hi Hacc Hl HA Hlo Hhi Hn Hv Hmax.
  - simpl in *. split; [done|].
    replace ((lo - 0 * eps) * (A + 0))%R with (lo * A)%R by ring.
    replace ((hi + 2 * 0 * eps) * (A + 0))%R with (hi * A)%R by ring. done.
  - apply Forall_cons in Hl as [Hx Hl].
    cbn [foldl length Rsum foldr] in *. fold (Rsum l) in *.
    rewrite S_INR in Hn |- *.
    pose proof (value_nonneg x Hx) as Hx0.
    pose proof (value_nonneg acc Hacc) as Hacc0.
    pose proof (Rsum_nonneg l Hl) as Hl0.
    pose proof (pos_INR (length l)) as Hlen.
    assert (0 <= INR (length l) * eps)%R as Hne by (apply Rmult_le_pos; lra).
    assert (hi <= 2)%R as Hhi2 by lra.
    assert (value x <= hi * value x)%R as H1.
    { rewrite <- (Rmult_1_l (value x)) at 1. apply Rmult_le_compat_r; lra. }
    assert (lo * value x <= value x)%R as H2.
    { rewrite <- (Rmult_1_l (value x)) at 2. apply Rmult_le_compat_r; lra. }
    assert (hi * (A + value x) <= 2 * (A + value x))%R as H3
      by (apply Rmult_le_compat_r; lra).
    rewrite Rmult_plus_distr_l in H3.
    assert (bpow 1023 = 2 * bpow 1022)%R as H1023 by (apply (bpow_double 1022)).
    destruct (add_error acc x Hacc Hx) as [Hp Herr]; [lra|].
    apply Rabs_le_between in Herr. fold eps in Herr.
    set (T := (value acc + value x)%R) in *.
    assert (0 <= T)%R as HT0 by (unfold T; lra).
    assert (T * eps <= hi * (A + value x) * eps)%R as H4.
    { apply Rmult_le_compat_r; [lra|]. unfold T. lra. }
    assert (hi * (A + value x) * eps <= 2 * (A + value x) * eps)%R as H5.
    { apply Rmult_le_compat_r; [lra|]. lra. }
    assert (lo * (A + value x) * eps <= (A + value x) * eps)%R as H6.
    { apply Rmult_le_compat_r; [lra|].
      rewrite <- (Rmult_1_l (A + value x)) at 2.
      apply Rmult_le_compat_r; lra. }
    assert (0 <= (T - lo * (A + value x)) * (1 - eps))%R as H7.
    { apply Rmult_le_pos; [unfold T|]; lra. }
    destruct (IH (acc + x)%float (A + value x)%R (lo - eps)%R (hi + 2 * eps)%R)
      as [Hres Hbounds]; try done; try lra.
    + split.
      * replace ((lo - eps) * (A + value x))%R
          with (lo * (A + value x) - (A + value x) * eps)%R by ring.
        replace ((T - lo * (A + value x)) * (1 - eps))%R
          with (T - T * eps - lo * (A + value x)
                + lo * (A + value x) * eps)%R in H7 by ring.
        lra.
      * replace ((hi + 2 * eps) * (A + value x))%R
          with (hi * (A + value x) + 2 * (A + value x) * eps)%R by ring.
        unfold T in *. lra.
    + split; [done|].
      replace (A + (value x + Rsum l))%R with (A + value x + Rsum l)%R by ring.
      replace (lo - (INR (length l) + 1) * eps)%R
        with (lo - eps - INR (length l) * eps)%R by ring.
      replace (hi + 2 * (INR (length l) + 1) * eps)%R
        with (hi + 2 * eps + 2 * INR (length l) * eps)%R by ring.
      done.
Qed.

Lemma sum_float_error (l : list float) :
  Forall plain l → (2 * INR (length l) * bpow (-52) <= 1)%R →
  (Rsum l < bpow 1022)%R →
  plain (Py.sum_float l) ∧
  ((1 - INR (length l) * bpow (-52)) * Rsum l
   <= value (Py.sum_float l)
   <= (1 + 2 * INR (length l) * bpow (-52)) * Rsum l)%R.
Proof.
  intros Hl Hn Hmax. unfold Py.sum_float.
  assert (plain 0%float) as H0 by done.
  assert (value 0%float = 0%R) as Hv0
    by (unfold value; rewrite Prim2SF_zero; done).
  assert (1 * 0 <= value 0%float <= 1 * 0)%R as H1 by (rewrite Hv0; lra).
  assert (0 + Rsum l < bpow 1022)%R as H2 by lra.
  assert (1 + 2 * INR (length l) * bpow (-52) <= 2)%R as H3 by lra.
  destruct (sum_float_from_error l 0%float 0%R 1%R 1%R H0 Hl
              ltac:(lra) ltac:(lra) ltac:(lra) H3 H1 H2) as [Hp Hb].
  split; [done|]. by rewrite Rplus_0_l in Hb.
Qed.

(** *** The tolerance test and the products *)

Lemma SF2R_abs (f : spec_float) : SF2R (SFabs f) = Rabs (SF2R f).
Proof.
  destruct f as [s|s| |s m e]; simpl; rewrite ?Rabs_R0; try done.
  pose proof (bpow_pos e). assert (0 < IZR (Z.pos m))%R by (by apply IZR_lt).
  assert (0 < IZR (Z.pos m) * bpow e)%R by (by apply Rmult_lt_0_compat).
  destruct s.
  - replace (-1 * IZR (Z.pos m) * bpow e)%R
      with (- (IZR (Z.pos m) * bpow e))%R by ring.
    rewrite Rabs_Ropp, Rabs_pos_eq by lra. ring.
  - rewrite Rabs_pos_eq by lra. done.
Qed.

Lemma value_cent : value 0.01 = (5764607523034235 / 576460752303423488)%R.
Proof.
  unfold value.
  assert (Prim2SF 0.01 = S754_finite false 5764607523034235 (-59)) as ->
    by (vm_compute; reflexivity).
  cbn [SF2R]. rewrite (bpow_neg_pos 59).
  change (2 ^ 59) with 576460752303423488. lra.
Qed.

Lemma value_1e9 : value 1e9 = 1000000000%R.
Proof.
  unfold value.
  assert (Prim2SF 1e9 = S754_finite false 8388608000000000 (-23)) as ->
    by (vm_compute; reflexivity).
  cbn [SF2R]. rewrite (bpow_neg_pos 23).
  change (2 ^ 23) with 8388608. lra.
Qed.

Lemma bpow_40_le (k : Z) : 40 ≤ k → (1099511627776 <= bpow k)%R.
Proof.
  intros Hk. change 1099511627776%R with (IZR (2 ^ 40)).
  rewrite <- bpow_IZR by lia. by apply bpow_le.
Qed.

(** Two non-negative finite doubles whose values differ by at most 0.009
    pass [close_enough]. *)
Lemma close_enough_of_value (a b : float) :
  plain a → plain b →
  (value a < bpow 1022)%R → (value b < bpow 1022)%R →
  (Rabs (value a - value b) <= 9 / 1000)%R →
  close_enough a b = true.
Proof.
  intros Ha Hb Hamax Hbmax Hclose. unfold close_enough.
  pose proof (value_nonneg a Ha) as Ha0. pose proof (value_nonneg b Hb) as Hb0.
  pose proof (bpow_double 1022) as H1023. change (1022 + 1) with 1023 in H1023.
  pose proof (bpow_pos 1022) as H1022.
  destruct (SFsub_error (Prim2SF a) (Prim2SF b)) as [Hfin Herr];
    try apply Prim2SF_valid; try (by apply SF_finite_nonneg_finite).
  { fold (value a) (value b). apply Rabs_def1; lra. }
  fold (value a) (value b) in Herr.
  rewrite leb_spec, abs_spec, sub_spec.
  apply SFleb_spec.
  - rewrite <- sub_spec, <- abs_spec. apply Prim2SF_valid.
  - apply Prim2SF_valid.
  - by destruct (SF64sub (Prim2SF a) (Prim2SF b)).
  - by vm_compute.
  - rewrite SF2R_abs. fold (value 0.01). rewrite value_cent.
    set (z := SF2R (SF64sub (Prim2SF a) (Prim2SF b))) in *.
    set (d := (value a - value b)%R) in *.
    assert (bpow (-52) = / 4503599627370496)%R as Heps
      by (rewrite (bpow_neg_pos 52); done).
    rewrite Heps in Herr.
    assert (Rabs z <= Rabs d + Rabs d * / 4503599627370496)%R as Hz.
    { replace z with ((z - d) + d)%R by ring.
      etrans; [apply Rabs_triang|]. lra. }
    lra.
Qed.

(** The products of the scaling loop, against the exact products. *)
Lemma scaled_error (xs : list float) (f : float) (c : R) :
  plain f → Forall (λ x, plain x ∧ (value x <= c)%R) xs →
  (c * value f < bpow 1023)%R →
  let ys := map (λ a, (a * f)%float) xs in
  Forall plain ys ∧
  (Rabs (Rsum ys - Rsum xs * value f)
   <= Rsum xs * value f * bpow (-52) + INR (length xs) * bpow (-1074))%R.
Proof.
  intros Hf Hxs Hmax. pose proof (value_nonneg f Hf) as Hf0.
  induction Hxs as [|x xs [Hx Hxc] Hxs IH].
  - simpl. split; [done|]. rewrite !Rmult_0_l, Rminus_diag, Rabs_R0. lra.
  - destruct IH as [IHp IHe].
    cbn [map Rsum foldr length]. fold (Rsum xs).
    fold (Rsum (map (λ a, (a * f)%float) xs)).
    pose proof (value_nonneg x Hx) as Hx0.
    assert (value x * value f <= c * value f)%R as Hle
      by (by apply Rmult_le_compat_r).
    destruct (mul_error x f Hx Hf) as [Hp He]; [lra|].
    split; [by constructor|].
    rewrite S_INR.
    apply Rabs_le_between in He. apply Rabs_le_between in IHe.
    apply Rabs_le.
    set (Y := Rsum (map (λ a, (a * f)%float) xs)) in *.
    set (X := Rsum xs) in *. set (y := value (x * f)) in *.
    replace ((value x + X) * value f)%R
      with (value x * value f + X * value f)%R by ring.
    replace ((value x * value f + X * value f) * bpow (-52))%R
      with (value x * value f * bpow (-52) + X * value f * bpow (-52))%R
      by ring.
    lra.
Qed.

(** *** The scaled sum *)

(** The arithmetic of the scaling on real numbers: [X] the exact sum of
    the entries, [s] its computed value, [q] the exact quotient [t / s],
    [vf] the computed factor, [Y] the exact sum of the computed products
    and [S'] its computed value. *)
Lemma scaled_sum_close (n X s t q vf Y S' : R) :
  (0 <= n <= 1000)%R → (0 <= X <= 1000000000000)%R → (/ 128 <= s)%R →
  (0 <= t <= 1000000000)%R → (0 <= Y)%R →
  ((1 - n * bpow (-52)) * X <= s <= (1 + 2 * n * bpow (-52)) * X)%R →
  (q * s = t)%R →
  (Rabs (vf - q) <= q * bpow (-52) + bpow (-1074))%R →
  (Rabs (Y - X * vf) <= X * vf * bpow (-52) + n * bpow (-1074))%R →
  ((1 - n * bpow (-52)) * Y <= S' <= (1 + 2 * n * bpow (-52)) * Y)%R →
  (Rabs (S' - t) <= 9 / 1000)%R.
Proof.
  intros Hn HX Hs Ht HY Hsum Hq Hvf HYe HS'.
  assert (bpow (-52) = / 4503599627370496)%R as Heps
    by (rewrite (bpow_neg_pos 52); done).
  rewrite Heps in *.
  set (eta := bpow (-1074)) in *.
  assert (0 < eta <= / 1152921504606846976)%R as Heta.
  { split; [apply bpow_pos|].
    change (/ 1152921504606846976)%R with (/ IZR (2 ^ 60))%R.
    rewrite <- (bpow_neg_pos 60). by apply bpow_le. }
  set (al := (/ 1099511627776)%R).
  assert (0 <= (al - 2 * n * / 4503599627370496) * X)%R as H1
    by (apply Rmult_le_pos; unfold al; lra).
  assert (0 <= (al - 2 * n * / 4503599627370496) * Y)%R as H2
    by (apply Rmult_le_pos; unfold al; lra).
  assert (0 <= n * / 4503599627370496 * X)%R as H3
    by (apply Rmult_le_pos; [|lra]; lra).
  assert (0 <= n * / 4503599627370496 * Y)%R as H4
    by (apply Rmult_le_pos; [|lra]; lra).
  assert ((1 - al) * X <= s <= (1 + al) * X)%R as Hs'.
  { replace ((al - 2 * n * / 4503599627370496) * X)%R
      with (al * X - 2 * (n * / 4503599627370496 * X))%R in H1 by ring.
    replace ((1 - n * / 4503599627370496) * X)%R
      with (X - n * / 4503599627370496 * X)%R in Hsum by ring.
    replace ((1 + 2 * n * / 4503599627370496) * X)%R
      with (X + 2 * (n * / 4503599627370496 * X))%R in Hsum by ring.
    replace ((1 - al) * X)%R with (X - al * X)%R by ring.
    replace ((1 + al) * X)%R with (X + al * X)%R by ring. lra. }
  assert ((1 - al) * Y <= S' <= (1 + al) * Y)%R as HS''.
  { replace ((al - 2 * n * / 4503599627370496) * Y)%R
      with (al * Y - 2 * (n * / 4503599627370496 * Y))%R in H2 by ring.
    replace ((1 - n * / 4503599627370496) * Y)%R
      with (Y - n * / 4503599627370496 * Y)%R in HS' by ring.
    replace ((1 + 2 * n * / 4503599627370496) * Y)%R
      with (Y + 2 * (n * / 4503599627370496 * Y))%R in HS' by ring.
    replace ((1 - al) * Y)%R with (Y - al * Y)%R by ring.
    replace ((1 + al) * Y)%R with (Y + al * Y)%R by ring. lra. }
  clear Hsum HS' H1 H2 H3 H4.
  assert (0 < s)%R as Hs0 by lra.
  (* the exact product [w = X * q] against [t] *)
  set (w := (X * q)%R).
  assert (w * s = X * t)%R as Hw by (unfold w; rewrite <- Hq; ring).
  assert (0 <= q)%R as Hq0.
  { apply (Rmult_le_reg_r s); [done|]. rewrite Hq. lra. }
  assert ((1 - al) * t <= w <= (1 + 2 * al) * t)%R as Hwt.
  { split.
    - apply (Rmult_le_reg_r s); [done|]. rewrite Hw.
      assert (0 <= t * (X - (1 - al) * s))%R as Hp.
      { apply Rmult_le_pos; [lra|]. unfold al in *. lra. }
      lra.
    - apply (Rmult_le_reg_r s); [done|]. rewrite Hw.
      assert (0 <= t * ((1 + 2 * al) * s - X))%R as Hp.
      { apply Rmult_le_pos; [lra|]. unfold al in *. lra. }
      lra. }
  (* the computed factor times [X] *)
  set (P := (X * vf)%R) in *.
  apply Rabs_le_between in Hvf.
  assert (w - (w * / 4503599627370496 + X * eta) <= P
          <= w + (w * / 4503599627370496 + X * eta))%R as HP.
  { unfold P, w. split.
    - replace (X * q - (X * q * / 4503599627370496 + X * eta))%R
        with (X * (q - (q * / 4503599627370496 + eta)))%R by ring.
      apply Rmult_le_compat_l; lra.
    - replace (X * q + (X * q * / 4503599627370496 + X * eta))%R
        with (X * (q + (q * / 4503599627370496 + eta)))%R by ring.
      apply Rmult_le_compat_l; lra. }
  assert (0 <= X * eta <= / 1000000)%R as HXe.
  { split; [apply Rmult_le_pos; lra|].
    assert (X * eta <= 1000000000000 * eta)%R
      by (apply Rmult_le_compat_r; lra).
    lra. }
  assert (0 <= n * eta <= / 1000000)%R as Hne.
  { split; [apply Rmult_le_pos; lra|].
    assert (n * eta <= 1000 * eta)%R by (apply Rmult_le_compat_r; lra).
    lra. }
  apply Rabs_le_between in HYe.
  apply Rabs_le. unfold al in *. lra.
Qed.

Lemma amount_in_range_value (a : float) :
  amount_in_range a → plain a ∧ (value a <= 1000000000)%R.
Proof.
  intros [H0 H1]. rewrite <- value_1e9. by apply in_range_plain.
Qed.

(** [SCALE_FIX] on at most 1000 amounts between 0 and 1e9 that add up to
    0.01 or more, for a total between 0 and 1e9: the sum is positive, and
    the scaled amounts add up to the total within the tolerance. *)
Lemma scaled_sum_within_tolerance (xs : list float) (t : float) :
  (length xs ≤ 1000)%nat → Forall amount_in_range xs →
  (0.01 <=? Py.sum_float xs)%float = true → amount_in_range t →
  let s := Py.sum_float xs in
  (s <=? 0)%float = false ∧
  close_enough (Py.sum_float (map (λ a, (a * (t / s))%float) xs)) t = true.
Proof.
  intros Hlen Hxs Hsum Ht s. fold s in Hsum.
  set (n := INR (length xs)).
  assert (0 <= n <= 1000)%R as Hn.
  { split; [apply pos_INR|]. unfold n.
    rewrite INR_IZR_INZ. apply IZR_le. lia. }
  assert (bpow (-52) = / 4503599627370496)%R as Heps
    by (rewrite (bpow_neg_pos 52); done).
  pose proof (bpow_40_le 1022 ltac:(lia)) as H1022.
  pose proof (bpow_double 1022) as H1023. change (1022 + 1) with 1023 in H1023.
  assert (0 < bpow (-1074) <= / 1152921504606846976)%R as Heta.
  { split; [apply bpow_pos|].
    change (/ 1152921504606846976)%R with (/ IZR (2 ^ 60))%R.
    rewrite <- (bpow_neg_pos 60). by apply bpow_le. }
  (* the entries *)
  assert (Forall (λ x, plain x ∧ (value x <= 1000000000)%R) xs) as Hxs'.
  { eapply Forall_impl; [exact Hxs|]. intros a. apply amount_in_range_value. }
  assert (Forall plain xs) as Hpl
    by (eapply Forall_impl; [exact Hxs'|]; by intros a [? ?]).
  assert (Forall (λ x, value x <= 1000000000)%R xs) as Hle
    by (eapply Forall_impl; [exact Hxs'|]; by intros a [? ?]).
  pose proof (Rsum_nonneg xs Hpl) as HX0.
  pose proof (Rsum_le xs _ Hle) as HXle. fold n in HXle.
  set (X := Rsum xs) in *.
  assert (X <= 1000000000000)%R as HX.
  { assert (n * 1000000000 <= 1000 * 1000000000)%R
      by (apply Rmult_le_compat_r; lra). lra. }
  (* their sum *)
  destruct (sum_float_error xs Hpl) as [Hsp Hsb].
  { fold n. rewrite Heps. lra. }
  { fold X. lra. }
  fold n X s in Hsp, Hsb.
  assert (/ 128 <= value s)%R as Hs128.
  { apply leb_value in Hsum; [|done|done]. rewrite value_cent in Hsum. lra. }
  assert ((s <=? 0)%float = false) as Hnz.
  { destruct (s <=? 0)%float eqn:Hle0; [|done]. exfalso.
    apply leb_value in Hle0; [|done|done].
    unfold value in Hle0 at 2. rewrite Prim2SF_zero in Hle0. simpl in Hle0. lra. }
  split; [done|].
  (* the total and the factor *)
  destruct (amount_in_range_value t Ht) as [Htp Htle].
  pose proof (value_nonneg t Htp) as Ht0.
  set (q := (value t / value s)%R).
  assert (q * value s = value t)%R as Hq by (unfold q; field; lra).
  assert (0 <= q <= 128000000000)%R as Hqb.
  { split.
    - apply (Rmult_le_reg_r (value s)); [lra|]. rewrite Hq. lra.
    - apply (Rmult_le_reg_r (value s)); [lra|]. rewrite Hq.
      assert (128000000000 * / 128 <= 128000000000 * value s)%R
        by (apply Rmult_le_compat_l; lra). lra. }
  destruct (div_error t s Htp Hsp) as [Hfp Hfe]; [lra|fold q; lra|].
  fold q in Hfe. pose proof Hfe as Hfe'. rewrite Heps in Hfe.
  set (f := (t / s)%float) in *.
  pose proof (value_nonneg f Hfp) as Hf0.
  assert (value f <= 128000000002)%R as Hfle.
  { apply Rabs_le_between in Hfe. lra. }
  (* the products and their sum *)
  destruct (scaled_error xs f 1000000000%R Hfp Hxs') as [Hyp Hye].
  { assert (1000000000 * value f <= 1000000000 * 128000000002)%R
      by (apply Rmult_le_compat_l; lra).
    assert (1000000000 * 128000000002 <= 1099511627776 * 1099511627776)%R
      by lra.
    pose proof (bpow_40_le 40 ltac:(lia)) as H40.
    assert (bpow 40 * bpow 40 <= bpow 1023)%R
      by (rewrite <- bpow_add; apply bpow_le; lia).
    pose proof (bpow_pos 40).
    assert (1099511627776 * 1099511627776 <= bpow 40 * bpow 40)%R
      by (apply Rmult_le_compat; lra).
    lra. }
  fold n X in Hye.
  set (ys := map (λ a, (a * f)%float) xs) in *.
  pose proof (Rsum_nonneg ys Hyp) as HY0.
  set (Y := Rsum ys) in *.
  assert (X * value f <= 1000000000000 * 128000000002)%R as HXf
    by (apply Rmult_le_compat; lra).
  assert (0 <= X * value f)%R as HXf0 by (apply Rmult_le_pos; lra).
  assert (n * bpow (-1074) <= 1)%R as Hne.
  { assert (n * bpow (-1074) <= 1000 * bpow (-1074))%R
      by (apply Rmult_le_compat_r; lra). lra. }
  assert (Y <= 1099511627776 * 1099511627776)%R as HYle.
  { apply Rabs_le_between in Hye. rewrite Heps in Hye.
    assert (0 <= X * value f * / 4503599627370496 <= X * value f)%R by lra.
    lra. }
  assert (Y < bpow 1022)%R as HYmax.
  { pose proof (bpow_40_le 40 ltac:(lia)) as H40.
    assert (bpow 40 * bpow 40 <= bpow 1021)%R
      by (rewrite <- bpow_add; apply bpow_le; lia).
    pose proof (bpow_pos 40).
    assert (1099511627776 * 1099511627776 <= bpow 40 * bpow 40)%R
      by (apply Rmult_le_compat; lra).
    pose proof (bpow_double 1021) as H21. change (1021 + 1) with 1022 in H21.
    pose proof (bpow_pos 1021). lra. }
  destruct (sum_float_error ys Hyp) as [HSp HSb].
  { unfold ys. rewrite length_map. fold n. rewrite Heps. lra. }
  { done. }
  assert (length ys = length xs) as Hlen' by (unfold ys; apply length_map).
  rewrite Hlen' in HSb. fold n Y in HSb.
  (* together *)
  assert (Rabs (value (Py.sum_float ys) - value t) <= 9 / 1000)%R as Hclose.
  { exact (scaled_sum_close n X (value s) (value t) q (value f) Y _
             Hn (conj HX0 HX) Hs128 (conj Ht0 Htle) HY0 Hsb Hq Hfe' Hye HSb). }
  apply close_enough_of_value; try done.
  - pose proof (value_nonneg _ HSp).
    assert (n * bpow (-52) <= 1)%R by (rewrite Heps; lra).
    assert ((1 + 2 * n * bpow (-52)) * Y <= 3 * Y)%R
      by (apply Rmult_le_compat_r; lra).
    pose proof (bpow_40_le 40 ltac:(lia)) as H40.
    assert (bpow 40 * bpow 40 <= bpow 1020)%R
      by (rewrite <- bpow_add; apply bpow_le; lia).
    pose proof (bpow_pos 40).
    assert (1099511627776 * 1099511627776 <= bpow 40 * bpow 40)%R
      by (apply Rmult_le_compat; lra).
    pose proof (bpow_double 1020) as H20. change (1020 + 1) with 1021 in H20.
    pose proof (bpow_double 1021) as H21. change (1021 + 1) with 1022 in H21.
    pose proof (bpow_pos 1020). lra.
  - lra.
Qed.

(** ** Mismatch resolution *)

Lemma float_pos_not_le_zero (y : float) :
  (0 <? y)%float = true → (y <=? 0)%float = false.
Proof.
  rewrite ltb_spec, leb_spec, Prim2SF_zero.
  by destruct (Prim2SF y) as [[]|[]| |[] ? ?].
Qed.

(** After [SCALE_FIX] the new sum can miss the total by more than the
    tolerance: with a total of 1e15 and the entries 3 and 4, the scaled
    entries add up to 999999999999999.875, which is 0.125 away. *)
Lemma scale_fix_sum_off_tolerance :
  let s := mkSession "SGD" 1e15 0 0 2
             [("Alice", 3%float); ("Bob", 4%float)] [] None in
  let S : Sessions := {[ 7 := s ]} in
  (0 <? Py.sum_float (people s).*2)%float = true ∧
  ∃ s', (mismatch_fix_cb S 7 SCALE_FIX).1 !! 7 = Some s' ∧
        total s' = 1e15%float ∧
        Py.sum_float (people s').*2 = 999999999999999.875%float ∧
        (PrimFloat.abs (total s' - Py.sum_float (people s').*2) <=? 0.01)%float
          = false ∧
        check_balance (people s') (total s') = Mismatched 0.125%float.
Proof.
  split; [reflexivity|].
  eexists. split; [vm_compute; reflexivity|].
  repeat split; vm_compute; reflexivity.
Qed.

(** Nor does a small total help when the entries are tiny: with a total
    of 100 and the single entry 1e-320 the factor overflows, and the entry
    becomes infinite. *)
Example scale_fix_factor_overflows :
  let s := mkSession "SGD" 100 0 0 1 [("Alice", 1e-320%float)] [] None in
  let S : Sessions := {[ 7 := s ]} in
  people <$> (mismatch_fix_cb S 7 SCALE_FIX).1 !! 7 = Some [("Alice", infinity)].
Proof. vm_compute. reflexivity. Qed.

Lemma scaled_amounts (factor : float) (d : list (string * float)) :
  (map (λ '(n, a), (n, (a * factor)%float)) d).*2 =
  map (λ a, (a * factor)%float) d.*2.
Proof. induction d as [|[n a] d IH]; simpl; [done|]. f_equal. exact IH. Qed.

(** C6, amended.  With distinct names in the session's entries,
    [SCALE_FIX] answers that it cannot scale and leaves the store as it
    is when [sum(entries) <= 0]; when [sum(entries) > 0] it replaces every
    subtotal [a], in place, by [a * (total / sum(entries))].  For a bill
    of at most 1000 entries, with every subtotal and the total between 0
    and 1e9 and entries that add up to 0.01 or more, the subtotals then
    add up to the total within the tolerance 0.01, so that the balance
    check of [calculate] passes. *)
Theorem scale_fix_multiplies (S : Sessions) (chat_id : Z) (s : Session) :
  S !! chat_id = Some s → NoDup (people s).*1 →
  let sum_custom := Py.sum_float (people s).*2 in
  ((sum_custom <=? 0)%float = true →
   mismatch_fix_cb S chat_id SCALE_FIX = (S, CannotScale)) ∧
  ((0 <? sum_custom)%float = true →
   mismatch_fix_cb S chat_id SCALE_FIX =
     (<[chat_id :=
          with_people
            (map (λ '(n, a), (n, (a * (total s / sum_custom))%float)) (people s))
            s]> S,
      Scaled)) ∧
  (within_scale_bounds s →
   ∃ s', (mismatch_fix_cb S chat_id SCALE_FIX).1 !! chat_id = Some s' ∧
         total s' = total s ∧
         close_enough (Py.sum_float (people s').*2) (total s') = true ∧
         check_balance (people s') (total s') = Balanced).
Proof.
  intros Hs Hnd sum_custom. unfold mismatch_fix_cb.
  rewrite (get_session_active _ _ s) by done. fold sum_custom.
  split; [|split].
  - by intros ->.
  - intros Hpos. rewrite (float_pos_not_le_zero _ Hpos).
    rewrite truediv_pos by done. by rewrite scale_people_map.
  - intros (Hlen & Hent & Hsum & Htot).
    destruct (scaled_sum_within_tolerance (people s).*2 (total s))
      as [Hnz Hclose]; [by rewrite length_fmap|done|done|done|].
    fold sum_custom in Hnz, Hclose. rewrite Hnz.
    rewrite truediv_not_le_zero, scale_people_map by done.
    eexists. split; [apply lookup_insert_eq|].
    cbn [total people with_people]. rewrite scaled_amounts.
    split; [done|]. split; [done|].
    apply check_balance_close_enough.
    cbn [total people with_people]. by rewrite scaled_amounts.
Qed.

Lemma scale_fix_multiplies_witness :
  let s := mkSession "SGD" 100 0 0 2
             [("Alice", 60%float); ("Bob", 30%float)] [] None in
  let S : Sessions := {[ 7 := s ]} in
  mismatch_fix_cb S 7 SCALE_FIX =
    (<[7 := with_people
              [("Alice", (60 * (100 / 90))%float);
               ("Bob", (30 * (100 / 90))%float)] s]> S,
     Scaled) ∧
  ∃ s', (mismatch_fix_cb S 7 SCALE_FIX).1 !! 7 = Some s' ∧
        total s' = 100%float ∧
        close_enough (Py.sum_float (people s').*2) (total s') = true ∧
        check_balance (people s') (total s') = Balanced.
Proof.
  intros s S.
  assert (NoDup (people s).*1) as Hnd
    by (apply (bool_decide_unpack _); vm_compute; reflexivity).
  assert (within_scale_bounds s) as Hb.
  { split; [simpl; lia|]. split; [|split; [reflexivity|split; reflexivity]].
    repeat constructor; reflexivity. }
  destruct (scale_fix_multiplies S 7 s eq_refl Hnd) as (_ & H2 & H3).
  split; [exact (H2 eq_refl)|exact (H3 Hb)].
Defined.

(** With a sum of entries that is not finite, [TOTAL_TO_SUM] does not
    lead to a balanced session: 1e308 + 1e308 overflows to infinity, the
    total becomes infinity, and [inf - inf] is NaN. *)
Lemma adopt_sum_not_balanced :
  let s := mkSession "SGD" 5 0 0 2
             [("Alice", 1e308%float); ("Bob", 1e308%float)] [] None in
  let S : Sessions := {[ 7 := s ]} in
  ∃ s', (mismatch_fix_cb S 7 TOTAL_TO_SUM).1 !! 7 = Some s' ∧
        people s' = people s ∧
        total s' = Py.sum_float (people s).*2 ∧
        total s' = infinity ∧
        check_balance (people s') (total s') = Mismatched nan.
Proof.
  eexists. split; [vm_compute; reflexivity|].
  repeat split; vm_compute; reflexivity.
Qed.

(** C7, amended.  [TOTAL_TO_SUM] overwrites the total with the current
    sum of the subtotals and leaves the entries alone; when that sum is a
    finite number, the balance test on the new session answers
    [Balanced]. *)
Theorem adopt_sum_balances (S : Sessions) (chat_id : Z) (s : Session) :
  S !! chat_id = Some s →
  Py.isfinite (Py.sum_float (people s).*2) = true →
  let sum_custom := Py.sum_float (people s).*2 in
  let s' := with_total sum_custom s in
  mismatch_fix_cb S chat_id TOTAL_TO_SUM =
    (<[chat_id := s']> S, TotalSetToSum sum_custom) ∧
  total s' = sum_custom ∧
  people s' = people s ∧
  check_balance (people s') (total s') = Balanced.
Proof.
  intros Hs Hfin sum_custom s'. unfold mismatch_fix_cb.
  rewrite (get_session_active _ _ s) by done.
  repeat split.
  apply check_balance_close_enough. simpl. by apply close_enough_refl.
Qed.

Lemma adopt_sum_balances_witness :
  let s := mkSession "SGD" 100 9 10 2
             [("Alice", 60%float); ("Bob", 30%float)] [] None in
  let S : Sessions := {[ 7 := s ]} in
  check_balance (people s) (total s) = Mismatched 10%float ∧
  mismatch_fix_cb S 7 TOTAL_TO_SUM =
    (<[7 := with_total 90 s]> S, TotalSetToSum 90) ∧
  check_balance (people (with_total 90 s)) (total (with_total 90 s)) = Balanced.
Proof.
  intros s S.
  destruct (adopt_sum_balances S 7 s eq_refl eq_refl) as (H1 & _ & _ & H2).
  split; [reflexivity|]. split; [exact H1|exact H2].
Defined.

(** ** Adding and replacing entries *)

(** C8.  For a non-negative amount, [/addamount] stores the previous
    subtotal of the name (0.0 when the name is new, then appended last)
    plus the amount, and touches no other entry; [/editamount] stores the
    amount itself when the name is present, and answers that the name is
    not in the list, entries unchanged, when it is absent.  Adding 10 and
    then 5 for Alice gives 15; replacing by 5 afterwards gives 5. *)
Theorem addamount_adds_editamount_replaces (py_float : string → option float)
    (S : Sessions) (chat_id mid : Z) (s : Session)
    (name text : string) (rest : list string) (amount : float) :
  S !! chat_id = Some s → py_float text = Some amount →
  (amount <? 0)%float = false →
  let args := name :: text :: rest in
  let prev := default 0%float (dict_get name (people s)) in
  (∃ s', (addamount py_float S chat_id args mid).1 !! chat_id = Some s' ∧
         (addamount py_float S chat_id args mid).2 =
           Added name amount (prev + amount)%float ∧
         dict_get name (people s') = Some (prev + amount)%float ∧
         (∀ other, other ≠ name →
                   dict_get other (people s') = dict_get other (people s)) ∧
         (dict_mem name (people s) = false →
          people s' = people s ++ [(name, (0 + amount)%float)])) ∧
  (dict_mem name (people s) = true →
   ∃ s', (editamount py_float S chat_id args mid).1 !! chat_id = Some s' ∧
         (editamount py_float S chat_id args mid).2 = Updated name amount ∧
         dict_get name (people s') = Some amount ∧
         (∀ other, other ≠ name →
                   dict_get other (people s') = dict_get other (people s))) ∧
  (dict_mem name (people s) = false →
   editamount py_float S chat_id args mid =
     (send_and_track S chat_id mid, NotInList name) ∧
   people <$> send_and_track S chat_id mid !! chat_id = Some (people s)) ∧
  (let S0 : Sessions := {[ 7 := fresh_session ]} in
   let S1 := (addamount float_lit S0 7 ["Alice"; "10"] 1).1 in
   let S2 := (addamount float_lit S1 7 ["Alice"; "5"] 2).1 in
   let S3 := (editamount float_lit S2 7 ["Alice"; "5"] 3).1 in
   people <$> S2 !! 7 = Some [("Alice", 15%float)] ∧
   people <$> S3 !! 7 = Some [("Alice", 5%float)] ∧
   (editamount float_lit S0 7 ["Alice"; "5"] 3).2 = NotInList "Alice").
Proof.
  intros Hs Hp Hneg args prev. split; [|split; [|split]].
  - unfold addamount, args. rewrite Hs, Hp, Hneg. fold prev. simpl.
    eexists. split.
    { erewrite send_and_track_lookup; [done|]. apply lookup_insert_eq. }
    split; [done|]. simpl. split; [apply dict_get_set_eq|].
    split; [intros other Hne; by apply dict_get_set_ne|].
    unfold dict_mem, prev. destruct (dict_get name (people s)) eqn:Hg; [done|].
    intros _. simpl. apply dict_set_absent. by apply dict_get_None.
  - intros Hmem. unfold editamount, args. rewrite Hs, Hp, Hneg, Hmem. simpl.
    eexists. split.
    { erewrite send_and_track_lookup; [done|]. apply lookup_insert_eq. }
    split; [done|]. simpl. split; [apply dict_get_set_eq|].
    intros other Hne. by apply dict_get_set_ne.
  - intros Hmem. unfold editamount, args. rewrite Hs, Hp, Hneg, Hmem. simpl.
    split; [done|]. by erewrite send_and_track_lookup.
  - repeat split; vm_compute; reflexivity.
Qed.

Lemma addamount_adds_editamount_replaces_witness :
  let s := mkSession "SGD" 100 9 10 2 [("Alice", 10%float)] [] None in
  let S : Sessions := {[ 7 := s ]} in
  ∃ s', (addamount float_lit S 7 ["Alice"; "5"] 1).1 !! 7 = Some s' ∧
        dict_get "Alice" (people s') = Some (10 + 5)%float.
Proof.
  intros s S.
  destruct (addamount_adds_editamount_replaces float_lit S 7 1 s "Alice" "5" []
              5%float eq_refl eq_refl eq_refl)
    as ((s' & H1 & _ & H2 & _) & _).
  exists s'. split; [exact H1|exact H2].
Defined.

(** ** Equal split *)

Lemma calculate_without_entries (S : Sessions) (chat_id mid : Z) (s : Session) :
  S !! chat_id = Some s → people s = [] →
  calculate S chat_id mid = calculate_equal S chat_id s mid.
Proof. intros Hs Hp. unfold calculate. by rewrite Hs, Hp. Qed.

(** C9.  Without entries and with a positive number of people [n] (one
    that converts to a float [nf]), [calculate] reports
    [gst_amt = total * (gst / 100)], [svc_amt = total * (service / 100)],
    [grand = total + gst_amt + svc_amt] and the single quotient
    [grand / n]; the allocator is not involved.  A total of 50 with no GST,
    10% service and 4 people gives a grand total of 55 and 13.75 each. *)
Theorem calculate_equal_split (S : Sessions) (chat_id mid : Z) (s : Session)
    (nf : float) :
  S !! chat_id = Some s → people s = [] → 0 < num_people s →
  Py.float_of_int (num_people s) = Some nf →
  let gst_amt := (total s * (gst s / 100))%float in
  let svc_amt := (total s * (service s / 100))%float in
  let grand := (total s + gst_amt + svc_amt)%float in
  (calculate S chat_id mid).2 =
    EqualBreakdown (total s) gst_amt svc_amt grand (grand / nf)%float
                   (num_people s) ∧
  people <$> (calculate S chat_id mid).1 !! chat_id = Some [] ∧
  (calculate {[ 7 := mkSession "SGD" 50 0 10 4 [] [] None ]} 7 99).2 =
    EqualBreakdown 50 0 5 55 13.75 4.
Proof.
  intros Hs Hp Hn Hnf gst_amt svc_amt grand.
  rewrite (calculate_without_entries _ _ _ s) by done.
  unfold calculate_equal.
  rewrite bool_decide_eq_false_2 by lia.
  rewrite (truediv_int_pos _ nf) by done.
  simpl. split; [done|]. split; [|vm_compute; reflexivity].
  rewrite finalize_store. simpl. by rewrite Hp.
Qed.

Lemma calculate_equal_split_witness :
  (calculate {[ 7 := mkSession "SGD" 120 9 10 3 [] [1; 2] None ]} 7 99).2 =
    EqualBreakdown 120 (120 * (9 / 100)) (120 * (10 / 100))
      (120 + 120 * (9 / 100) + 120 * (10 / 100))
      ((120 + 120 * (9 / 100) + 120 * (10 / 100)) / 3) 3.
Proof.
  pose (s := mkSession "SGD" 120 9 10 3 [] [1; 2] None).
  pose (S := {[ 7 := s ]} : Sessions).
  destruct (calculate_equal_split S 7 99 s 3%float
              eq_refl eq_refl eq_refl eq_refl) as [H _].
  exact H.
Defined.

(** C10.  A fresh session has a participant count of 0, and [calculate]
    on a session without entries whose count is not positive answers
    [NoPeopleYet], the session unchanged but for the tracked message id.
    The per-person division is only carried out with a positive count:
    every equal-split breakdown carries a positive count, and since a
    positive integer never converts to a zero, the only way the division
    can raise is the overflow of a count beyond the doubles. *)
Theorem calculate_guards_division (S : Sessions) (chat_id mid : Z) (s : Session) :
  S !! chat_id = Some s → people s = [] →
  num_people fresh_session = 0 ∧
  (num_people s ≤ 0 →
   calculate S chat_id mid = (send_and_track S chat_id mid, NoPeopleYet) ∧
   send_and_track S chat_id mid !! chat_id =
     Some (with_messages (messages s ++ [mid]) s)) ∧
  (∀ subtotal gst_amt svc_amt grand per n,
     (calculate S chat_id mid).2 =
       EqualBreakdown subtotal gst_amt svc_amt grand per n →
     0 < n ∧ n = num_people s ∧
     ∃ nf, Py.float_of_int n = Some nf ∧ per = (grand / nf)%float) ∧
  ((calculate S chat_id mid).2 = Uncaught →
   0 < num_people s ∧ Py.float_of_int (num_people s) = None).
Proof.
  intros Hs Hp. split; [done|].
  rewrite (calculate_without_entries _ _ _ s) by done.
  unfold calculate_equal.
  split; [|split].
  - intros Hn. rewrite bool_decide_eq_true_2 by done.
    split; [done|]. by apply send_and_track_lookup.
  - intros subtotal gst_amt svc_amt grand per n.
    case_bool_decide; [done|].
    destruct (Py.float_of_int (num_people s)) as [nf|] eqn:Hnf.
    + rewrite (truediv_int_pos _ nf) by (done || lia).
      simpl. intros [= <- <- <- <- <- <-].
      split; [lia|]. split; [done|]. by exists nf.
    + unfold Py.truediv_int. by rewrite Hnf.
  - case_bool_decide; [done|].
    destruct (Py.truediv_int _ _) eqn:Hdiv; [done|].
    intros _. split; [lia|]. eapply truediv_int_None; [lia|done].
Qed.

Lemma calculate_guards_division_witness :
  let S : Sessions := {[ 7 := fresh_session ]} in
  calculate S 7 99 = (send_and_track S 7 99, NoPeopleYet) ∧
  send_and_track S 7 99 !! 7 = Some (with_messages [99] fresh_session).
Proof.
  intros S.
  destruct (calculate_guards_division S 7 99 fresh_session eq_refl eq_refl)
    as (_ & H & _).
  destruct (H ltac:(reflexivity)) as [H1 H2].
  split; [exact H1|exact H2].
Defined.

(** ** Distinct names *)

(** The commands that change the entries keep their names distinct, as
    the keys of a dict are. *)
Local Ltac only_tracked s :=
  simpl; rewrite (send_and_track_lookup _ _ _ s) by done; by intros [= <-].

Lemma fresh_session_NoDup : NoDup (people fresh_session).*1.
Proof. apply NoDup_nil_2. Qed.

Lemma addamount_NoDup (py_float : string → option float) (S : Sessions)
    (chat_id mid : Z) (args : list string) (s s' : Session) :
  S !! chat_id = Some s → NoDup (people s).*1 →
  (addamount py_float S chat_id args mid).1 !! chat_id = Some s' →
  NoDup (people s').*1.
Proof.
  intros Hs Hnd. unfold addamount. rewrite Hs.
  destruct args as [|name [|t args]]; [only_tracked s..|].
  destruct (py_float t) as [amt|]; [|only_tracked s].
  destruct (amt <? 0)%float; [only_tracked s|].
  simpl. erewrite send_and_track_lookup by apply lookup_insert_eq.
  intros [= <-]. simpl. by apply dict_set_NoDup.
Qed.

Lemma editamount_NoDup (py_float : string → option float) (S : Sessions)
    (chat_id mid : Z) (args : list string) (s s' : Session) :
  S !! chat_id = Some s → NoDup (people s).*1 →
  (editamount py_float S chat_id args mid).1 !! chat_id = Some s' →
  NoDup (people s').*1.
Proof.
  intros Hs Hnd. unfold editamount. rewrite Hs.
  destruct args as [|name [|t args]]; [only_tracked s..|].
  destruct (py_float t) as [amt|]; [|only_tracked s].
  destruct (amt <? 0)%float; [only_tracked s|].
  destruct (negb _); [only_tracked s|].
  simpl. erewrite send_and_track_lookup by apply lookup_insert_eq.
  intros [= <-]. simpl. by apply dict_set_NoDup.
Qed.

Lemma remove_person_NoDup (S : Sessions) (chat_id mid : Z) (args : list string)
    (s s' : Session) :
  S !! chat_id = Some s → NoDup (people s).*1 →
  (remove_person S chat_id args mid).1 !! chat_id = Some s' →
  NoDup (people s').*1.
Proof.
  intros Hs Hnd. unfold remove_person. rewrite Hs.
  destruct args as [|name args]; [only_tracked s|].
  destruct (dict_mem _ _); [|only_tracked s].
  simpl. erewrite send_and_track_lookup by apply lookup_insert_eq.
  intros [= <-]. simpl. by apply dict_pop_NoDup.
Qed.

Lemma scale_people_NoDup (factor : float) (d : list (string * float)) :
  NoDup d.*1 → NoDup (scale_people factor d).*1.
Proof.
  intros Hd. rewrite scale_people_map by done.
  replace (map (λ '(n, a), (n, (a * factor)%float)) d).*1 with d.*1; [done|].
  clear Hd. induction d as [|[n a] d IH]; [done|]. simpl. by f_equal.
Qed.

(** ** The scenarios of the specification *)

(** A total of 100 with 9% GST and 10% service, Alice 60 and Bob 40: the
    raw shares are 71.4 and 47.6, the floored cents 7140 and 4760 add up
    to 11900, and nothing is left to hand out. *)
Example scenario_itemized :
  let s := mkSession "SGD" 100 9 10 2
             [("Alice", 60%float); ("Bob", 40%float)] [] None in
  check_balance (people s) (total s) = Balanced ∧
  raw_shares s = Some [71.4; 47.6]%float ∧
  allocate_cents_int [71.4; 47.6]%float 119%float = Some [7140; 4760] ∧
  (calculate {[ 7 := s ]} 7 99).2 =
    CustomBreakdown 100 9 10 119 [("Alice", 71.4%float); ("Bob", 47.6%float)].
Proof. repeat split; vm_compute; reflexivity. Qed.

(** Three shares of 0.335 and a grand total of 1.01: the floors are 33
    cents each, the remainder is 2, and the first two entries get it. *)
Example scenario_remainder :
  allocate_cents_int [0.335; 0.335; 0.335]%float 1.01%float = Some [34; 34; 33] ∧
  allocate_cents [0.335; 0.335; 0.335]%float 1.01%float
    = Some [0.34; 0.34; 0.33]%float.
Proof. split; vm_compute; reflexivity. Qed.

(** After [/start] the session is fresh, and [/calculate] has nobody to
    split between. *)
Example scenario_fresh :
  let S := (start {[ 7 := mkSession "MYR" 80 6 0 3 [] [5] (Some 4) ]} 7 10).1 in
  S !! 7 = Some (with_messages [10] fresh_session) ∧
  (calculate S 7 11).2 = NoPeopleYet.
Proof. split; vm_compute; reflexivity. Qed.

(** The products are rounded before they are floored: 0.29 * 100.0 is
    28.999999999999996, that is 28 cents. *)
Example floor_of_product :
  Py.floor (0.29 * 100)%float = Some 28 ∧ Py.floor (71.4 * 100)%float = Some 7140.
Proof. split; vm_compute; reflexivity. Qed.

(** The largest integer that converts to a double, and the first that
    does not. *)
Example float_of_int_limit :
  Py.float_of_int (2 ^ 1024 - 2 ^ 970 - 1) = Some 0x1.fffffffffffffp+1023%float ∧
  Py.float_of_int (2 ^ 1024 - 2 ^ 970) = None ∧
  binary_normalize prec emax (2 ^ 1024 - 2 ^ 970) 0 false = S754_infinity false.
Proof. repeat split; vm_compute; reflexivity. Qed.

(** * Further properties *)

(** ** The allocator, continued *)

Lemma floor_None (y : float) : Py.floor y = None ↔ Py.isfinite y = false.
Proof. unfold Py.floor, Py.isfinite. by destruct (Prim2SF y). Qed.

Lemma round_None (y : float) : Py.round y = None ↔ Py.isfinite y = false.
Proof. unfold Py.round, Py.isfinite. by destruct (Prim2SF y). Qed.

(** X1.  The cents that [allocate_cents] hands out add up to the floored
    cents plus the remainder clamped between 0 and the number of entries;
    they add up to [round(grand_total*100)] exactly when the remainder
    lies between 0 and the number of entries. *)
Theorem allocate_cents_total (shares : list float) (grand : float)
    (floors cents : list Z) (target : Z) :
  floored_cents shares = Some floors →
  Py.round (grand * 100)%float = Some target →
  allocate_cents_int shares grand = Some cents →
  let remainder := target - Py.sum_int floors in
  Py.sum_int cents =
    Py.sum_int floors + Z.min (Z.max remainder 0) (Z.of_nat (length shares)) ∧
  (Py.sum_int cents = target ↔ 0 ≤ remainder ≤ Z.of_nat (length shares)).
Proof.
  intros Hf Hr Hc remainder. unfold allocate_cents_int in Hc.
  rewrite Hf, Hr in Hc. simpl in Hc. injection Hc as <-.
  rewrite add_remainder_sum by lia.
  rewrite (floored_cents_length _ _ Hf), Nat.sub_0_r.
  fold remainder. split; [done|]. lia.
Qed.

Lemma allocate_cents_total_witness :
  Py.sum_int [34; 34; 33] = Py.sum_int [33; 33; 33] + Z.min (Z.max 2 0) 3 ∧
  (Py.sum_int [34; 34; 33] = 101 ↔ 0 ≤ 101 - Py.sum_int [33; 33; 33] ≤ 3).
Proof.
  exact (allocate_cents_total [0.335; 0.335; 0.335]%float 1.01%float
           [33; 33; 33] [34; 34; 33] 101 eq_refl eq_refl eq_refl).
Defined.

(** X4.  [allocate_cents] raises exactly when a share times 100 or the
    grand total times 100 is not a finite number. *)
Theorem allocate_cents_raises_iff (shares : list float) (grand : float) :
  allocate_cents shares grand = None ↔
  Exists (λ x, Py.isfinite (x * 100)%float = false) shares ∨
  Py.isfinite (grand * 100)%float = false.
Proof.
  split.
  - intros Hnone.
    destruct (floored_cents shares) as [floors|] eqn:Hf.
    + destruct (Py.round (grand * 100)%float) as [target|] eqn:Hr.
      * destruct (allocate_cents_defined _ _ _ _ Hf Hr)
          as (? & out & _ & _ & _ & Hout & _). congruence.
      * right. by apply round_None.
    + left. apply mapM_None in Hf.
      eapply Exists_impl; [exact Hf|]. intros x Hx. simpl in Hx.
      by apply floor_None.
  - intros [Hex|Hg]; unfold allocate_cents, allocate_cents_int.
    + assert (floored_cents shares = None) as ->; [|done].
      apply mapM_None. eapply Exists_impl; [exact Hex|].
      intros x Hx. by apply floor_None.
    + apply round_None in Hg. rewrite Hg.
      by destruct (floored_cents shares).
Qed.

(** ** Amounts read back in cents *)

Lemma of_uint63_of_Z (c : Z) :
  0 ≤ c < 2 ^ 53 →
  of_uint63 (Uint63.of_Z c) = SF2Prim (binary_normalize prec emax c 0 false).
Proof.
  intros Hc. rewrite <- (SF2Prim_Prim2SF (of_uint63 _)), of_uint63_spec.
  rewrite Uint63.of_Z_spec, Z.mod_small; [done|].
  assert (2 ^ 53 < Uint63.wB) by reflexivity. lia.
Qed.

Lemma reads_back_sound (c : Z) :
  0 ≤ c < 2 ^ 53 → reads_back c = true →
  (x ← Py.int_truediv c 100%float; to_cents x) = Some c.
Proof.
  intros Hc. unfold reads_back, Py.int_truediv.
  assert (2 ^ 53 < 2 ^ 1024 - 2 ^ 971) by reflexivity.
  rewrite float_of_int_Some by lia. simpl.
  rewrite of_uint63_of_Z by done.
  destruct (to_cents _) as [c'|]; [|done].
  by intros ->%Z.eqb_eq.
Qed.

Lemma reads_back_from_spec (n : nat) (c0 c : Z) :
  reads_back_from n c0 = true → c0 ≤ c < c0 + Z.of_nat n →
  reads_back c = true.
Proof.
  revert c0. induction n as [|n IH]; intros c0; simpl reads_back_from; [lia|].
  intros [H0 Hn]%andb_true_iff Hc.
  destruct (decide (c = c0)) as [->|Hne]; [done|].
  apply (IH (c0 + 1)); [done|lia].
Qed.

Lemma reads_back_below_1000 : reads_back_from (Z.to_nat 100000) 0 = true.
Proof. vm_compute. reflexivity. Qed.

Lemma int_truediv_reads_back (c : Z) :
  0 ≤ c < 100000 →
  (x ← Py.int_truediv c 100%float; to_cents x) = Some c.
Proof.
  intros Hc. apply reads_back_sound.
  - assert (100000 < 2 ^ 53) by reflexivity. lia.
  - apply (reads_back_from_spec (Z.to_nat 100000) 0);
      [apply reads_back_below_1000|rewrite Z2Nat.id; lia].
Qed.

(** X2.  Every amount below 1000.00 that the allocator can return, that
    is [c / 100.0] for a number of cents [0 <= c < 100000], is read back
    as [c] by [round(x * 100)]: the division by 100.0 loses no cent. *)
Theorem cents_amount_reads_back (c : Z) (x : float) :
  0 ≤ c < 100000 → Py.int_truediv c 100%float = Some x →
  to_cents x = Some c.
Proof.
  intros Hc Hx. pose proof (int_truediv_reads_back c Hc) as H.
  by rewrite Hx in H.
Qed.

Lemma cents_amount_reads_back_witness : to_cents 0.29%float = Some 29.
Proof.
  apply (cents_amount_reads_back 29 0.29%float); [lia|reflexivity].
Defined.

(** X3.  Allocation exactness as it holds: when the remainder lies
    between 0 and the number of entries and every floored share is below
    999.99, the amounts returned by [allocate_cents], read back in cents,
    add up to [round(grand_total*100)]. *)
Theorem allocate_cents_exact_amounts (shares out : list float) (grand : float)
    (floors : list Z) (target : Z) :
  floored_cents shares = Some floors →
  Py.round (grand * 100)%float = Some target →
  0 ≤ target - Py.sum_int floors ≤ Z.of_nat (length shares) →
  Forall (λ c, 0 ≤ c < 99999) floors →
  allocate_cents shares grand = Some out →
  ∃ cents, mapM to_cents out = Some cents ∧ Py.sum_int cents = target.
Proof.
  intros Hf Hr Hrem Hsmall Hout.
  destruct (allocate_cents_defined _ _ _ _ Hf Hr)
    as (cents & out' & Hc & Hlk & HF2 & Hout' & _).
  assert (out' = out) as -> by congruence.
  exists cents. split; [|by eapply allocate_cents_int_exact].
  apply mapM_Some_2, Forall2_same_length_lookup.
  apply Forall2_same_length_lookup in HF2 as [Hlen HF2].
  split; [done|]. intros i y c Hy Hi.
  pose proof (HF2 i c y Hi Hy) as Hdiv. simpl in Hdiv.
  rewrite Hlk in Hi.
  destruct (floors !! i) as [c0|] eqn:Hfi; simpl in Hi; [|done].
  injection Hi as <-.
  pose proof (Forall_lookup_1 _ _ _ _ Hsmall Hfi) as Hb. simpl in Hb.
  assert (0 ≤ c0 + (if bool_decide (Z.of_nat i < target - Py.sum_int floors)
                    then 1 else 0) < 100000) as Hrange
    by (case_bool_decide; lia).
  pose proof (int_truediv_reads_back _ Hrange) as Hback.
  by rewrite Hdiv in Hback.
Qed.

Lemma allocate_cents_exact_amounts_witness :
  ∃ cents, mapM to_cents [0.34; 0.34; 0.33]%float = Some cents ∧
           Py.sum_int cents = 101.
Proof.
  apply (allocate_cents_exact_amounts [0.335; 0.335; 0.335]%float
           [0.34; 0.34; 0.33]%float 1.01%float [33; 33; 33] 101);
    try reflexivity.
  - vm_compute. split; discriminate.
  - repeat constructor; lia.
Defined.

(** ** The tolerance test, continued *)

(** X5.  [close_enough] does not depend on the order of its arguments,
    and a number is close enough to itself exactly when it is finite
    (infinities and NaN are not: their difference is NaN). *)
Theorem close_enough_sym_refl (a b x : float) :
  close_enough a b = close_enough b a ∧
  close_enough x x = Py.isfinite x.
Proof.
  split; [apply close_enough_comm|].
  destruct (Py.isfinite x) eqn:Hx; [by apply close_enough_refl|].
  unfold Py.isfinite in Hx. unfold close_enough.
  rewrite leb_spec, abs_spec, sub_spec. unfold SF64sub.
  by destruct (Prim2SF x) as [|[]| |].
Qed.

(** ** Signs *)

Lemma not_negative_spec (x : float) :
  not_negative x ↔ SF_not_negative (Prim2SF x) = true.
Proof.
  unfold not_negative. rewrite ltb_spec, Prim2SF_zero.
  by destruct (Prim2SF x) as [[]|[]| |[] ? ?].
Qed.

Lemma positive_spec (x : float) :
  (0 <? x)%float = true →
  ∃ sf, Prim2SF x = sf ∧
        (sf = S754_infinity false ∨ ∃ m e, sf = S754_finite false m e).
Proof.
  rewrite ltb_spec, Prim2SF_zero.
  destruct (Prim2SF x) as [[]|[]| |[] m e]; try done; intros _.
  - eexists; split; [done|]. by left.
  - eexists; split; [done|]. right. by exists m, e.
Qed.

Lemma SFmul_not_negative (a b : spec_float) :
  SF_not_negative a = true → SF_not_negative b = true →
  SF_not_negative (SF64mul a b) = true.
Proof.
  unfold SF64mul.
  destruct a as [[]|[]| |[] ma ea], b as [[]|[]| |[] mb eb]; try done.
  intros _ _. simpl. apply binary_round_aux_not_negative.
Qed.

Lemma float_add_not_negative (x y : float) :
  not_negative x → not_negative y → not_negative (x + y).
Proof.
  rewrite !not_negative_spec, add_spec. apply SFadd_not_negative.
Qed.

Lemma float_mul_not_negative (x y : float) :
  not_negative x → not_negative y → not_negative (x * y).
Proof.
  rewrite !not_negative_spec, mul_spec. apply SFmul_not_negative.
Qed.

Lemma float_div_not_negative (x y : float) :
  not_negative x → (0 <? y)%float = true → not_negative (x / y).
Proof.
  rewrite !not_negative_spec, div_spec.
  intros Hx Hy. apply positive_spec in Hy as (sf & Hsf & Hy).
  rewrite Hsf. unfold SF64div.
  destruct Hy as [->|(m & e & ->)];
    destruct (Prim2SF x) as [[]|[]| |[] mx ex]; try done.
  simpl. destruct (SFdiv_core_binary _ _ _ _ _ _) as [[mz ez] lz].
  apply binary_round_aux_not_negative.
Qed.

Lemma not_negative_zero : not_negative 0.
Proof. reflexivity. Qed.

Lemma sum_float_from_not_negative (l : list float) (acc : float) :
  not_negative acc → Forall not_negative l →
  not_negative (foldl PrimFloat.add acc l).
Proof.
  revert acc. induction l as [|x l IH]; intros acc Hacc Hl; simpl; [done|].
  apply Forall_cons in Hl as [Hx Hl].
  apply IH; [by apply float_add_not_negative|done].
Qed.

Lemma sum_float_not_negative (l : list float) :
  Forall not_negative l → not_negative (Py.sum_float l).
Proof. apply sum_float_from_not_negative, not_negative_zero. Qed.

Lemma float_div_not_negative_nonzero (x y : float) :
  not_negative x → (y <=? 0)%float = false → not_negative (x / y).
Proof.
  intros Hx Hy. destruct (0 <? y)%float eqn:Hpos;
    [by apply float_div_not_negative|].
  revert Hx Hy Hpos.
  rewrite !not_negative_spec, div_spec, leb_spec, ltb_spec, Prim2SF_zero.
  intros Hx. unfold SF64div.
  by destruct (Prim2SF y) as [[]|[]| |[] ? ?];
    destruct (Prim2SF x) as [[]|[]| |[] ? ?].
Qed.

(** ** The setup prompts *)

Section Setup.

Variable py_float : string → option float.
Variable py_int : string → option Z.

Lemma set_total_accepted (S : Sessions) (chat_id mid : Z) (s : Session)
    (text : string) (v : float) :
  S !! chat_id = Some s → py_float text = Some v → not_negative v →
  set_total py_float S chat_id text mid =
    (<[chat_id := with_messages (messages s ++ [mid]) (with_total v s)]> S,
     AskGst, GST).
Proof.
  intros Hs Hp Hv. unfold set_total.
  rewrite (get_session_active _ _ s), Hp, Hv by done.
  rewrite (send_and_track_active _ _ _ (with_total v s)) by apply lookup_insert_eq.
  by rewrite insert_insert_eq.
Qed.

Lemma set_gst_accepted (S : Sessions) (chat_id mid : Z) (s : Session)
    (text : string) (v : float) :
  S !! chat_id = Some s → py_float text = Some v → not_negative v →
  set_gst py_float S chat_id text mid =
    (<[chat_id := with_messages (messages s ++ [mid]) (with_gst v s)]> S,
     AskService, SERVICE).
Proof.
  intros Hs Hp Hv. unfold set_gst.
  rewrite (get_session_active _ _ s), Hp, Hv by done.
  rewrite (send_and_track_active _ _ _ (with_gst v s)) by apply lookup_insert_eq.
  by rewrite insert_insert_eq.
Qed.

Lemma set_service_accepted (S : Sessions) (chat_id mid : Z) (s : Session)
    (text : string) (v : float) :
  S !! chat_id = Some s → py_float text = Some v → not_negative v →
  set_service py_float S chat_id text mid =
    (<[chat_id := with_messages (messages s ++ [mid]) (with_service v s)]> S,
     AskNumPeople, NUM_PEOPLE).
Proof.
  intros Hs Hp Hv. unfold set_service.
  rewrite (get_session_active _ _ s), Hp, Hv by done.
  rewrite (send_and_track_active _ _ _ (with_service v s)) by apply lookup_insert_eq.
  by rewrite insert_insert_eq.
Qed.

Lemma set_num_people_accepted (S : Sessions) (chat_id mid : Z) (s : Session)
    (text : string) (n : Z) :
  S !! chat_id = Some s → py_int text = Some n → 0 < n →
  set_num_people py_int S chat_id text mid =
    (<[chat_id := with_messages (messages s ++ [mid]) (with_num_people n s)]> S,
     SetupComplete, END).
Proof.
  intros Hs Hp Hn. unfold set_num_people.
  rewrite (get_session_active _ _ s), Hp by done.
  rewrite bool_decide_eq_false_2 by lia.
  rewrite (send_and_track_active _ _ _ (with_num_people n s))
    by apply lookup_insert_eq.
  by rewrite insert_insert_eq.
Qed.

Lemma set_total_GST (S : Sessions) (chat_id mid : Z) (text : string) :
  (set_total py_float S chat_id text mid).2 = GST ↔
  ∃ v, py_float text = Some v ∧ not_negative v.
Proof.
  unfold set_total, not_negative. destruct (get_session S chat_id) as [S1 s].
  destruct (py_float text) as [v|]; simpl;
    [|split; [done|by intros (v & ? & _)]].
  destruct (v <? 0)%float eqn:Hv; simpl; split; try done.
  - intros (v' & [= <-] & Hv'). congruence.
  - intros _. by exists v.
Qed.

Lemma set_gst_SERVICE (S : Sessions) (chat_id mid : Z) (text : string) :
  (set_gst py_float S chat_id text mid).2 = SERVICE ↔
  ∃ v, py_float text = Some v ∧ not_negative v.
Proof.
  unfold set_gst, not_negative. destruct (get_session S chat_id) as [S1 s].
  destruct (py_float text) as [v|]; simpl;
    [|split; [done|by intros (v & ? & _)]].
  destruct (v <? 0)%float eqn:Hv; simpl; split; try done.
  - intros (v' & [= <-] & Hv'). congruence.
  - intros _. by exists v.
Qed.

Lemma set_service_NUM_PEOPLE (S : Sessions) (chat_id mid : Z) (text : string) :
  (set_service py_float S chat_id text mid).2 = NUM_PEOPLE ↔
  ∃ v, py_float text = Some v ∧ not_negative v.
Proof.
  unfold set_service, not_negative. destruct (get_session S chat_id) as [S1 s].
  destruct (py_float text) as [v|]; simpl;
    [|split; [done|by intros (v & ? & _)]].
  destruct (v <? 0)%float eqn:Hv; simpl; split; try done.
  - intros (v' & [= <-] & Hv'). congruence.
  - intros _. by exists v.
Qed.

Lemma set_num_people_END (S : Sessions) (chat_id mid : Z) (text : string) :
  (set_num_people py_int S chat_id text mid).2 = END ↔
  ∃ n, py_int text = Some n ∧ 0 < n.
Proof.
  unfold set_num_people. destruct (get_session S chat_id) as [S1 s].
  destruct (py_int text) as [n|]; simpl;
    [|split; [done|by intros (n & ? & _)]].
  case_bool_decide; simpl; split; try done.
  - intros (n' & [= <-] & ?). lia.
  - intros _. exists n. split; [done|lia].
Qed.

End Setup.

(** X6.  The setup prompts are fail-closed: each of [set_total],
    [set_gst], [set_service] and [set_num_people] returns either its own
    state or the next one, and the next one exactly when the text parses
    to a number that is not negative (to a positive integer, for the
    number of people). *)
Theorem setup_prompts_fail_closed (py_float : string → option float)
    (py_int : string → option Z) (S : Sessions) (chat_id mid : Z)
    (text : string) :
  ((set_total py_float S chat_id text mid).2 = GST ↔
   ∃ v, py_float text = Some v ∧ not_negative v) ∧
  ((set_gst py_float S chat_id text mid).2 = SERVICE ↔
   ∃ v, py_float text = Some v ∧ not_negative v) ∧
  ((set_service py_float S chat_id text mid).2 = NUM_PEOPLE ↔
   ∃ v, py_float text = Some v ∧ not_negative v) ∧
  ((set_num_people py_int S chat_id text mid).2 = END ↔
   ∃ n, py_int text = Some n ∧ 0 < n) ∧
  (set_total py_float S chat_id text mid).2 ∈ [TOTAL; GST] ∧
  (set_gst py_float S chat_id text mid).2 ∈ [GST; SERVICE] ∧
  (set_service py_float S chat_id text mid).2 ∈ [SERVICE; NUM_PEOPLE] ∧
  (set_num_people py_int S chat_id text mid).2 ∈ [NUM_PEOPLE; END].
Proof.
  split; [apply set_total_GST|]. split; [apply set_gst_SERVICE|].
  split; [apply set_service_NUM_PEOPLE|]. split; [apply set_num_people_END|].
  split; [|split; [|split]].
  - destruct (set_total_advances py_float S chat_id text mid) as [->|[-> _]];
      set_solver.
  - destruct (set_gst_advances py_float S chat_id text mid) as [->|[-> _]];
      set_solver.
  - destruct (set_service_advances py_float S chat_id text mid) as [->|[-> _]];
      set_solver.
  - destruct (set_num_people_advances py_int S chat_id text mid) as [->|[-> _]];
      set_solver.
Qed.

(** X7.  When a setup prompt moves on, the session holds the accepted
    value in the prompt's field, the id of the next prompt is tracked, and
    nothing else has changed. *)
Theorem setup_prompts_store_accepted (py_float : string → option float)
    (py_int : string → option Z) (S : Sessions) (chat_id mid : Z)
    (s : Session) (text : string) :
  S !! chat_id = Some s →
  ((set_total py_float S chat_id text mid).2 = GST →
   ∃ v, py_float text = Some v ∧ not_negative v ∧
        (set_total py_float S chat_id text mid).1.1 =
          <[chat_id := with_messages (messages s ++ [mid]) (with_total v s)]> S) ∧
  ((set_gst py_float S chat_id text mid).2 = SERVICE →
   ∃ v, py_float text = Some v ∧ not_negative v ∧
        (set_gst py_float S chat_id text mid).1.1 =
          <[chat_id := with_messages (messages s ++ [mid]) (with_gst v s)]> S) ∧
  ((set_service py_float S chat_id text mid).2 = NUM_PEOPLE →
   ∃ v, py_float text = Some v ∧ not_negative v ∧
        (set_service py_float S chat_id text mid).1.1 =
          <[chat_id := with_messages (messages s ++ [mid]) (with_service v s)]> S) ∧
  ((set_num_people py_int S chat_id text mid).2 = END →
   ∃ n, py_int text = Some n ∧ 0 < n ∧
        (set_num_people py_int S chat_id text mid).1.1 =
          <[chat_id := with_messages (messages s ++ [mid]) (with_num_people n s)]> S).
Proof.
  intros Hs. split; [|split; [|split]].
  - intros (v & Hp & Hv)%set_total_GST. exists v.
    by rewrite (set_total_accepted _ _ _ _ s _ v).
  - intros (v & Hp & Hv)%set_gst_SERVICE. exists v.
    by rewrite (set_gst_accepted _ _ _ _ s _ v).
  - intros (v & Hp & Hv)%set_service_NUM_PEOPLE. exists v.
    by rewrite (set_service_accepted _ _ _ _ s _ v).
  - intros (n & Hp & Hn)%set_num_people_END. exists n.
    by rewrite (set_num_people_accepted _ _ _ _ s _ n).
Qed.

Lemma setup_prompts_store_accepted_witness :
  let s := mkSession "SGD" 0 0 0 0 [] [1] None in
  let S : Sessions := {[ 7 := s ]} in
  ∃ v, float_lit "100" = Some v ∧ not_negative v ∧
       (set_total float_lit S 7 "100" 2).1.1 =
         <[7 := with_messages (messages s ++ [2]) (with_total v s)]> S.
Proof.
  intros s S.
  destruct (setup_prompts_store_accepted float_lit int_lit S 7 2 s "100" eq_refl)
    as (H & _).
  exact (H eq_refl).
Defined.

(** X8.  Four accepted answers in a row complete the setup: the session
    then has a total, a GST percentage and a service percentage that are
    not negative and a positive number of people; its currency and its
    entries are those it had, and the four prompts are tracked in order. *)
Theorem setup_completes (py_float : string → option float)
    (py_int : string → option Z) (S : Sessions) (chat_id : Z) (s : Session)
    (t1 t2 t3 t4 : string) (m1 m2 m3 m4 : Z) :
  S !! chat_id = Some s →
  let r1 := set_total py_float S chat_id t1 m1 in
  let r2 := set_gst py_float r1.1.1 chat_id t2 m2 in
  let r3 := set_service py_float r2.1.1 chat_id t3 m3 in
  let r4 := set_num_people py_int r3.1.1 chat_id t4 m4 in
  r1.2 = GST → r2.2 = SERVICE → r3.2 = NUM_PEOPLE → r4.2 = END →
  ∃ s', r4.1.1 !! chat_id = Some s' ∧
        py_float t1 = Some (total s') ∧ not_negative (total s') ∧
        py_float t2 = Some (gst s') ∧ not_negative (gst s') ∧
        py_float t3 = Some (service s') ∧ not_negative (service s') ∧
        py_int t4 = Some (num_people s') ∧ 0 < num_people s' ∧
        currency s' = currency s ∧ people s' = people s ∧
        finalized_msg_id s' = finalized_msg_id s ∧
        messages s' = messages s ++ [m1; m2; m3; m4].
Proof.
  intros Hs r1 r2 r3 r4 H1 H2 H3 H4. subst r1 r2 r3 r4.
  pose proof H1 as (v1 & Hp1 & Hv1)%set_total_GST.
  rewrite (set_total_accepted _ _ _ _ s _ v1) in * by done.
  simpl in *.
  set (s1 := with_messages (messages s ++ [m1]) (with_total v1 s)) in *.
  pose proof H2 as (v2 & Hp2 & Hv2)%set_gst_SERVICE.
  rewrite (set_gst_accepted _ _ _ _ s1 _ v2) in *
    by (done || apply lookup_insert_eq).
  simpl in *. rewrite insert_insert_eq in *.
  set (s2 := with_messages (messages s1 ++ [m2]) (with_gst v2 s1)) in *.
  pose proof H3 as (v3 & Hp3 & Hv3)%set_service_NUM_PEOPLE.
  rewrite (set_service_accepted _ _ _ _ s2 _ v3) in *
    by (done || apply lookup_insert_eq).
  simpl in *. rewrite insert_insert_eq in *.
  set (s3 := with_messages (messages s2 ++ [m3]) (with_service v3 s2)) in *.
  pose proof H4 as (n & Hp4 & Hn)%set_num_people_END.
  rewrite (set_num_people_accepted _ _ _ _ s3 _ n)
    by (done || apply lookup_insert_eq).
  simpl. rewrite insert_insert_eq.
  eexists. split; [apply lookup_insert_eq|].
  simpl. rewrite <- !(assoc_L (++)). simpl. done.
Qed.

Lemma setup_completes_witness :
  let S : Sessions := {[ 7 := with_messages [1] fresh_session ]} in
  let r1 := set_total float_lit S 7 "100" 2 in
  let r2 := set_gst float_lit r1.1.1 7 "10" 3 in
  let r3 := set_service float_lit r2.1.1 7 "5" 4 in
  let r4 := set_num_people int_lit r3.1.1 7 "4" 5 in
  ∃ s', r4.1.1 !! 7 = Some s' ∧ total s' = 100%float ∧ gst s' = 10%float ∧
        service s' = 5%float ∧ num_people s' = 4 ∧
        messages s' = [1; 2; 3; 4; 5].
Proof.
  intros S r1 r2 r3 r4.
  destruct (setup_completes float_lit int_lit S 7 (with_messages [1] fresh_session)
              "100" "10" "5" "4" 2 3 4 5 eq_refl eq_refl eq_refl eq_refl eq_refl)
    as (s' & H & H1 & _ & H2 & _ & H3 & _ & H4 & _ & _ & _ & _ & H5).
  exists s'. split; [exact H|].
  injection H1 as <-. injection H2 as <-. injection H3 as <-. injection H4 as <-.
  repeat split; first [reflexivity|exact H5].
Defined.

(** ** Commands that are refused *)

(** X9.  The commands and the last prompt test before they store: unless
    the answer is the success message ([Added], [Updated], [Removed],
    [TotalUpdated], or the state [END]), the only effect is that the id of
    the answer is tracked, and the bill of the session is what it was. *)
Theorem commands_change_only_on_success (py_float : string → option float)
    (py_int : string → option Z) (S : Sessions) (chat_id mid : Z)
    (s : Session) (args : list string) (text : string) :
  S !! chat_id = Some s →
  match (addamount py_float S chat_id args mid).2 with
  | Added _ _ _ => True
  | _ => (addamount py_float S chat_id args mid).1 = send_and_track S chat_id mid
  end ∧
  match (editamount py_float S chat_id args mid).2 with
  | Updated _ _ => True
  | _ => (editamount py_float S chat_id args mid).1 = send_and_track S chat_id mid
  end ∧
  match (remove_person S chat_id args mid).2 with
  | Removed _ => True
  | _ => (remove_person S chat_id args mid).1 = send_and_track S chat_id mid
  end ∧
  match (settotal py_float S chat_id args mid).2 with
  | TotalUpdated _ => True
  | _ => (settotal py_float S chat_id args mid).1 = send_and_track S chat_id mid
  end ∧
  match (set_num_people py_int S chat_id text mid).2 with
  | END => True
  | _ => (set_num_people py_int S chat_id text mid).1.1 =
         send_and_track S chat_id mid
  end ∧
  bill_data <$> send_and_track S chat_id mid !! chat_id = Some (bill_data s).
Proof.
  intros Hs. repeat split.
  - unfold addamount. rewrite Hs.
    destruct args as [|name [|t args]]; [done..|].
    destruct (py_float t) as [amt|]; [|done]. by destruct (amt <? 0)%float.
  - unfold editamount. rewrite Hs.
    destruct args as [|name [|t args]]; [done..|].
    destruct (py_float t) as [amt|]; [|done].
    destruct (amt <? 0)%float; [done|]. by destruct (negb _).
  - unfold remove_person. rewrite Hs.
    destruct args as [|name args]; [done|]. by destruct (dict_mem _ _).
  - unfold settotal. rewrite Hs.
    destruct args as [|t args]; [done|].
    destruct (py_float t) as [amt|]; [|done]. by destruct (amt <? 0)%float.
  - unfold set_num_people. rewrite (get_session_active _ _ s) by done.
    destruct (py_int text) as [n|]; [|done]. by case_bool_decide.
  - by rewrite (send_and_track_lookup _ _ _ s).
Qed.

Lemma commands_change_only_on_success_witness :
  let s := mkSession "SGD" 100 9 10 2 [("Alice", 60%float)] [] None in
  let S : Sessions := {[ 7 := s ]} in
  (editamount float_lit S 7 ["Bob"; "5"] 3).1 = send_and_track S 7 3 ∧
  bill_data <$> send_and_track S 7 3 !! 7 = Some (bill_data s).
Proof.
  intros s S.
  destruct (commands_change_only_on_success float_lit int_lit S 7 3 s
              ["Bob"; "5"] "0" eq_refl) as (_ & H & _ & _ & _ & H').
  split; [exact H|exact H'].
Defined.

Lemma stop_cmd_delete (S : Sessions) (chat_id : Z) :
  stop_cmd S chat_id = delete chat_id S.
Proof.
  unfold stop_cmd. destruct (S !! chat_id) as [s|] eqn:Hs; [|done].
  rewrite (delete_setup_messages_active _ _ _ s) by done.
  apply delete_insert_eq.
Qed.

(** X10.  After [/stop] the chat has no session, whatever the store was:
    every command answers that there is no active bill and stores
    nothing, [/delete] and a second [/stop] do nothing. *)
Theorem stop_then_refused (py_float : string → option float) (S : Sessions)
    (chat_id mid : Z) (args : list string) :
  let S' := stop_cmd S chat_id in
  S' !! chat_id = None ∧
  addamount py_float S' chat_id args mid = (S', NoActiveBill) ∧
  editamount py_float S' chat_id args mid = (S', NoActiveBill) ∧
  remove_person S' chat_id args mid = (S', NoActiveBill) ∧
  settotal py_float S' chat_id args mid = (S', NoActiveBill) ∧
  calculate S' chat_id mid = (S', NoActiveBill) ∧
  list_people S' chat_id mid = (S', ListNoActiveBill) ∧
  delete_cmd S' chat_id = S' ∧
  stop_cmd S' chat_id = S'.
Proof.
  intros S'. assert (S' !! chat_id = None) as Hnone.
  { unfold S'. rewrite stop_cmd_delete. apply lookup_delete_eq. }
  split; [done|].
  unfold addamount, editamount, remove_person, settotal, calculate,
    list_people, delete_cmd, stop_cmd.
  rewrite Hnone. repeat split. by apply delete_id.
Qed.

(** ** One chat at a time *)

(** X11.  No handler touches the session of another chat. *)
Theorem other_chats_untouched (py_float : string → option float)
    (py_int : string → option Z) (S : Sessions) (chat_id other mid : Z)
    (args : list string) (text : string) (choice : FixChoice) :
  other ≠ chat_id →
  (start S chat_id mid).1 !! other = S !! other ∧
  (reset S chat_id mid).1 !! other = S !! other ∧
  stop_cmd S chat_id !! other = S !! other ∧
  (main_menu_cb S chat_id text).1 !! other = S !! other ∧
  (choose_currency_cb S chat_id text mid).1.1 !! other = S !! other ∧
  (set_total py_float S chat_id text mid).1.1 !! other = S !! other ∧
  (set_gst py_float S chat_id text mid).1.1 !! other = S !! other ∧
  (set_service py_float S chat_id text mid).1.1 !! other = S !! other ∧
  (set_num_people py_int S chat_id text mid).1.1 !! other = S !! other ∧
  (addamount py_float S chat_id args mid).1 !! other = S !! other ∧
  (editamount py_float S chat_id args mid).1 !! other = S !! other ∧
  (remove_person S chat_id args mid).1 !! other = S !! other ∧
  (settotal py_float S chat_id args mid).1 !! other = S !! other ∧
  (list_people S chat_id mid).1 !! other = S !! other ∧
  (calculate S chat_id mid).1 !! other = S !! other ∧
  (mismatch_fix_cb S chat_id choice).1 !! other = S !! other ∧
  delete_cmd S chat_id !! other = S !! other.
Proof.
  intros Hne.
  assert (∀ S0 m, send_and_track S0 chat_id m !! other = S0 !! other) as Htr
    by (intros; by apply send_and_track_other).
  assert (∀ S0 keep, delete_setup_messages S0 chat_id keep !! other = S0 !! other)
    as Hdel.
  { intros S0 keep. unfold delete_setup_messages, get_session.
    destruct (S0 !! chat_id); rewrite !lookup_insert_ne; done. }
  repeat split.
  - unfold start. simpl. by rewrite Htr, lookup_delete_ne.
  - unfold reset, start. simpl. rewrite Htr.
    destruct (S !! chat_id); (rewrite !lookup_delete_ne by done);
      [apply Hdel|done].
  - rewrite stop_cmd_delete. by apply lookup_delete_ne.
  - unfold main_menu_cb. by repeat destruct (String.eqb _ _).
  - unfold choose_currency_cb, get_session.
    destruct (S !! chat_id); simpl; rewrite !lookup_insert_ne; done.
  - unfold set_total, get_session.
    destruct (S !! chat_id); destruct (py_float text) as [v|];
      try destruct (v <? 0)%float; simpl;
      rewrite Htr, ?lookup_insert_ne by done; done.
  - unfold set_gst, get_session.
    destruct (S !! chat_id); destruct (py_float text) as [v|];
      try destruct (v <? 0)%float; simpl;
      rewrite Htr, ?lookup_insert_ne by done; done.
  - unfold set_service, get_session.
    destruct (S !! chat_id); destruct (py_float text) as [v|];
      try destruct (v <? 0)%float; simpl;
      rewrite Htr, ?lookup_insert_ne by done; done.
  - unfold set_num_people, get_session.
    destruct (S !! chat_id); destruct (py_int text) as [n|];
      try case_bool_decide; simpl;
      rewrite Htr, ?lookup_insert_ne by done; done.
  - unfold addamount. destruct (S !! chat_id); [|done].
    destruct args as [|name [|t args]]; simpl; [by rewrite Htr..|].
    destruct (py_float t) as [amt|]; [|simpl; by rewrite Htr].
    destruct (amt <? 0)%float; simpl; rewrite Htr, ?lookup_insert_ne by done; done.
  - unfold editamount. destruct (S !! chat_id); [|done].
    destruct args as [|name [|t args]]; simpl; [by rewrite Htr..|].
    destruct (py_float t) as [amt|]; [|simpl; by rewrite Htr].
    destruct (amt <? 0)%float; [simpl; by rewrite Htr|].
    destruct (negb _); simpl; rewrite Htr, ?lookup_insert_ne by done; done.
  - unfold remove_person. destruct (S !! chat_id); [|done].
    destruct args as [|name args]; simpl; [simpl; by rewrite Htr|].
    destruct (dict_mem _ _); simpl; rewrite Htr, ?lookup_insert_ne by done; done.
  - unfold settotal. destruct (S !! chat_id); [|done].
    destruct args as [|t args]; simpl; [simpl; by rewrite Htr|].
    destruct (py_float t) as [amt|]; [|simpl; by rewrite Htr].
    destruct (amt <? 0)%float; simpl; rewrite Htr, ?lookup_insert_ne by done; done.
  - unfold list_people. destruct (S !! chat_id) as [s|]; [|done].
    destruct (people s); simpl; by rewrite Htr.
  - unfold calculate. destruct (S !! chat_id) as [s|]; [|done].
    destruct (people s).
    + unfold calculate_equal. case_bool_decide; simpl; [simpl; by rewrite Htr|].
      destruct (Py.truediv_int _ _); simpl; [|done].
      by rewrite Hdel, lookup_insert_ne.
    + unfold calculate_custom. destruct (negb _); simpl; [simpl; by rewrite Htr|].
      destruct (_ ≫= _); simpl; [|done].
      by rewrite Hdel, lookup_insert_ne.
  - unfold mismatch_fix_cb, get_session.
    destruct (S !! chat_id) as [s|]; destruct choice; simpl;
      repeat match goal with
             | |- context [if ?b then _ else _] => destruct b
             | |- context [match Py.truediv ?a ?b with _ => _ end] =>
                 destruct (Py.truediv a b)
             end; simpl; rewrite ?lookup_insert_ne by done; done.
  - unfold delete_cmd. destruct (S !! chat_id); [apply Hdel|done].
Qed.

Lemma other_chats_untouched_witness :
  let S : Sessions := {[ 7 := fresh_session; 8 := mkSession "MYR" 80 6 0 3 [] [5] None ]} in
  (calculate S 7 10).1 !! 8 = S !! 8.
Proof.
  intros S.
  destruct (other_chats_untouched float_lit int_lit S 7 8 10 [] "" EDIT_FIX
              ltac:(lia))
    as (_ & _ & _ & _ & _ & _ & _ & _ & _ & _ & _ & _ & _ & _ & H & _).
  exact H.
Defined.

(** ** The invariant of a session *)

Lemma dict_get_Forall (P : float → Prop) (name : string) (v : float)
    (d : list (string * float)) :
  Forall P d.*2 → dict_get name d = Some v → P v.
Proof.
  induction d as [|[k w] d IH]; simpl; [done|].
  intros [Hw Hd]%Forall_cons. destruct (String.eqb k name); [|by auto].
  by intros [= <-].
Qed.

Lemma dict_set_Forall (P : float → Prop) (name : string) (v : float)
    (d : list (string * float)) :
  Forall P d.*2 → P v → Forall P (dict_set name v d).*2.
Proof.
  intros Hd Hv. induction d as [|[k w] d IH]; cbn [dict_set].
  - by apply Forall_cons.
  - rewrite fmap_cons in Hd. apply Forall_cons in Hd as [Hw Hd].
    destruct (String.eqb k name); rewrite fmap_cons; apply Forall_cons; auto.
Qed.

Lemma dict_pop_Forall (P : float → Prop) (name : string)
    (d : list (string * float)) :
  Forall P d.*2 → Forall P (dict_pop name d).*2.
Proof.
  induction d as [|[k w] d IH]; cbn [dict_pop]; [done|].
  rewrite fmap_cons. intros [Hw Hd]%Forall_cons.
  destruct (String.eqb k name); [done|].
  rewrite fmap_cons. apply Forall_cons; auto.
Qed.

Lemma entries_ok_set (name : string) (v : float) (d : list (string * float)) :
  entries_ok d → not_negative v → entries_ok (dict_set name v d).
Proof.
  intros [Hnd Hd] Hv. split; [by apply dict_set_NoDup|by apply dict_set_Forall].
Qed.

Lemma entries_ok_pop (name : string) (d : list (string * float)) :
  entries_ok d → entries_ok (dict_pop name d).
Proof.
  intros [Hnd Hd]. split; [by apply dict_pop_NoDup|by apply dict_pop_Forall].
Qed.

Lemma entries_ok_scale (factor : float) (d : list (string * float)) :
  entries_ok d → not_negative factor → entries_ok (scale_people factor d).
Proof.
  intros [Hnd Hd] Hf. split; [by apply scale_people_NoDup|].
  rewrite scale_people_map by done. clear Hnd.
  induction d as [|[n a] d IH]; [done|].
  rewrite fmap_cons in Hd. apply Forall_cons in Hd as [Ha Hd].
  simpl. apply Forall_cons. split; [by apply float_mul_not_negative|auto].
Qed.

Lemma session_ok_fresh : session_ok fresh_session.
Proof.
  split; [split; [apply NoDup_nil_2|apply Forall_nil_2]|]. by split.
Qed.

Section Invariant.

Variable py_float : string → option float.
Variable py_int : string → option Z.
Variables (S : Sessions) (chat_id mid : Z) (s : Session).
Hypothesis Hs : S !! chat_id = Some s.
Hypothesis Hok : session_ok s.

Local Ltac tracked :=
  simpl; erewrite send_and_track_lookup by (done || apply lookup_insert_eq);
  eexists; (split; [done|]).

Lemma addamount_ok (args : list string) :
  ∃ s', (addamount py_float S chat_id args mid).1 !! chat_id = Some s' ∧
        session_ok s'.
Proof.
  destruct Hok as (Hent & Ht & Hn).
  unfold addamount. rewrite Hs.
  destruct args as [|name [|t args]]; [by tracked..|].
  destruct (py_float t) as [amt|]; [|by tracked].
  destruct (amt <? 0)%float eqn:Hamt; [by tracked|].
  tracked. split; [|done]. apply entries_ok_set; [done|].
  apply float_add_not_negative; [|done].
  destruct (dict_get name (people s)) as [prev|] eqn:Hg; simpl;
    [|apply not_negative_zero].
  destruct Hent as [_ Hvals]. by eapply dict_get_Forall.
Qed.

Lemma editamount_ok (args : list string) :
  ∃ s', (editamount py_float S chat_id args mid).1 !! chat_id = Some s' ∧
        session_ok s'.
Proof.
  destruct Hok as (Hent & Ht & Hn).
  unfold editamount. rewrite Hs.
  destruct args as [|name [|t args]]; [by tracked..|].
  destruct (py_float t) as [amt|]; [|by tracked].
  destruct (amt <? 0)%float eqn:Hamt; [by tracked|].
  destruct (negb _); [by tracked|].
  tracked. split; [|done]. by apply entries_ok_set.
Qed.

Lemma remove_person_ok (args : list string) :
  ∃ s', (remove_person S chat_id args mid).1 !! chat_id = Some s' ∧
        session_ok s'.
Proof.
  destruct Hok as (Hent & Ht & Hn).
  unfold remove_person. rewrite Hs.
  destruct args as [|name args]; [by tracked|].
  destruct (dict_mem _ _); [|by tracked].
  tracked. split; [|done]. by apply entries_ok_pop.
Qed.

Lemma settotal_ok (args : list string) :
  ∃ s', (settotal py_float S chat_id args mid).1 !! chat_id = Some s' ∧
        session_ok s'.
Proof.
  destruct Hok as (Hent & Ht & Hn).
  unfold settotal. rewrite Hs.
  destruct args as [|t args]; [by tracked|].
  destruct (py_float t) as [amt|]; [|by tracked].
  destruct (amt <? 0)%float eqn:Hamt; [by tracked|].
  by tracked.
Qed.

Lemma set_num_people_ok (text : string) :
  ∃ s', (set_num_people py_int S chat_id text mid).1.1 !! chat_id = Some s' ∧
        session_ok s'.
Proof.
  destruct Hok as (Hent & Ht & Hn).
  unfold set_num_people. rewrite (get_session_active _ _ s) by done.
  destruct (py_int text) as [n|]; [|by tracked].
  case_bool_decide; [by tracked|].
  tracked. split; [done|]. split; [done|]. simpl. lia.
Qed.

Lemma set_gst_ok (text : string) :
  ∃ s', (set_gst py_float S chat_id text mid).1.1 !! chat_id = Some s' ∧
        session_ok s'.
Proof.
  unfold set_gst. rewrite (get_session_active _ _ s) by done.
  destruct (py_float text) as [v|]; [|by tracked].
  destruct (v <? 0)%float; by tracked.
Qed.

Lemma set_service_ok (text : string) :
  ∃ s', (set_service py_float S chat_id text mid).1.1 !! chat_id = Some s' ∧
        session_ok s'.
Proof.
  unfold set_service. rewrite (get_session_active _ _ s) by done.
  destruct (py_float text) as [v|]; [|by tracked].
  destruct (v <? 0)%float; by tracked.
Qed.

Lemma choose_currency_ok (data : string) :
  ∃ s', (choose_currency_cb S chat_id data mid).1.1 !! chat_id = Some s' ∧
        session_ok s'.
Proof.
  unfold choose_currency_cb. rewrite (get_session_active _ _ s) by done.
  simpl. rewrite lookup_insert_eq. by eexists.
Qed.

Lemma list_people_ok :
  ∃ s', (list_people S chat_id mid).1 !! chat_id = Some s' ∧ session_ok s'.
Proof.
  unfold list_people. rewrite Hs. destruct (people s); by tracked.
Qed.

Lemma calculate_ok :
  ∃ s', (calculate S chat_id mid).1 !! chat_id = Some s' ∧ session_ok s'.
Proof.
  unfold calculate. rewrite Hs. destruct (people s) eqn:Hp.
  - unfold calculate_equal. case_bool_decide; [by tracked|].
    destruct (Py.truediv_int _ _); simpl; [|by eexists].
    rewrite finalize_store. by eexists.
  - unfold calculate_custom. destruct (negb _); [by tracked|].
    destruct (_ ≫= _); simpl; [|by eexists].
    rewrite finalize_store. by eexists.
Qed.

Lemma mismatch_fix_ok (choice : FixChoice) :
  ∃ s', (mismatch_fix_cb S chat_id choice).1 !! chat_id = Some s' ∧
        session_ok s'.
Proof.
  destruct Hok as (Hent & Ht & Hn).
  unfold mismatch_fix_cb. rewrite (get_session_active _ _ s) by done.
  destruct choice.
  - destruct (_ <=? 0)%float eqn:Hle; simpl; [by eexists|].
    rewrite truediv_not_le_zero by done. simpl.
    rewrite lookup_insert_eq. eexists. split; [done|].
    split; [|done]. apply entries_ok_scale; [done|].
    by apply float_div_not_negative_nonzero.
  - simpl. by eexists.
  - simpl. rewrite lookup_insert_eq. eexists. split; [done|].
    split; [done|]. split; [|done]. simpl.
    apply sum_float_not_negative. by destruct Hent.
Qed.

Lemma delete_cmd_ok :
  ∃ s', delete_cmd S chat_id !! chat_id = Some s' ∧ session_ok s'.
Proof.
  unfold delete_cmd. rewrite Hs.
  rewrite (delete_setup_messages_active _ _ _ s) by done.
  rewrite lookup_insert_eq. by eexists.
Qed.

End Invariant.

(** X12.  A session with distinct names, no negative subtotal, a total
    that is not negative and a number of people that is not negative
    stays so under every handler but [set_total]: the currency choice,
    the GST, service and people prompts, [/addamount], [/editamount],
    [/remove], [/settotal], [/list], [/calculate], the three mismatch
    buttons and [/delete].  A fresh session is such a session. *)
Theorem session_ok_preserved (py_float : string → option float)
    (py_int : string → option Z) (S : Sessions) (chat_id mid : Z)
    (s : Session) (args : list string) (text : string) (choice : FixChoice) :
  S !! chat_id = Some s → session_ok s →
  let ok_after (S' : Sessions) :=
    ∃ s', S' !! chat_id = Some s' ∧ session_ok s' in
  session_ok fresh_session ∧
  ok_after (choose_currency_cb S chat_id text mid).1.1 ∧
  ok_after (set_gst py_float S chat_id text mid).1.1 ∧
  ok_after (set_service py_float S chat_id text mid).1.1 ∧
  ok_after (set_num_people py_int S chat_id text mid).1.1 ∧
  ok_after (addamount py_float S chat_id args mid).1 ∧
  ok_after (editamount py_float S chat_id args mid).1 ∧
  ok_after (remove_person S chat_id args mid).1 ∧
  ok_after (settotal py_float S chat_id args mid).1 ∧
  ok_after (list_people S chat_id mid).1 ∧
  ok_after (calculate S chat_id mid).1 ∧
  ok_after (mismatch_fix_cb S chat_id choice).1 ∧
  ok_after (delete_cmd S chat_id).
Proof.
  intros Hs Hok ok_after. unfold ok_after.
  split; [apply session_ok_fresh|].
  split; [by eapply choose_currency_ok|].
  split; [by eapply set_gst_ok|].
  split; [by eapply set_service_ok|].
  split; [by eapply set_num_people_ok|].
  split; [by eapply addamount_ok|].
  split; [by eapply editamount_ok|].
  split; [by eapply remove_person_ok|].
  split; [by eapply settotal_ok|].
  split; [by eapply list_people_ok|].
  split; [by eapply calculate_ok|].
  split; [by eapply mismatch_fix_ok|by eapply delete_cmd_ok].
Qed.

Lemma session_ok_preserved_witness :
  let s := mkSession "SGD" 100 9 10 2
             [("Alice", 60%float); ("Bob", 30%float)] [] None in
  let S : Sessions := {[ 7 := s ]} in
  ∃ s', (mismatch_fix_cb S 7 SCALE_FIX).1 !! 7 = Some s' ∧ session_ok s'.
Proof.
  intros s S.
  assert (session_ok s) as Hok.
  { split; [split|split].
    - apply (bool_decide_unpack _). vm_compute. reflexivity.
    - repeat constructor.
    - reflexivity.
    - simpl. lia. }
  destruct (session_ok_preserved float_lit int_lit S 7 1 s [] "" SCALE_FIX
              eq_refl Hok)
    as (_ & _ & _ & _ & _ & _ & _ & _ & _ & _ & _ & H & _).
  exact H.
Defined.

(** ** Entries come and go *)

Lemma dict_pop_absent (name : string) (d : list (string * float)) :
  name ∉ d.*1 → dict_pop name d = d.
Proof.
  induction d as [|[k w] d IH]; simpl; [done|].
  rewrite not_elem_of_cons. intros [Hne Hd].
  destruct (String.eqb k name) eqn:Hk.
  - apply String.eqb_eq in Hk. congruence.
  - by rewrite IH.
Qed.

Lemma dict_pop_appended (name : string) (v : float) (d : list (string * float)) :
  name ∉ d.*1 → dict_pop name (d ++ [(name, v)]) = d.
Proof.
  induction d as [|[k w] d IH]; simpl.
  - by rewrite String.eqb_refl.
  - rewrite not_elem_of_cons. intros [Hne Hd].
    destruct (String.eqb k name) eqn:Hk.
    + apply String.eqb_eq in Hk. congruence.
    + by rewrite IH.
Qed.

Lemma dict_get_pop_eq (name : string) (d : list (string * float)) :
  NoDup d.*1 → dict_get name (dict_pop name d) = None.
Proof.
  induction d as [|[k w] d IH]; simpl; [done|].
  rewrite NoDup_cons. intros [Hk Hd].
  destruct (String.eqb k name) eqn:Hkn; simpl.
  - apply String.eqb_eq in Hkn as ->. by apply dict_get_None.
  - rewrite Hkn. auto.
Qed.

Lemma dict_get_pop_ne (name other : string) (d : list (string * float)) :
  other ≠ name → dict_get other (dict_pop name d) = dict_get other d.
Proof.
  intros Hne. induction d as [|[k w] d IH]; simpl; [done|].
  destruct (String.eqb k name) eqn:Hkn; simpl.
  - apply String.eqb_eq in Hkn as ->.
    destruct (String.eqb name other) eqn:Hk'; [|done].
    apply String.eqb_eq in Hk'. congruence.
  - by rewrite IH.
Qed.

Lemma filter_ne_absent (name : string) (l : list string) :
  name ∉ l → filter (λ k, k ≠ name) l = l.
Proof.
  induction l as [|k l IH]; [done|].
  rewrite not_elem_of_cons. intros [Hne Hl].
  rewrite filter_cons_True by done. by rewrite IH.
Qed.

Lemma dict_pop_keys (name : string) (d : list (string * float)) :
  NoDup d.*1 → (dict_pop name d).*1 = filter (λ k, k ≠ name) d.*1.
Proof.
  induction d as [|[k w] d IH]; [done|].
  rewrite fmap_cons. intros [Hk Hd]%NoDup_cons. cbn [dict_pop fst].
  destruct (String.eqb k name) eqn:Hkn.
  - apply String.eqb_eq in Hkn as ->.
    rewrite filter_cons_False by (intros ?; done).
    by rewrite filter_ne_absent.
  - apply String.eqb_neq in Hkn.
    rewrite filter_cons_True by done. rewrite fmap_cons. simpl. by rewrite IH.
Qed.

Lemma dict_mem_false (name : string) (d : list (string * float)) :
  dict_mem name d = false ↔ name ∉ d.*1.
Proof.
  unfold dict_mem. rewrite <- dict_get_None. by destruct (dict_get name d).
Qed.

(** X13.  [/remove] of a name that is present deletes exactly that entry:
    the name is gone, every other name keeps its subtotal, and the
    remaining names keep their order; [/editamount] for the removed name
    is then refused. *)
Theorem remove_person_deletes (py_float : string → option float)
    (S : Sessions) (chat_id mid mid' : Z) (s : Session)
    (name text : string) (rest : list string) :
  S !! chat_id = Some s → NoDup (people s).*1 →
  dict_mem name (people s) = true →
  ∃ s', (remove_person S chat_id (name :: rest) mid).1 !! chat_id = Some s' ∧
        (remove_person S chat_id (name :: rest) mid).2 = Removed name ∧
        dict_get name (people s') = None ∧
        (∀ other, other ≠ name →
                  dict_get other (people s') = dict_get other (people s)) ∧
        (people s').*1 = filter (λ k, k ≠ name) (people s).*1 ∧
        ∀ amount, py_float text = Some amount → not_negative amount →
          (editamount py_float (remove_person S chat_id (name :: rest) mid).1
             chat_id [name; text] mid').2 = NotInList name.
Proof.
  intros Hs Hnd Hmem. unfold remove_person. rewrite Hs, Hmem. simpl.
  erewrite send_and_track_lookup by apply lookup_insert_eq.
  eexists. split; [done|]. split; [done|]. simpl.
  split; [by apply dict_get_pop_eq|].
  split; [intros other Hne; by apply dict_get_pop_ne|]. split.
  - by apply dict_pop_keys.
  - intros amount Hp Hamt. unfold editamount.
    erewrite send_and_track_lookup by apply lookup_insert_eq.
    rewrite Hp, Hamt. simpl.
    unfold dict_mem. by rewrite dict_get_pop_eq.
Qed.

Lemma remove_person_deletes_witness :
  let s := mkSession "SGD" 100 9 10 2
             [("Alice", 60%float); ("Bob", 40%float)] [] None in
  let S : Sessions := {[ 7 := s ]} in
  ∃ s', (remove_person S 7 ["Alice"] 3).1 !! 7 = Some s' ∧
        dict_get "Alice" (people s') = None ∧
        (people s').*1 = filter (λ k, k ≠ "Alice") (people s).*1.
Proof.
  intros s S.
  assert (NoDup (people s).*1) as Hnd
    by (apply (bool_decide_unpack _); vm_compute; reflexivity).
  destruct (remove_person_deletes float_lit S 7 3 4 s "Alice" "5" []
              eq_refl Hnd eq_refl) as (s' & H1 & _ & H2 & _ & H3 & _).
  exists s'. split; [exact H1|]. split; [exact H2|exact H3].
Defined.

(** X14.  Adding an amount for a new name and removing the name again
    gives back the entries as they were, in the same order. *)
Theorem add_then_remove (py_float : string → option float) (S : Sessions)
    (chat_id mid mid' : Z) (s : Session) (name text : string)
    (rest rest' : list string) (amount : float) :
  S !! chat_id = Some s → dict_mem name (people s) = false →
  py_float text = Some amount → not_negative amount →
  let S1 := (addamount py_float S chat_id (name :: text :: rest) mid).1 in
  (remove_person S1 chat_id (name :: rest') mid').2 = Removed name ∧
  people <$> (remove_person S1 chat_id (name :: rest') mid').1 !! chat_id
    = Some (people s).
Proof.
  intros Hs Hmem Hp Hamt S1. subst S1.
  apply dict_mem_false in Hmem as Habs.
  unfold addamount. rewrite Hs, Hp, Hamt. simpl.
  rewrite (dict_set_absent _ _ _ Habs).
  unfold remove_person.
  erewrite send_and_track_lookup by apply lookup_insert_eq.
  simpl.
  assert (dict_mem name (people s ++ [(name, (default 0%float (dict_get name (people s)) + amount)%float)]) = true) as ->.
  { unfold dict_mem.
    rewrite <- (dict_set_absent _ _ _ Habs), dict_get_set_eq. done. }
  simpl. split; [done|].
  erewrite send_and_track_lookup by apply lookup_insert_eq.
  simpl. by rewrite dict_pop_appended.
Qed.

Lemma add_then_remove_witness :
  let s := mkSession "SGD" 100 9 10 2 [("Alice", 60%float)] [] None in
  let S : Sessions := {[ 7 := s ]} in
  let S1 := (addamount float_lit S 7 ["Bob"; "10"] 3).1 in
  people <$> (remove_person S1 7 ["Bob"] 4).1 !! 7 = Some (people s).
Proof.
  intros s S S1.
  destruct (add_then_remove float_lit S 7 3 4 s "Bob" "10" [] [] 10%float
              eq_refl eq_refl eq_refl eq_refl) as [_ H].
  exact H.
Defined.

(** X15.  [/addamount] and [/editamount] never reorder the entries:
    after [/addamount] the names are the former names, with the new name
    appended when it was absent; [/editamount] leaves the names as they
    are, whatever it answers. *)
Theorem names_keep_their_order (py_float : string → option float)
    (S : Sessions) (chat_id mid : Z) (s : Session) (args : list string) :
  S !! chat_id = Some s →
  (∃ s', (addamount py_float S chat_id args mid).1 !! chat_id = Some s' ∧
         ((people s').*1 = (people s).*1 ∨
          ∃ name, args !! 0%nat = Some name ∧ (name ∉ (people s).*1) ∧
                  (people s').*1 = (people s).*1 ++ [name])) ∧
  (∃ s', (editamount py_float S chat_id args mid).1 !! chat_id = Some s' ∧
         (people s').*1 = (people s).*1).
Proof.
  intros Hs. split.
  - unfold addamount. rewrite Hs.
    destruct args as [|name [|t args]];
      try (simpl; erewrite send_and_track_lookup by done; eexists;
           split; [done|by left]).
    destruct (py_float t) as [amt|];
      [|simpl; erewrite send_and_track_lookup by done; eexists;
        split; [done|by left]].
    destruct (amt <? 0)%float;
      [simpl; erewrite send_and_track_lookup by done; eexists;
       split; [done|by left]|].
    simpl. erewrite send_and_track_lookup by apply lookup_insert_eq.
    eexists. split; [done|]. simpl. rewrite dict_set_keys.
    destruct (dict_mem name (people s)) eqn:Hmem; [by left|].
    right. exists name. split; [done|]. split; [|done].
    by apply dict_mem_false.
  - unfold editamount. rewrite Hs.
    destruct args as [|name [|t args]];
      try (simpl; erewrite send_and_track_lookup by done; by eexists).
    destruct (py_float t) as [amt|];
      [|simpl; erewrite send_and_track_lookup by done; by eexists].
    destruct (amt <? 0)%float;
      [simpl; erewrite send_and_track_lookup by done; by eexists|].
    destruct (dict_mem name (people s)) eqn:Hmem; simpl;
      [|erewrite send_and_track_lookup by done; by eexists].
    erewrite send_and_track_lookup by apply lookup_insert_eq.
    eexists. split; [done|]. simpl. by rewrite dict_set_keys, Hmem.
Qed.

Lemma names_keep_their_order_witness :
  let s := mkSession "SGD" 100 9 10 2
             [("Alice", 60%float); ("Bob", 40%float)] [] None in
  let S : Sessions := {[ 7 := s ]} in
  ∃ s', (editamount float_lit S 7 ["Alice"; "5"] 3).1 !! 7 = Some s' ∧
        (people s').*1 = ["Alice"; "Bob"].
Proof.
  intros s S.
  destruct (names_keep_their_order float_lit S 7 3 s ["Alice"; "5"] eq_refl)
    as [_ H].
  exact H.
Defined.

(** ** Finalization, continued *)

Lemma calculate_bill (S : Sessions) (chat_id mid : Z) :
  bill_data <$> (calculate S chat_id mid).1 !! chat_id =
  bill_data <$> S !! chat_id.
Proof.
  destruct (S !! chat_id) as [s|] eqn:Hs.
  - unfold calculate. rewrite Hs. destruct (people s) eqn:Hp.
    + unfold calculate_equal. case_bool_decide; simpl.
      * by rewrite (send_and_track_lookup _ _ _ s).
      * destruct (Py.truediv_int _ _); simpl; [|by rewrite Hs].
        by rewrite finalize_store.
    + unfold calculate_custom. destruct (negb _); simpl.
      * by rewrite (send_and_track_lookup _ _ _ s).
      * destruct (_ ≫= _); simpl; [|by rewrite Hs].
        by rewrite finalize_store.
  - unfold calculate. rewrite Hs. simpl. by rewrite Hs.
Qed.

(** The answer of [calculate] is a function of the bill. *)
Lemma calculate_reply_of_bill (S S' : Sessions) (chat_id mid mid' : Z) :
  bill_data <$> S' !! chat_id = bill_data <$> S !! chat_id →
  (calculate S' chat_id mid').2 = (calculate S chat_id mid).2.
Proof.
  unfold calculate.
  destruct (S !! chat_id) as [s|], (S' !! chat_id) as [s'|]; try done.
  simpl. intros [= Hc Ht Hg Hsv Hn Hp].
  rewrite Hp. destruct (people s) eqn:Hps.
  - unfold calculate_equal, grand_total, gst_amount, svc_amount.
    rewrite Hn, Ht, Hg, Hsv. case_bool_decide; [done|].
    by destruct (Py.truediv_int _ _).
  - unfold calculate_custom, raw_shares, raw_share, grand_total, gst_amount,
      svc_amount.
    rewrite Hp, Hps, Ht, Hg, Hsv. destruct (negb _); [done|].
    by destruct (_ ≫= _).
Qed.

(** X16.  [/calculate] never changes the bill (currency, total,
    percentages, number of people, entries), and asking again gives the
    same answer: the mismatch, the refusal or the same breakdown. *)
Theorem calculate_repeatable (S : Sessions) (chat_id mid mid' : Z) :
  bill_data <$> (calculate S chat_id mid).1 !! chat_id =
    bill_data <$> S !! chat_id ∧
  (calculate (calculate S chat_id mid).1 chat_id mid').2 =
    (calculate S chat_id mid).2.
Proof.
  split; [apply calculate_bill|].
  apply calculate_reply_of_bill, calculate_bill.
Qed.

(** X17.  With custom amounts the number of people plays no part: the
    answer of [/calculate] is the same for every participant count.
    Between [/list], [/delete] and [/calculate] the answer does not change
    either. *)
Theorem calculate_ignores_count (S : Sessions) (chat_id mid mid' : Z)
    (s : Session) (p : string * float) (ps : list (string * float)) (n : Z) :
  S !! chat_id = Some s → people s = p :: ps →
  (calculate (<[chat_id := with_num_people n s]> S) chat_id mid').2 =
    (calculate S chat_id mid).2 ∧
  (calculate (list_people S chat_id mid).1 chat_id mid').2 =
    (calculate S chat_id mid).2 ∧
  (calculate (delete_cmd S chat_id) chat_id mid').2 =
    (calculate S chat_id mid).2.
Proof.
  intros Hs Hp. split; [|split].
  - unfold calculate. rewrite lookup_insert_eq, Hs. simpl. rewrite Hp.
    unfold calculate_custom. simpl. destruct (negb _); [done|].
    unfold raw_shares, raw_share, grand_total, gst_amount, svc_amount. simpl.
    by destruct (_ ≫= _).
  - apply calculate_reply_of_bill. unfold list_people. rewrite Hs, Hp. simpl.
    by rewrite (send_and_track_lookup _ _ _ s).
  - apply calculate_reply_of_bill. unfold delete_cmd. rewrite Hs.
    rewrite (delete_setup_messages_active _ _ _ s) by done.
    by rewrite lookup_insert_eq.
Qed.

Lemma calculate_ignores_count_witness :
  let s := mkSession "SGD" 100 9 10 2
             [("Alice", 60%float); ("Bob", 40%float)] [] None in
  let S : Sessions := {[ 7 := s ]} in
  (calculate (<[7 := with_num_people 5 s]> S) 7 4).2 = (calculate S 7 3).2.
Proof.
  intros s S.
  destruct (calculate_ignores_count S 7 3 4 s ("Alice", 60%float)
              [("Bob", 40%float)] 5 eq_refl eq_refl) as [H _].
  exact H.
Defined.

(** ** Tracked messages *)

(** X18.  [/delete] leaves the bill and the finalized marker alone and
    keeps, of the tracked ids, only those equal to the (non-zero) id of the
    last breakdown, in their order; a second [/delete] changes nothing.
    After a breakdown, no id other than the breakdown's is tracked. *)
Theorem delete_cmd_keeps_breakdown (S : Sessions) (chat_id mid : Z) (s : Session) :
  S !! chat_id = Some s →
  (∃ s', delete_cmd S chat_id !! chat_id = Some s' ∧
         bill_data s' = bill_data s ∧
         finalized_msg_id s' = finalized_msg_id s ∧
         messages s' =
           filter (λ m, finalized_msg_id s = Some m ∧ m ≠ 0) (messages s)) ∧
  delete_cmd (delete_cmd S chat_id) chat_id = delete_cmd S chat_id ∧
  (∀ su g sv gr per n s',
     (calculate S chat_id mid).2 = EqualBreakdown su g sv gr per n →
     (calculate S chat_id mid).1 !! chat_id = Some s' →
     Forall (λ m, m = mid) (messages s') ∧ finalized_msg_id s' = Some mid) ∧
  (∀ su g sv gr shares s',
     (calculate S chat_id mid).2 = CustomBreakdown su g sv gr shares →
     (calculate S chat_id mid).1 !! chat_id = Some s' →
     Forall (λ m, m = mid) (messages s') ∧ finalized_msg_id s' = Some mid).
Proof.
  intros Hs.
  assert (∀ (keep l : list Z),
            Forall (λ m : Z, m ∈ keep) (filter (λ m, m ∈ keep) l)) as Hfilter.
  { intros keep l. apply Forall_forall. by intros m [? _]%list_elem_of_filter. }
  set (keep := match finalized_msg_id s with
               | Some fid => if bool_decide (fid = 0) then [] else [fid]
               | None => []
               end).
  assert (filter (λ m, m ∈ keep) (messages s) =
          filter (λ m, finalized_msg_id s = Some m ∧ m ≠ 0) (messages s)) as Hkeep.
  { apply list_filter_iff. intros m. unfold keep.
    destruct (finalized_msg_id s) as [fid|].
    - case_bool_decide as Hfid.
      + rewrite elem_of_nil. split; [done|]. intros [[= ->] ?]. done.
      + rewrite list_elem_of_singleton. split; [by intros ->|].
        by intros [[= ->] _].
    - rewrite elem_of_nil. split; [done|]. by intros [? _]. }
  split; [|split; [|split]].
  - unfold delete_cmd. rewrite Hs.
    rewrite (delete_setup_messages_active _ _ _ s) by done.
    rewrite lookup_insert_eq. eexists. split; [done|]. simpl.
    split; [done|]. split; [done|]. exact Hkeep.
  - unfold delete_cmd at 1.
    assert (delete_cmd S chat_id =
            <[chat_id := with_messages (filter (λ m, m ∈ keep) (messages s)) s]> S)
      as Hd.
    { unfold delete_cmd. rewrite Hs.
      by rewrite (delete_setup_messages_active _ _ _ s). }
    rewrite Hd, lookup_insert_eq. simpl. fold keep.
    rewrite (delete_setup_messages_active _ _ _
               (with_messages (filter (λ m, m ∈ keep) (messages s)) s))
      by apply lookup_insert_eq.
    rewrite insert_insert_eq. simpl.
    assert (filter (λ m, m ∈ keep) (filter (λ m, m ∈ keep) (messages s)) =
            filter (λ m, m ∈ keep) (messages s)) as ->; [|done].
    rewrite list_filter_filter. apply list_filter_iff. tauto.
  - intros su g sv gr per n s'. unfold calculate. rewrite Hs.
    destruct (people s).
    + unfold calculate_equal. case_bool_decide; [done|].
      destruct (Py.truediv_int _ _); simpl; [|done].
      intros _. rewrite finalize_store. intros [= <-]. simpl.
      split; [|done]. eapply Forall_impl; [apply Hfilter|].
      intros m Hm. by apply list_elem_of_singleton in Hm.
    + unfold calculate_custom. destruct (negb _); [done|].
      by destruct (_ ≫= _).
  - intros su g sv gr shares s'. unfold calculate. rewrite Hs.
    destruct (people s).
    + unfold calculate_equal. case_bool_decide; [done|].
      by destruct (Py.truediv_int _ _).
    + unfold calculate_custom. destruct (negb _); [done|].
      destruct (_ ≫= _); simpl; [|done].
      intros _. rewrite finalize_store. intros [= <-]. simpl.
      split; [|done]. eapply Forall_impl; [apply Hfilter|].
      intros m Hm. by apply list_elem_of_singleton in Hm.
Qed.

Lemma delete_cmd_keeps_breakdown_witness :
  let s := mkSession "SGD" 100 9 10 2 [] [3; 9; 4; 9] (Some 9) in
  let S : Sessions := {[ 7 := s ]} in
  ∃ s', delete_cmd S 7 !! 7 = Some s' ∧ messages s' = [9; 9] ∧
        bill_data s' = bill_data s.
Proof.
  intros s S.
  destruct (delete_cmd_keeps_breakdown S 7 1 s eq_refl)
    as ((s' & H1 & H2 & _ & H3) & _).
  exists s'. split; [exact H1|]. split; [|exact H2].
  rewrite H3. reflexivity.
Defined.

(** ** Sessions that are created on the way *)

(** X19.  Without a session, the mismatch buttons, the currency button
    and the setup prompts do not refuse, as the commands do: they create
    the default session first.  A mismatch button then leaves exactly a
    fresh session behind ([SCALE_FIX] cannot scale an empty sum,
    [TOTAL_TO_SUM] adopts the sum 0), and a rejected prompt a fresh session
    with the error message tracked. *)
Theorem session_created_on_demand (py_float : string → option float)
    (py_int : string → option Z) (S : Sessions) (chat_id mid : Z)
    (choice : FixChoice) (text : string) :
  S !! chat_id = None →
  (mismatch_fix_cb S chat_id choice).1 = <[chat_id := fresh_session]> S ∧
  (mismatch_fix_cb S chat_id SCALE_FIX).2 = CannotScale ∧
  (choose_currency_cb S chat_id text mid).1.1 =
    <[chat_id := with_messages [mid] (with_currency text fresh_session)]> S ∧
  (py_float text = None →
   (set_total py_float S chat_id text mid).1.1 =
     <[chat_id := with_messages [mid] fresh_session]> S) ∧
  (py_int text = None →
   (set_num_people py_int S chat_id text mid).1.1 =
     <[chat_id := with_messages [mid] fresh_session]> S).
Proof.
  intros Hnone.
  assert (get_session S chat_id = (<[chat_id := fresh_session]> S, fresh_session))
    as Hget by (unfold get_session; by rewrite Hnone).
  assert (send_and_track (<[chat_id := fresh_session]> S) chat_id mid =
          <[chat_id := with_messages [mid] fresh_session]> S) as Htr.
  { rewrite (send_and_track_active _ _ _ fresh_session) by apply lookup_insert_eq.
    by rewrite insert_insert_eq. }
  split; [|split; [|split; [|split]]].
  - unfold mismatch_fix_cb. rewrite Hget. destruct choice; simpl; try done.
    by rewrite insert_insert_eq.
  - unfold mismatch_fix_cb. by rewrite Hget.
  - unfold choose_currency_cb. rewrite Hget. simpl. by rewrite insert_insert_eq.
  - intros Hp. unfold set_total. by rewrite Hget, Hp.
  - intros Hp. unfold set_num_people. by rewrite Hget, Hp.
Qed.

Lemma session_created_on_demand_witness :
  let S : Sessions := stop_cmd {[ 7 := mkSession "MYR" 80 6 0 3 [] [5] None ]} 7 in
  (mismatch_fix_cb S 7 TOTAL_TO_SUM).1 = <[7 := fresh_session]> S.
Proof.
  intros S.
  destruct (session_created_on_demand float_lit int_lit S 7 1 TOTAL_TO_SUM ""
              eq_refl) as [H _].
  exact H.
Defined.

(** X20.  [/reset] leaves the store that [/start] leaves, which is also
    what [/stop] followed by [/start] leaves: the session of the chat is
    replaced by the default one with only the menu message tracked,
    whatever the session held; and [/stop] amounts to dropping the
    session.  Only the stores are compared: the state that [reset]
    returns is left out, the handler being registered outside the
    conversation handler. *)
Theorem reset_store_as_start (S : Sessions) (chat_id mid : Z) :
  (reset S chat_id mid).1 = (start S chat_id mid).1 ∧
  (reset S chat_id mid).1 = (start (stop_cmd S chat_id) chat_id mid).1 ∧
  (reset S chat_id mid).1 !! chat_id
    = Some (with_messages [mid] fresh_session) ∧
  stop_cmd S chat_id = delete chat_id S.
Proof.
  assert (∀ S0 : Sessions, delete chat_id (delete chat_id S0) = delete chat_id S0)
    as Hdd by (intros S0; apply delete_id, lookup_delete_eq).
  assert ((reset S chat_id mid).1 = (start S chat_id mid).1) as Hrs.
  { unfold reset, start. cbn [fst]. rewrite Hdd.
    destruct (S !! chat_id) as [s|] eqn:Hs; [|done].
    rewrite (delete_setup_messages_active _ _ _ s) by done.
    by rewrite delete_insert_eq. }
  split; [done|]. split; [|split].
  - rewrite Hrs, stop_cmd_delete. unfold start. cbn [fst]. by rewrite Hdd.
  - rewrite Hrs. unfold start. cbn [fst]. unfold send_and_track, get_session.
    rewrite lookup_delete_eq. apply lookup_insert_eq.
  - apply stop_cmd_delete.
Qed.

(** ** After a resolution *)

(** X21.  After [TOTAL_TO_SUM] on a session with entries whose sum is
    finite, [/calculate] no longer reports a mismatch; and after
    [EDIT_FIX] the session is what it was. *)
Theorem adopt_sum_then_calculate (S : Sessions) (chat_id mid : Z) (s : Session)
    (p : string * float) (ps : list (string * float)) :
  S !! chat_id = Some s → people s = p :: ps →
  Py.isfinite (Py.sum_float (people s).*2) = true →
  (∀ e sc d m,
     (calculate (mismatch_fix_cb S chat_id TOTAL_TO_SUM).1 chat_id mid).2
       ≠ Mismatch e sc d m) ∧
  mismatch_fix_cb S chat_id EDIT_FIX = (S, EditHint).
Proof.
  intros Hs Hp Hfin. split.
  - intros e sc d m. unfold mismatch_fix_cb.
    rewrite (get_session_active _ _ s) by done. simpl.
    rewrite (calculate_with_entries _ _ _ (with_total (Py.sum_float (people s).*2) s) p ps)
      by (done || apply lookup_insert_eq).
    unfold calculate_custom. simpl.
    rewrite close_enough_refl by done. simpl. by destruct (_ ≫= _).
  - unfold mismatch_fix_cb. by rewrite (get_session_active _ _ s).
Qed.

Lemma adopt_sum_then_calculate_witness :
  let s := mkSession "SGD" 100 9 10 2
             [("Alice", 60%float); ("Bob", 30%float)] [] None in
  let S : Sessions := {[ 7 := s ]} in
  (∃ d, (calculate S 7 1).2 = Mismatch 100 90 d true) ∧
  ∀ e sc d m,
    (calculate (mismatch_fix_cb S 7 TOTAL_TO_SUM).1 7 2).2 ≠ Mismatch e sc d m.
Proof.
  intros s S. split; [by eexists|].
  destruct (adopt_sum_then_calculate S 7 2 s ("Alice", 60%float)
              [("Bob", 30%float)] eq_refl eq_refl eq_refl) as [H _].
  exact H.
Defined.

(** ** Amounts that are not numbers *)

Lemma float_add_nan_r (x : float) : (x + nan)%float = nan.
Proof.
  apply Prim2SF_inj. rewrite add_spec.
  change (Prim2SF nan) with S754_nan. unfold SF64add.
  by destruct (Prim2SF x) as [[]|[]| |[] ? ?].
Qed.

Lemma float_add_nan_l (x : float) : (nan + x)%float = nan.
Proof.
  apply Prim2SF_inj. rewrite add_spec.
  change (Prim2SF nan) with S754_nan. done.
Qed.

Lemma sum_float_from_nan (l : list float) : foldl PrimFloat.add nan l = nan.
Proof.
  induction l as [|x l IH]; simpl; [done|]. by rewrite float_add_nan_l.
Qed.

Lemma sum_float_nan (l : list float) : nan ∈ l → Py.sum_float l = nan.
Proof.
  unfold Py.sum_float. generalize 0%float.
  induction l as [|x l IH]; intros acc Hin; [by apply elem_of_nil in Hin|].
  simpl. apply elem_of_cons in Hin as [<-|Hin].
  - rewrite float_add_nan_r. apply sum_float_from_nan.
  - by apply IH.
Qed.

Lemma close_enough_nan (t : float) : close_enough nan t = false.
Proof.
  unfold close_enough. rewrite leb_spec, abs_spec, sub_spec.
  change (Prim2SF nan) with S754_nan. done.
Qed.

Lemma float_mul_nan_r (x : float) : (x * nan)%float = nan.
Proof.
  apply Prim2SF_inj. rewrite mul_spec.
  change (Prim2SF nan) with S754_nan. unfold SF64mul.
  by destruct (Prim2SF x) as [[]|[]| |[] ? ?].
Qed.

Lemma float_div_nan_r (x : float) : (x / nan)%float = nan.
Proof.
  apply Prim2SF_inj. rewrite div_spec.
  change (Prim2SF nan) with S754_nan. unfold SF64div.
  by destruct (Prim2SF x) as [[]|[]| |[] ? ?].
Qed.

Lemma scale_by_nan (d : list (string * float)) :
  (map (λ '(n, a), (n, (a * nan)%float)) d).*1 = d.*1 ∧
  Forall (λ a, a = nan) (map (λ '(n, a), (n, (a * nan)%float)) d).*2.
Proof.
  induction d as [|[n a] d [IH1 IH2]]; [by split|].
  rewrite map_cons, !fmap_cons. simpl. split; [by f_equal|].
  apply Forall_cons. split; [apply float_mul_nan_r|done].
Qed.

(** X22.  The test [amount < 0] lets NaN through, and one NaN subtotal
    blocks the bill: the sum of the entries is NaN, [/calculate] answers
    with a mismatch whatever the total is, [TOTAL_TO_SUM] makes the total
    NaN, and [SCALE_FIX] turns every subtotal into NaN. *)
Theorem nan_entry_blocks (S : Sessions) (chat_id mid : Z) (s : Session) :
  S !! chat_id = Some s → NoDup (people s).*1 → nan ∈ (people s).*2 →
  not_negative nan ∧
  Py.sum_float (people s).*2 = nan ∧
  (∃ d, calculate S chat_id mid =
          (send_and_track S chat_id mid, Mismatch (total s) nan d false)) ∧
  (mismatch_fix_cb S chat_id TOTAL_TO_SUM).1 =
    <[chat_id := with_total nan s]> S ∧
  ∃ s', (mismatch_fix_cb S chat_id SCALE_FIX).1 !! chat_id = Some s' ∧
        (people s').*1 = (people s).*1 ∧
        Forall (λ a, a = nan) (people s').*2.
Proof.
  intros Hs Hnd Hnan. pose proof (sum_float_nan _ Hnan) as Hsum.
  split; [reflexivity|]. split; [done|].
  destruct (people s) as [|p ps] eqn:Hp; [by apply elem_of_nil in Hnan|].
  split; [|split].
  - rewrite (calculate_with_entries _ _ _ s p ps) by done.
    unfold calculate_custom. rewrite Hp, Hsum, close_enough_nan. simpl.
    eexists. f_equal. f_equal.
    rewrite ltb_spec, sub_spec, Prim2SF_zero.
    change (Prim2SF nan) with S754_nan. unfold SF64sub.
    by destruct (Prim2SF (total s)).
  - unfold mismatch_fix_cb. rewrite (get_session_active _ _ s) by done.
    by rewrite Hp, Hsum.
  - unfold mismatch_fix_cb.
    rewrite (get_session_active _ _ s) by done. rewrite Hp, Hsum.
    assert ((nan <=? 0)%float = false) as -> by reflexivity.
    rewrite truediv_not_le_zero by reflexivity. simpl.
    eexists. split; [apply lookup_insert_eq|]. cbn [people with_people].
    rewrite float_div_nan_r, scale_people_map by done.
    apply scale_by_nan.
Qed.

Lemma nan_entry_blocks_witness :
  let s := mkSession "SGD" 100 9 10 2
             [("Alice", 60%float); ("Bob", nan)] [] None in
  let S : Sessions := {[ 7 := s ]} in
  ∃ d, calculate S 7 3 = (send_and_track S 7 3, Mismatch 100 nan d false).
Proof.
  intros s S.
  assert (NoDup (people s).*1) as Hnd
    by (apply (bool_decide_unpack _); vm_compute; reflexivity).
  assert (nan ∈ (people s).*2) as Hin
    by (simpl; apply list_elem_of_further, list_elem_of_here).
  destruct (nan_entry_blocks S 7 3 s eq_refl Hnd Hin) as (_ & _ & H & _).
  exact H.
Defined.
